(** * A timeline editor: clip store, composition resolver, edit sessions

    Shallow embedding of the timeline core of the editor: [types.ts] (the
    clip record), the [App] component (clip store and the click actions:
    import, split, separate audio, trim nudge, update), the [Player]
    component (which clips are active at the playhead, what is handed to the
    media elements) and the [Timeline] component (drag sessions: move,
    resize-left, resize-right and their commit).

    Numbers.  In [App], [Player] and [Timeline] every JavaScript [number]
    that carries a time, a pixel position or a volume is a rational [Q];
    [trackIndex] only ever holds integers and is a [Z].  Fields that the
    code copies are equal with [=]; values the code computes are compared
    with [==], [<=] and [<].  Arithmetic over [Q] is exact, while the code
    computes in IEEE 754 doubles: a count of repeated additions, an equation
    between two sums grouped differently, or a strict bound at the end of an
    interval can be off by a rounding error.  The functions where that
    decides a statement are embedded a second time over binary64, with the
    rounding of the code, in [Module Double]: the clock, the interval test
    and the source time of the player, the click actions of a session that
    imports, trims, plays and splits, and the resize-left branch of a drag.

    State.  A component's [useState] cells are a record; a handler is a
    function from the state its closure saw (and the event) to the next
    state.  [crypto.randomUUID()] is an argument [uuid] of the handler.

    Stores.  The ids of the clips come from [crypto.randomUUID()]; where a
    statement speaks of the selected or the dragged clip, the ids of the
    store are taken to be distinct ([unique_ids]). *)

From Stdlib Require Import QArith Qminmax Qround Qabs Lqa ZArith List String Bool Lia.
From Stdlib Require PrimFloat.
Import ListNotations.

Local Open Scope Q_scope.

(** ** Comparisons of numbers as the code writes them *)

Definition Qltb (x y : Q) : bool := negb (Qle_bool y x).
Definition Qgeb (x y : Q) : bool := Qle_bool y x.
Definition Qgtb (x y : Q) : bool := Qltb y x.

(** ** types.ts *)

Inductive MediaType : Type := video | audio | image.

Definition MediaType_eqb (a b : MediaType) : bool :=
  match a, b with
  | video, video | audio, audio | image, image => true
  | _, _ => false
  end.

Record Clip : Type := mkClip {
  id : string;
  fileUrl : string;
  type : MediaType;
  name : string;
  duration : Q;
  startOffset : Q;
  trackIndex : Z;
  trimStart : Q;
  trimEnd : Q;
  volume : Q;
  isMuted : bool;
  thumbnail : option string
}.

(** An object literal of type [Partial<Clip>] is the list of its
    [key: value] entries, in the order they are written. *)
Inductive Entry : Type :=
| id_is (v : string)
| fileUrl_is (v : string)
| type_is (v : MediaType)
| name_is (v : string)
| duration_is (v : Q)
| startOffset_is (v : Q)
| trackIndex_is (v : Z)
| trimStart_is (v : Q)
| trimEnd_is (v : Q)
| volume_is (v : Q)
| isMuted_is (v : bool)
| thumbnail_is (v : string).

Definition Partial_Clip : Type := list Entry.

Definition assign (c : Clip) (e : Entry) : Clip :=
  match e with
  | id_is v => mkClip v (fileUrl c) (type c) (name c) (duration c) (startOffset c) (trackIndex c) (trimStart c) (trimEnd c) (volume c) (isMuted c) (thumbnail c)
  | fileUrl_is v => mkClip (id c) v (type c) (name c) (duration c) (startOffset c) (trackIndex c) (trimStart c) (trimEnd c) (volume c) (isMuted c) (thumbnail c)
  | type_is v => mkClip (id c) (fileUrl c) v (name c) (duration c) (startOffset c) (trackIndex c) (trimStart c) (trimEnd c) (volume c) (isMuted c) (thumbnail c)
  | name_is v => mkClip (id c) (fileUrl c) (type c) v (duration c) (startOffset c) (trackIndex c) (trimStart c) (trimEnd c) (volume c) (isMuted c) (thumbnail c)
  | duration_is v => mkClip (id c) (fileUrl c) (type c) (name c) v (startOffset c) (trackIndex c) (trimStart c) (trimEnd c) (volume c) (isMuted c) (thumbnail c)
  | startOffset_is v => mkClip (id c) (fileUrl c) (type c) (name c) (duration c) v (trackIndex c) (trimStart c) (trimEnd c) (volume c) (isMuted c) (thumbnail c)
  | trackIndex_is v => mkClip (id c) (fileUrl c) (type c) (name c) (duration c) (startOffset c) v (trimStart c) (trimEnd c) (volume c) (isMuted c) (thumbnail c)
  | trimStart_is v => mkClip (id c) (fileUrl c) (type c) (name c) (duration c) (startOffset c) (trackIndex c) v (trimEnd c) (volume c) (isMuted c) (thumbnail c)
  | trimEnd_is v => mkClip (id c) (fileUrl c) (type c) (name c) (duration c) (startOffset c) (trackIndex c) (trimStart c) v (volume c) (isMuted c) (thumbnail c)
  | volume_is v => mkClip (id c) (fileUrl c) (type c) (name c) (duration c) (startOffset c) (trackIndex c) (trimStart c) (trimEnd c) v (isMuted c) (thumbnail c)
  | isMuted_is v => mkClip (id c) (fileUrl c) (type c) (name c) (duration c) (startOffset c) (trackIndex c) (trimStart c) (trimEnd c) (volume c) v (thumbnail c)
  | thumbnail_is v => mkClip (id c) (fileUrl c) (type c) (name c) (duration c) (startOffset c) (trackIndex c) (trimStart c) (trimEnd c) (volume c) (isMuted c) (Some v)
  end.

(** [{ ...c, ...updates }]: the entries of [updates] overwrite the fields of
    [c] one after the other, a later entry winning over an earlier one. *)
Definition spread (c : Clip) (updates : Partial_Clip) : Clip :=
  fold_left assign updates c.

(** [clips.find(c => c.id === wanted)]; [wanted] is [string | null] and no
    clip has the id [null]. *)
Definition find_by_id (wanted : option string) (clips : list Clip) : option Clip :=
  match wanted with
  | None => None
  | Some i => find (fun c => String.eqb (id c) i) clips
  end.

(** [prev.map(c => c.id === target ? replacement(c) : c)] *)
Definition map_by_id (target : string) (replacement : Clip -> Clip)
    (prev : list Clip) : list Clip :=
  map (fun c => if String.eqb (id c) target then replacement c else c) prev.

(** ** The [Player] component *)

Module Player.

(** The test both filters apply: the clip has the wanted type and
    [currentTime >= c.startOffset && currentTime < c.startOffset +
    (c.trimEnd - c.trimStart)]. *)
Definition active (wanted : MediaType) (currentTime : Q) (c : Clip) : bool :=
  MediaType_eqb (type c) wanted &&
  Qgeb currentTime (startOffset c) &&
  Qltb currentTime (startOffset c + (trimEnd c - trimStart c)).

Definition activeVideoClips (clips : list Clip) (currentTime : Q) : list Clip :=
  filter (active video currentTime) clips.

(** [Array.prototype.sort] with a comparator is a stable sort: [a] comes
    before [b] when [compareFn a b < 0], after it when [compareFn a b > 0],
    and elements that compare equal keep their order. *)
Section Sort.
Context {A : Type} (compareFn : A -> A -> Z).

Fixpoint insert_sorted (x : A) (l : list A) : list A :=
  match l with
  | [] => [x]
  | y :: l' =>
      if (compareFn x y <=? 0)%Z then x :: y :: l'
      else y :: insert_sorted x l'
  end.

Definition sort (l : list A) : list A := fold_right insert_sorted [] l.
End Sort.

(** [(a, b) => b.trackIndex - a.trackIndex] *)
Definition byTrackDescending (a b : Clip) : Z := (trackIndex b - trackIndex a)%Z.

Definition topVideoClip (clips : list Clip) (currentTime : Q) : option Clip :=
  hd_error (sort byTrackDescending (activeVideoClips clips currentTime)).

Definition activeAudioClips (clips : list Clip) (currentTime : Q) : list Clip :=
  filter (active audio currentTime) clips.

(** [offsetInClip = currentTime - clip.startOffset;
     targetSourceTime = clip.trimStart + offsetInClip] *)
Definition targetSourceTime (clip : Clip) (currentTime : Q) : Q :=
  let offsetInClip := currentTime - startOffset clip in
  trimStart clip + offsetInClip.

(** What the component reads and writes of a [<video>] or [<audio>]
    element.  [play()] is taken to succeed. *)
Record MediaElement : Type := mkElement {
  src : option string;
  data_src : option string;
  el_currentTime : Q;
  paused : bool;
  muted : bool;
  el_volume : Q
}.

(** A media element as the browser creates it: no source, at time 0,
    paused, not muted, at full volume. *)
Definition new_element : MediaElement :=
  mkElement None None 0 true false 1.

(** The branch both sync effects share: load the source of [clip] when the
    element shows another one, otherwise seek only on a drift of more than
    0.3 s, and follow the play state. *)
Definition sync_source (clip : Clip) (currentTime : Q) (isPlaying : bool)
    (el : MediaElement) : MediaElement :=
  let t := targetSourceTime clip currentTime in
  if match data_src el with
     | Some s => String.eqb s (fileUrl clip)
     | None => false
     end
  then
    let time := if Qgtb (Qabs (el_currentTime el - t)) (3 # 10) then t
                else el_currentTime el in
    let p := if isPlaying && paused el then false
             else if negb isPlaying && negb (paused el) then true
             else paused el in
    mkElement (src el) (data_src el) time p (muted el) (el_volume el)
  else
    mkElement (Some (fileUrl clip)) (Some (fileUrl clip)) t
              (if isPlaying then false else true) (muted el) (el_volume el).

(** Video Sync Logic *)
Definition syncVideo (top : option Clip) (currentTime : Q) (isPlaying : bool)
    (vid : MediaElement) : MediaElement :=
  match top with
  | Some clip =>
      let v := sync_source clip currentTime isPlaying vid in
      mkElement (src v) (data_src v) (el_currentTime v) (paused v)
                (isMuted clip) (el_volume v)
  | None =>
      if match data_src vid with
         | Some s => negb (String.eqb s "")
         | None => false
         end
      then mkElement None None (el_currentTime vid) true (muted vid) (el_volume vid)
      else mkElement (src vid) (data_src vid) (el_currentTime vid) true
                     (muted vid) (el_volume vid)
  end.

(** [audioRefs]: a [Map] from clip id to audio element, in insertion order. *)
Definition AudioPool : Type := list (string * MediaElement).

Definition pool_has (pool : AudioPool) (i : string) : bool :=
  existsb (fun e => String.eqb (fst e) i) pool.

Definition pool_get (pool : AudioPool) (i : string) : option MediaElement :=
  option_map snd (find (fun e => String.eqb (fst e) i) pool).

Fixpoint pool_set (pool : AudioPool) (i : string) (el : MediaElement) : AudioPool :=
  match pool with
  | [] => [(i, el)]
  | (j, old) :: rest =>
      if String.eqb j i then (j, el) :: rest else (j, old) :: pool_set rest i el
  end.

(** Audio Pool Management: drop the elements of clips that left the active
    set, then create one for each active clip that has none. *)
Definition manageAudioPool (activeAudio : list Clip) (pool : AudioPool) : AudioPool :=
  let requiredIds := map id activeAudio in
  let kept := filter (fun e => existsb (String.eqb (fst e)) requiredIds) pool in
  fold_left (fun p clip => if pool_has p (id clip) then p
                           else pool_set p (id clip) new_element)
            activeAudio kept.

(** Sync Audio Pool *)
Definition syncAudioClip (currentTime : Q) (isPlaying : bool)
    (pool : AudioPool) (clip : Clip) : AudioPool :=
  match pool_get pool (id clip) with
  | None => pool
  | Some aud =>
      let a := sync_source clip currentTime isPlaying aud in
      pool_set pool (id clip)
        (mkElement (src a) (data_src a) (el_currentTime a) (paused a)
                   (muted a) (volume clip))
  end.

Definition syncAudio (activeAudio : list Clip) (currentTime : Q)
    (isPlaying : bool) (pool : AudioPool) : AudioPool :=
  fold_left (syncAudioClip currentTime isPlaying) activeAudio pool.

(** The elements the component owns, and one pass of its three effects for
    the props [clips], [currentTime], [isPlaying]. *)
Record Elements : Type := mkElements {
  videoRef : MediaElement;
  audioRefs : AudioPool
}.

Definition run_effects (clips : list Clip) (currentTime : Q) (isPlaying : bool)
    (els : Elements) : Elements :=
  let activeAudio := activeAudioClips clips currentTime in
  mkElements
    (syncVideo (topVideoClip clips currentTime) currentTime isPlaying (videoRef els))
    (syncAudio activeAudio currentTime isPlaying
       (manageAudioPool activeAudio (audioRefs els))).

(** The component as mounted: a [<video>] element and an empty pool; then
    one pass of the effects for each render. *)
Definition mounted : Elements := mkElements new_element [].

Record Props : Type := mkProps {
  props_clips : list Clip;
  props_currentTime : Q;
  props_isPlaying : bool
}.

Definition renders (history : list Props) : Elements :=
  fold_left (fun els p =>
               run_effects (props_clips p) (props_currentTime p)
                           (props_isPlaying p) els)
            history mounted.

(** Main Clock: [onTimeUpdate(currentTime + 0.1)] every 100 ms while
    playing; here the step is the rational 1/10, in [Double.clock_tick] the
    double 0.1. *)
Definition clock_tick (isPlaying : bool) (currentTime : Q) : Q :=
  if isPlaying then currentTime + (1 # 10) else currentTime.

End Player.

(** ** The [App] component: the clip store and the click actions *)

Module App.

(** The four [useState] cells the timeline core uses. *)
Record State : Type := mkState {
  clips : list Clip;
  currentTime : Q;
  isPlaying : bool;
  selectedClipId : option string
}.

Definition initial : State := mkState [] 0 false None.

Definition setClips (f : list Clip -> list Clip) (s : State) : State :=
  mkState (f (clips s)) (currentTime s) (isPlaying s) (selectedClipId s).

Definition setCurrentTime (t : Q) (s : State) : State :=
  mkState (clips s) t (isPlaying s) (selectedClipId s).

Definition setSelectedClipId (i : option string) (s : State) : State :=
  mkState (clips s) (currentTime s) (isPlaying s) i.

(** A handler is created by a render and closes over the state of that
    render ([render] below: [currentTime], [selectedClip], ... are constants
    of the closure); the setters it calls act on the state at the time it
    runs ([prev] below, the argument of the functional updates). *)
Definition Handler : Type := State -> State -> State.

(** A click is handled by the handler of the latest render, at once: the
    state of its closure is the state it updates. *)
Definition click (h : Handler) (s : State) : State := h s s.

(** [const selectedClip = clips.find(c => c.id === selectedClipId)] *)
Definition selectedClip (render : State) : option Clip :=
  find_by_id (selectedClipId render) (clips render).

(** The file chosen in the import dialog. *)
Record File : Type := mkFile {
  file_name : string;
  file_type : string
}.

(** [videoElement.onloadedmetadata], set by [handleFileUpload]: it runs when
    the browser has read the metadata of the file, with the duration it
    found. *)
Definition onloadedmetadata (file : File) (url : string)
    (videoElement_duration : Q) (uuid : string) : Handler :=
  fun render prev =>
    let type := if String.prefix "audio" (file_type file) then audio else video in
    let newClip :=
      mkClip uuid url type (file_name file) videoElement_duration
             (currentTime render) 0%Z 0 videoElement_duration 1 false None in
    setCurrentTime (currentTime render + videoElement_duration)
      (setClips (fun prev => prev ++ [newClip]) prev).

(** [handleFileUpload]: nothing happens without a file; with one, the
    import is pending until the metadata is loaded. *)
Definition handleFileUpload (file : option File) (url : string) (render : State)
    : option (Q -> string -> State -> State) :=
  match file with
  | None => None
  | Some f => Some (fun d uuid prev => onloadedmetadata f url d uuid render prev)
  end.

(** [selectedClipId] is tested for truthiness: neither [null] nor empty. *)
Definition handleDeleteClip : Handler :=
  fun render prev =>
    match selectedClipId render with
    | Some i =>
        if String.eqb i "" then prev
        else setSelectedClipId None
               (setClips (filter (fun c => negb (String.eqb (id c) i))) prev)
    | None => prev
    end.

Definition handleUpdateClip (i : string) (updates : Partial_Clip) : Handler :=
  fun _ prev => setClips (map_by_id i (fun c => spread c updates)) prev.

Definition handleSplit (uuid : string) : Handler :=
  fun render prev =>
    match selectedClip render with
    | None => prev
    | Some selectedClip =>
        let clipDuration := trimEnd selectedClip - trimStart selectedClip in
        let clipEndTime := startOffset selectedClip + clipDuration in
        if Qgtb (currentTime render) (startOffset selectedClip)
           && Qltb (currentTime render) clipEndTime
        then
          let splitPointRelative := currentTime render - startOffset selectedClip in
          let splitPointSource := trimStart selectedClip + splitPointRelative in
          let firstHalf := spread selectedClip [trimEnd_is splitPointSource] in
          let secondHalf :=
            spread selectedClip
              [id_is uuid; startOffset_is (currentTime render);
               trimStart_is splitPointSource;
               trackIndex_is (trackIndex selectedClip)] in
          setSelectedClipId (Some (id secondHalf))
            (setClips (fun prev =>
                         map_by_id (id selectedClip) (fun _ => firstHalf) prev
                         ++ [secondHalf]) prev)
        else prev
    end.

Definition handleSeparateAudio (uuid : string) : Handler :=
  fun render prev =>
    match selectedClip render with
    | None => prev
    | Some selectedClip =>
        if negb (MediaType_eqb (type selectedClip) video) then prev
        else
          let updatedVideo := spread selectedClip [isMuted_is true] in
          let audioClip :=
            spread selectedClip
              [id_is uuid; type_is audio;
               name_is ("Audio from " ++ name selectedClip)%string;
               trackIndex_is 0%Z; isMuted_is false] in
          setClips (fun prev =>
                      map_by_id (id selectedClip) (fun _ => updatedVideo) prev
                      ++ [audioClip]) prev
    end.

Definition adjustTrim (startDelta endDelta : Q) : Handler :=
  fun render prev =>
    match selectedClip render with
    | None => prev
    | Some selectedClip =>
        let newTrimStart := Qmax 0 (trimStart selectedClip + startDelta) in
        let newTrimEnd := Qmin (duration selectedClip) (trimEnd selectedClip + endDelta) in
        if Qltb newTrimStart newTrimEnd then
          setClips (map_by_id (id selectedClip)
                      (fun c => spread c [trimStart_is newTrimStart;
                                          trimEnd_is newTrimEnd])) prev
        else prev
    end.

(** [onTimeUpdate={setCurrentTime}], driven by the clock of the player. *)
Definition tick (s : State) : State :=
  setCurrentTime (Player.clock_tick (isPlaying s) (currentTime s)) s.

Definition setIsPlaying (b : bool) (s : State) : State :=
  mkState (clips s) (currentTime s) b (selectedClipId s).

(** [clips.reduce((acc, clip) => Math.max(acc, clip.startOffset +
    (clip.trimEnd - clip.trimStart)), 0)] *)
Definition totalDuration (clips : list Clip) : Q :=
  fold_left (fun acc clip =>
               Qmax acc (startOffset clip + (trimEnd clip - trimStart clip)))
            clips 0.

Definition togglePlay : Handler :=
  fun render prev => setIsPlaying (negb (isPlaying render)) prev.

(** The two transport buttons: [setCurrentTime(0)] and
    [setCurrentTime(totalDuration)]. *)
Definition seekToStart : Handler :=
  fun _ prev => setCurrentTime 0 prev.

Definition seekToEnd : Handler :=
  fun render prev => setCurrentTime (totalDuration (clips render)) prev.

(** *** The generation dialog *)

(** [aiMode]: ['video' | 'audio']. *)
Inductive GenerationType : Type := gen_video | gen_audio.

Definition generated_type (m : GenerationType) : MediaType :=
  match m with gen_video => video | gen_audio => audio end.

Record Modal : Type := mkModal {
  isAIModalOpen : bool;
  aiPrompt : string;
  aiMode : GenerationType;
  isGenerating : bool
}.

(** The store together with the cells of the dialog. *)
Record Session : Type := mkSession {
  store : State;
  modal : Modal
}.

Definition setIsGenerating (b : bool) (s : Session) : Session :=
  mkSession (store s)
    (mkModal (isAIModalOpen (modal s)) (aiPrompt (modal s)) (aiMode (modal s)) b).

(** What the awaited part of [handleAIGenerate] ends with: an exception of
    [ensureApiKey] or of the generation, or the url the generation returns. *)
Inductive Generation : Type :=
| Threw
| Returned (url : option string).

(** [handleAIGenerate] up to its first [await]: nothing without a prompt,
    otherwise [setIsGenerating(true)]. *)
Definition handleAIGenerate_begin (render prev : Session) : option Session :=
  if String.eqb (aiPrompt (modal render)) "" then None
  else Some (setIsGenerating true prev).

(** [handleAIGenerate] after the awaits: the [catch] clears [isGenerating];
    a url that is [null] or empty leaves everything as it is; any other url
    arms the metadata callback and, for audio, the one-second fallback (the
    boolean result). *)
Definition handleAIGenerate_settle (outcome : Generation) (render prev : Session)
    : Session * option (string * bool) :=
  match outcome with
  | Threw => (setIsGenerating false prev, None)
  | Returned None => (prev, None)
  | Returned (Some url) =>
      if String.eqb url "" then (prev, None)
      else (prev, Some (url, match aiMode (modal render) with
                              | gen_audio => true
                              | gen_video => false
                              end))
  end.

(** The clip both callbacks build, for the duration they settle on. *)
Definition generatedClip (render : Session) (url uuid : string) (d : Q) : Clip :=
  mkClip uuid url (generated_type (aiMode (modal render)))
         ("AI Generated " ++ match aiMode (modal render) with
                             | gen_video => "Video"
                             | gen_audio => "Audio"
                             end)%string
         d (currentTime (store render)) 0%Z 0 d 1 false None.

(** [setClips(prev => [...prev, newClip]); setIsAIModalOpen(false);
    setAiPrompt(''); setIsGenerating(false)] *)
Definition addGenerated (newClip : Clip) (prev : Session) : Session :=
  mkSession (setClips (fun prev => prev ++ [newClip]) (store prev))
            (mkModal false "" (aiMode (modal prev)) false).

(** [tempEl.onloadedmetadata]: the duration is [tempEl.duration || 5]. *)
Definition generated_onloadedmetadata (url uuid : string) (tempEl_duration : Q)
    (render prev : Session) : Session :=
  let d := if Qeq_bool tempEl_duration 0 then 5 else tempEl_duration in
  addGenerated (generatedClip render url uuid d) prev.

(** The fallback of the audio mode, one second later: when the element has
    loaded nothing ([readyState === 0]) a clip of 10 s is added. *)
Definition generated_timeout (url uuid : string) (readyState : Z)
    (render prev : Session) : Session :=
  if (readyState =? 0)%Z then addGenerated (generatedClip render url uuid 10) prev
  else prev.

End App.

(** ** The [Timeline] component: drag sessions *)

Module Timeline.

Definition PIXELS_PER_SECOND : Q := 20.
Definition TRACK_HEIGHT : Q := 64.
Definition TRACK_GAP : Q := 8.

Inductive Mode : Type := move | resize_left | resize_right.

Record DragState : Type := mkDrag {
  clipId : string;
  startX : Q;
  startY : Q;
  mode : Mode;
  initialStartOffset : Q;
  initialTrimStart : Q;
  initialTrimEnd : Q;
  initialTrackIndex : Z;
  currentStartOffset : Q;
  currentTrimStart : Q;
  currentTrimEnd : Q;
  currentTrackIndex : Z
}.

Record MouseEvent : Type := mkMouse {
  clientX : Q;
  clientY : Q
}.

(** [Math.round]: the nearest integer, a half going up. *)
Definition Math_round (x : Q) : Z := Qfloor (x + (1 # 2)).

(** [startMove], [startResizeLeft], [startResizeRight]: the three differ in
    the mode only.  Each also selects the clip. *)
Definition start (m : Mode) (clip : Clip) (e : MouseEvent) : DragState :=
  mkDrag (id clip) (clientX e) (clientY e) m
         (startOffset clip) (trimStart clip) (trimEnd clip) (trackIndex clip)
         (startOffset clip) (trimStart clip) (trimEnd clip) (trackIndex clip).

Definition startMove := start move.
Definition startResizeLeft := start resize_left.
Definition startResizeRight := start resize_right.

(** [handleMouseMove]: [dragState] and [activeClip] are those of the effect
    that installed the listener, [prev] is the argument of the functional
    update. *)
Definition handleMouseMove (activeClip : Clip) (dragState : DragState)
    (e : MouseEvent) (prev : option DragState) : option DragState :=
  let deltaPixelsX := clientX e - startX dragState in
  let deltaSeconds := deltaPixelsX / PIXELS_PER_SECOND in
  let deltaPixelsY := clientY e - startY dragState in
  let tracksJump := Math_round (deltaPixelsY / (TRACK_HEIGHT + TRACK_GAP)) in
  match prev with
  | None => None
  | Some prev =>
      Some
        match mode prev with
        | move =>
            let newOffset := Qmax 0 (initialStartOffset prev + deltaSeconds) in
            let newTrackIndex := (initialTrackIndex prev + tracksJump)%Z in
            let newTrackIndex := Z.max 0 (Z.min newTrackIndex 2) in
            mkDrag (clipId prev) (startX prev) (startY prev) (mode prev)
                   (initialStartOffset prev) (initialTrimStart prev)
                   (initialTrimEnd prev) (initialTrackIndex prev)
                   newOffset (currentTrimStart prev) (currentTrimEnd prev)
                   newTrackIndex
        | resize_left =>
            let newTrimStart := initialTrimStart prev + deltaSeconds in
            let minDuration := 1 # 2 in
            let newTrimStart :=
              Qmax 0 (Qmin newTrimStart (initialTrimEnd prev - minDuration)) in
            let actualDelta := newTrimStart - initialTrimStart prev in
            mkDrag (clipId prev) (startX prev) (startY prev) (mode prev)
                   (initialStartOffset prev) (initialTrimStart prev)
                   (initialTrimEnd prev) (initialTrackIndex prev)
                   (initialStartOffset prev + actualDelta) newTrimStart
                   (currentTrimEnd prev) (currentTrackIndex prev)
        | resize_right =>
            let newTrimEnd := initialTrimEnd prev + deltaSeconds in
            let minDuration := 1 # 2 in
            let newTrimEnd :=
              Qmax (initialTrimStart prev + minDuration)
                   (Qmin newTrimEnd (duration activeClip)) in
            mkDrag (clipId prev) (startX prev) (startY prev) (mode prev)
                   (initialStartOffset prev) (initialTrimStart prev)
                   (initialTrimEnd prev) (initialTrackIndex prev)
                   (currentStartOffset prev) (currentTrimStart prev)
                   newTrimEnd (currentTrackIndex prev)
        end
  end.

(** [handleMouseUp]: the arguments of [onUpdateClip]. *)
Definition handleMouseUp (dragState : DragState) : string * Partial_Clip :=
  let updates :=
    match mode dragState with
    | move => [startOffset_is (currentStartOffset dragState);
               trackIndex_is (currentTrackIndex dragState)]
    | resize_left => [trimStart_is (currentTrimStart dragState);
                      startOffset_is (currentStartOffset dragState)]
    | resize_right => [trimEnd_is (currentTrimEnd dragState)]
    end in
  (clipId dragState, updates).

(** *** Scrubbing *)

(** What [updateScrubPosition] reads of the scroll container. *)
Record Container : Type := mkContainer {
  rect_left : Q;
  scrollLeft : Q
}.

(** [updateScrubPosition]: the time handed to [onSeek], when the ref holds
    the container. *)
Definition updateScrubPosition (scrollContainerRef : option Container)
    (clientX : Q) : option Q :=
  match scrollContainerRef with
  | None => None
  | Some c =>
      let x := clientX - rect_left c + scrollLeft c in
      let time := Qmax 0 (x / PIXELS_PER_SECOND) in
      Some time
  end.

(** [onSeek={setCurrentTime}] *)
Definition seek (scrollContainerRef : option Container) (clientX : Q)
    (s : App.State) : App.State :=
  match updateScrubPosition scrollContainerRef clientX with
  | Some time => App.setCurrentTime time s
  | None => s
  end.

(** The [isScrubbing] cell next to the state of [App]. *)
Record Scrubber : Type := mkScrubber {
  scrubbed : App.State;
  isScrubbing : bool
}.

Definition handleScrubStart (ref : option Container) (e : MouseEvent)
    (s : Scrubber) : Scrubber :=
  mkScrubber (seek ref (clientX e) (scrubbed s)) true.

(** The window listeners exist only while [isScrubbing]. *)
Definition handleScrubMove (ref : option Container) (e : MouseEvent)
    (s : Scrubber) : Scrubber :=
  if isScrubbing s then mkScrubber (seek ref (clientX e) (scrubbed s)) true
  else s.

Definition handleScrubUp (s : Scrubber) : Scrubber :=
  if isScrubbing s then mkScrubber (scrubbed s) false else s.


(** *** Rendering the clips *)

(** [dragState?.clipId === clip.id] *)
Definition isDragging (dragState : option DragState) (clip : Clip) : bool :=
  match dragState with
  | Some d => String.eqb (clipId d) (id clip)
  | None => false
  end.

(** The constants [ClipItem] computes for a clip. *)
Record ClipView : Type := mkClipView {
  view_startOffset : Q;
  view_trackIndex : Z;
  view_trimStart : Q;
  view_trimEnd : Q;
  view_width : Q;
  view_left : Q;
  view_isSelected : bool
}.

Definition ClipItem (dragState : option DragState)
    (selectedClipId : option string) (clip : Clip) : ClipView :=
  let live (f : DragState -> Q) (committed : Q) : Q :=
    match dragState with
    | Some d => if String.eqb (clipId d) (id clip) then f d else committed
    | None => committed
    end in
  let startOffset := live currentStartOffset (startOffset clip) in
  let trackIndex :=
    match dragState with
    | Some d =>
        if String.eqb (clipId d) (id clip) then
          match mode d with
          | move => currentTrackIndex d
          | _ => trackIndex clip
          end
        else trackIndex clip
    | None => trackIndex clip
    end in
  let trimStart := live currentTrimStart (trimStart clip) in
  let trimEnd := live currentTrimEnd (trimEnd clip) in
  let duration := trimEnd - trimStart in
  let width := duration * PIXELS_PER_SECOND in
  let left := startOffset * PIXELS_PER_SECOND in
  let isSelected :=
    match selectedClipId with
    | Some i => String.eqb i (id clip)
    | None => false
    end in
  mkClipView startOffset trackIndex trimStart trimEnd width left isSelected.

(** [renderTracks(type)]: the clips of each of the three lanes; the
    argument [type] is [wanted] here. *)
Definition filteredTrackClips (dragState : option DragState) (clips : list Clip)
    (wanted : MediaType) (trackIdx : Z) : list Clip :=
  let trackClips :=
    filter (fun c =>
              if isDragging dragState c then
                match dragState with
                | Some d =>
                    match mode d with
                    | move => (currentTrackIndex d =? trackIdx)%Z
                    | _ => (trackIndex c =? trackIdx)%Z
                    end
                | None => (trackIndex c =? trackIdx)%Z
                end
              else MediaType_eqb (type c) wanted
                   && (trackIndex c =? trackIdx)%Z)
           clips in
  filter (fun c => MediaType_eqb (type c) wanted) trackClips.

Definition renderTracks (dragState : option DragState) (clips : list Clip)
    (wanted : MediaType) : list (Z * list Clip) :=
  map (fun trackIdx => (trackIdx, filteredTrackClips dragState clips wanted trackIdx))
      [0; 1; 2]%Z.

(** The editor: the state of [App] and the [dragState] cell of [Timeline]. *)
Record Editor : Type := mkEditor {
  app : App.State;
  dragState : option DragState
}.

(** Pointer down on a clip body or on one of its edge handles. *)
Definition mousedown (m : Mode) (clip : Clip) (e : MouseEvent) (ed : Editor) : Editor :=
  mkEditor (App.setSelectedClipId (Some (id clip)) (app ed))
           (Some (start m clip e)).

(** The listeners exist only while a drag is on and its clip is in the
    store: [if (!dragState) return; ... if (!activeClip) return;]. *)
Definition mousemove (e : MouseEvent) (ed : Editor) : Editor :=
  match dragState ed with
  | None => ed
  | Some d =>
      match find_by_id (Some (clipId d)) (App.clips (app ed)) with
      | None => ed
      | Some activeClip =>
          mkEditor (app ed) (handleMouseMove activeClip d e (dragState ed))
      end
  end.

Definition mouseup (ed : Editor) : Editor :=
  match dragState ed with
  | None => ed
  | Some d =>
      match find_by_id (Some (clipId d)) (App.clips (app ed)) with
      | None => ed
      | Some _ =>
          let '(i, updates) := handleMouseUp d in
          mkEditor (App.click (App.handleUpdateClip i updates) (app ed)) None
      end
  end.

(** A drag on [clip] in progress: pointer down, then any number of moves. *)
Definition dragging (m : Mode) (clip : Clip) (down : MouseEvent)
    (moves : list MouseEvent) (ed : Editor) : Editor :=
  fold_left (fun s e => mousemove e s) moves (mousedown m clip down ed).

(** A whole gesture: the drag, then the release that commits it. *)
Definition gesture (m : Mode) (clip : Clip) (down : MouseEvent)
    (moves : list MouseEvent) (ed : Editor) : Editor :=
  mouseup (dragging m clip down moves ed).

End Timeline.


(** ** [geminiService]: the WAV encoder *)

Module GeminiService.

(** An [ArrayBuffer] seen through a [DataView]: its length and its bytes.
    It is created filled with zeros. *)
Record DataView : Type := mkDataView {
  byteLength : nat;
  getUint8 : nat -> Z
}.

Definition new_ArrayBuffer (n : nat) : DataView :=
  mkDataView n (fun _ => 0%Z).

Definition store_byte (view : DataView) (pos : nat) (x : Z) : DataView :=
  mkDataView (byteLength view)
             (fun i => if Nat.eqb i pos then (x mod 256)%Z else getUint8 view i).

(** [view.setUint16(pos, data, true)] and [view.setUint32(pos, data,
    true)]: the low byte first.  A write that does not fit in the buffer
    throws a [RangeError]: [None]. *)
Definition view_setUint16 (view : DataView) (pos : nat) (data : Z) : option DataView :=
  if (pos + 2 <=? byteLength view)%nat then
    Some (store_byte (store_byte view pos data) (pos + 1) (data / 256))
  else None.

Definition view_setUint32 (view : DataView) (pos : nat) (data : Z) : option DataView :=
  if (pos + 4 <=? byteLength view)%nat then
    Some (store_byte
            (store_byte
               (store_byte (store_byte view pos data) (pos + 1) (data / 256))
               (pos + 2) (data / 65536))
            (pos + 3) (data / 16777216))
  else None.

(** [view.setInt16(pos, value, true)]: the bytes of the two's complement. *)
Definition view_setInt16 (view : DataView) (pos : nat) (value : Z) : option DataView :=
  view_setUint16 view pos value.

(** The content of the buffer, as the [Blob] gets it. *)
Definition bytes (view : DataView) : list Z :=
  map (getUint8 view) (seq 0 (byteLength view)).

(** What the encoder reads of an [AudioBuffer]; [buf_length] is its
    [length], the number of sample frames. *)
Record AudioBuffer : Type := mkAudioBuffer {
  numberOfChannels : nat;
  buf_length : nat;
  sampleRate : Z;
  getChannelData : nat -> list Q
}.

(** The variables the encoder updates: the view, [pos] and [offset]. *)
Record Writer : Type := mkWriter {
  view : DataView;
  pos : nat;
  offset : nat
}.

Local Notation "x <- e ;; k" :=
  (match e with Some x => k | None => None end)
  (at level 60, e at next level, right associativity).

(** The local functions [setUint16] and [setUint32]: write at [pos] and
    advance it. *)
Definition setUint16 (data : Z) (w : Writer) : option Writer :=
  v <- view_setUint16 (view w) (pos w) data ;;
  Some (mkWriter v (pos w + 2) (offset w)).

Definition setUint32 (data : Z) (w : Writer) : option Writer :=
  v <- view_setUint32 (view w) (pos w) data ;;
  Some (mkWriter v (pos w + 4) (offset w)).

(** The header part of [audioBufferToWav]. *)
Definition write_header (numOfChan : nat) (sampleRate : Z) (length : nat)
    (w : Writer) : option Writer :=
  w <- setUint32 0x46464952 w ;;
  w <- setUint32 (Z.of_nat length - 8) w ;;
  w <- setUint32 0x45564157 w ;;
  w <- setUint32 0x20746d66 w ;;
  w <- setUint32 16 w ;;
  w <- setUint16 1 w ;;
  w <- setUint16 (Z.of_nat numOfChan) w ;;
  w <- setUint32 sampleRate w ;;
  w <- setUint32 (sampleRate * 2 * Z.of_nat numOfChan) w ;;
  w <- setUint16 (Z.of_nat numOfChan * 2) w ;;
  w <- setUint16 16 w ;;
  w <- setUint32 0x61746164 w ;;
  setUint32 (Z.of_nat length - Z.of_nat (pos w) - 4) w.

(** [Math.max(-1, Math.min(1, x))] *)
Definition clamp (x : Q) : Q := Qmax (-1) (Qmin 1 x).

(** [x | 0]: the integer part, wrapped to 32 bits. *)
Definition ToInt32 (x : Q) : Z :=
  ((Z.quot (Qnum x) (Z.pos (Qden x)) + 2147483648) mod 4294967296 - 2147483648)%Z.

(** [(0.5 + sample < 0 ? sample * 32768 : sample * 32767) | 0] *)
Definition to16bit (sample : Q) : Z :=
  ToInt32 (if Qltb ((1 # 2) + sample) 0 then sample * 32768 else sample * 32767).

(** The body of the inner loop, for the channel [i]; a sample that is not
    there reads as [undefined] and ends as 0. *)
Definition write_sample (channels : list (list Q)) (i : nat) (w : Writer)
    : option Writer :=
  let sample := clamp (nth (pos w) (nth i channels []) 0) in
  let sample := to16bit sample in
  v <- view_setInt16 (view w) (44 + offset w) sample ;;
  Some (mkWriter v (pos w) (offset w + 2)).

(** [for (i = 0; i < numOfChan; i++)], over the channel numbers. *)
Fixpoint for_channels (channels : list (list Q)) (numbers : list nat) (w : Writer)
    : option Writer :=
  match numbers with
  | [] => Some w
  | i :: rest => w' <- write_sample channels i w ;; for_channels channels rest w'
  end.

(** [while (pos < buffer.length)]: each round increases [pos], so
    [buffer.length] rounds are enough; running out of rounds is [None]. *)
Fixpoint while_frames (rounds : nat) (buffer : AudioBuffer)
    (channels : list (list Q)) (w : Writer) : option Writer :=
  match rounds with
  | O => if (pos w <? buf_length buffer)%nat then None else Some w
  | S rounds' =>
      if (pos w <? buf_length buffer)%nat then
        w' <- for_channels channels (seq 0 (numberOfChannels buffer)) w ;;
        while_frames rounds' buffer channels
                     (mkWriter (view w') (pos w' + 1) (offset w'))
      else Some w
  end.

(** [audioBufferToWav]: the bytes of the [Blob] it resolves with. *)
Definition audioBufferToWav (buffer : AudioBuffer) : option (list Z) :=
  let numOfChan := numberOfChannels buffer in
  let length := (buf_length buffer * numOfChan * 2 + 44)%nat in
  let w := mkWriter (new_ArrayBuffer length) 0 0 in
  w <- write_header numOfChan (sampleRate buffer) length w ;;
  let channels := map (getChannelData buffer) (seq 0 (numberOfChannels buffer)) in
  w <- while_frames (buf_length buffer) buffer channels w ;;
  Some (bytes (view w)).

(** Reading the bytes of a file: a signed 16-bit and an unsigned 32-bit
    number, the low byte first. *)
Definition int16_at (file : list Z) (pos : nat) : Z :=
  let u := (nth pos file 0 + 256 * nth (pos + 1) file 0)%Z in
  if (u <? 32768)%Z then u else (u - 65536)%Z.

Definition uint32_at (file : list Z) (pos : nat) : Z :=
  (nth pos file 0 + 256 * nth (pos + 1) file 0
   + 65536 * nth (pos + 2) file 0 + 16777216 * nth (pos + 3) file 0)%Z.

Definition uint16_at (file : list Z) (pos : nat) : Z :=
  (nth pos file 0 + 256 * nth (pos + 1) file 0)%Z.

End GeminiService.

(** ** The mutations of the clip store

    The edits a user makes to clips that are in the store: a drag in one of
    the three modes with its commit, and the three click actions on the
    selected clip. *)

Inductive Mutation : Type :=
| DragCommit (m : Timeline.Mode) (clip : Clip) (down : Timeline.MouseEvent)
             (moves : list Timeline.MouseEvent)
| Split (uuid : string)
| TrimAdjust (startDelta endDelta : Q)
| SeparateAudio (uuid : string).

Definition in_app (h : App.Handler) (ed : Timeline.Editor) : Timeline.Editor :=
  Timeline.mkEditor (App.click h (Timeline.app ed)) (Timeline.dragState ed).

Definition mutate (op : Mutation) (ed : Timeline.Editor) : Timeline.Editor :=
  match op with
  | DragCommit m clip down moves => Timeline.gesture m clip down moves ed
  | Split uuid => in_app (App.handleSplit uuid) ed
  | TrimAdjust startDelta endDelta => in_app (App.adjustTrim startDelta endDelta) ed
  | SeparateAudio uuid => in_app (App.handleSeparateAudio uuid) ed
  end.

(** The timeline renders the clips of the store: a drag starts on one of
    them. *)
Definition possible (op : Mutation) (ed : Timeline.Editor) : Prop :=
  match op with
  | DragCommit _ clip _ _ => In clip (App.clips (Timeline.app ed))
  | _ => True
  end.

(** ** Sessions of the editor

    Everything that changes the store or the cursor, as the events of one
    session.  A drag is taken as a whole, from pointer down to release.  The
    callbacks that complete an import or a generation carry the state their
    closure was created in ([rendered]). *)

Inductive Action : Type :=
| Edit (op : Mutation)
| Delete
| ImportDone (file : App.File) (url : string) (rendered : App.State)
             (videoElement_duration : Q) (uuid : string)
| SetDialogOpen (open : bool)
| SetPrompt (prompt : string)
| SetMode (m : App.GenerationType)
| GenerateBegin
| GenerateSettle (outcome : App.Generation) (rendered : App.Session)
| GenerationDone (url uuid : string) (tempEl_duration : Q) (rendered : App.Session)
| GenerationTimeout (url uuid : string) (readyState : Z) (rendered : App.Session)
| Tick
| TogglePlay
| SeekToStart
| SeekToEnd
| Scrub (ref : option Timeline.Container) (clientX : Q).

Definition initial_session : App.Session :=
  App.mkSession App.initial (App.mkModal false "" App.gen_video false).

Definition step (a : Action) (s : App.Session) : App.Session :=
  let on_store (f : App.State -> App.State) :=
    App.mkSession (f (App.store s)) (App.modal s) in
  let on_modal (f : App.Modal -> App.Modal) :=
    App.mkSession (App.store s) (f (App.modal s)) in
  match a with
  | Edit op =>
      on_store (fun st => Timeline.app (mutate op (Timeline.mkEditor st None)))
  | Delete => on_store (App.click App.handleDeleteClip)
  | ImportDone file url rendered d uuid =>
      on_store (App.onloadedmetadata file url d uuid rendered)
  | SetDialogOpen open =>
      on_modal (fun m => App.mkModal open (App.aiPrompt m) (App.aiMode m)
                                     (App.isGenerating m))
  | SetPrompt prompt =>
      on_modal (fun m => App.mkModal (App.isAIModalOpen m) prompt (App.aiMode m)
                                     (App.isGenerating m))
  | SetMode mode =>
      on_modal (fun m => App.mkModal (App.isAIModalOpen m) (App.aiPrompt m) mode
                                     (App.isGenerating m))
  | GenerateBegin =>
      match App.handleAIGenerate_begin s s with
      | Some s' => s'
      | None => s
      end
  | GenerateSettle outcome rendered =>
      fst (App.handleAIGenerate_settle outcome rendered s)
  | GenerationDone url uuid d rendered =>
      App.generated_onloadedmetadata url uuid d rendered s
  | GenerationTimeout url uuid readyState rendered =>
      App.generated_timeout url uuid readyState rendered s
  | Tick => on_store App.tick
  | TogglePlay => on_store (App.click App.togglePlay)
  | SeekToStart => on_store (App.click App.seekToStart)
  | SeekToEnd => on_store (App.click App.seekToEnd)
  | Scrub ref clientX => on_store (Timeline.seek ref clientX)
  end.

(** The states of a session, the latest first. *)
Definition now (history : list App.Session) : App.Session :=
  hd initial_session history.

Fixpoint trace_from (history : list App.Session) (actions : list Action)
    : list App.Session :=
  match actions with
  | [] => history
  | a :: rest => trace_from (step a (now history) :: history) rest
  end.

Definition trace (actions : list Action) : list App.Session :=
  trace_from [initial_session] actions.

(** The player is rendered with the store of every state of a session, in
    the order the states occur; [session_elements] is what its effects have
    made of the media elements by the end. *)
Definition props_of (s : App.Session) : Player.Props :=
  Player.mkProps (App.clips (App.store s)) (App.currentTime (App.store s))
                 (App.isPlaying (App.store s)).

Definition session_elements (actions : list Action) : Player.Elements :=
  Player.renders (map props_of (rev (trace actions))).

(** ** The same arithmetic in binary64

    The functions of [App], [Player] and [Timeline] whose outcome can depend
    on the rounding of a JavaScript [number], embedded over IEEE 754
    binary64 ([PrimFloat.float]): the clock, the two formulas of the
    resolver, the split, and the resize-left branch of a drag.  Every
    operation rounds as the code's does; the fields that are not numbers are
    as before. *)

Module Double.
Import PrimFloat.
Local Open Scope float_scope.
#[local] Set Warnings "-inexact-float".

(** [Math.max] and [Math.min] of two numbers: [NaN] when one of them is,
    and [-0] below [+0]. *)
Definition Math_max (x y : float) : float :=
  if is_nan x || is_nan y then nan
  else if x <? y then y
  else if y <? x then x
  else if get_sign x then y else x.

Definition Math_min (x y : float) : float :=
  if is_nan x || is_nan y then nan
  else if x <? y then x
  else if y <? x then y
  else if get_sign x then x else y.

Record Clip : Type := mkClip {
  id : string;
  fileUrl : string;
  type : MediaType;
  name : string;
  duration : float;
  startOffset : float;
  trackIndex : Z;
  trimStart : float;
  trimEnd : float;
  volume : float;
  isMuted : bool;
  thumbnail : option string
}.

(** [Player]: the test of both filters, and the source time. *)
Definition active (wanted : MediaType) (currentTime : float) (c : Clip) : bool :=
  MediaType_eqb (type c) wanted &&
  (startOffset c <=? currentTime) &&
  (currentTime <? startOffset c + (trimEnd c - trimStart c)).

Definition targetSourceTime (clip : Clip) (currentTime : float) : float :=
  let offsetInClip := currentTime - startOffset clip in
  trimStart clip + offsetInClip.

(** [Player], Main Clock: [onTimeUpdate(currentTime + 0.1)]. *)
Definition clock_tick (isPlaying : bool) (currentTime : float) : float :=
  if isPlaying then currentTime + 0.1 else currentTime.

(** [App]: the state and the handlers of a session that imports, trims,
    plays and splits.  As in [App], a handler takes the state its closure
    saw and the state it updates. *)
Record State : Type := mkState {
  clips : list Clip;
  currentTime : float;
  isPlaying : bool;
  selectedClipId : option string
}.

Definition initial : State := mkState [] 0 false None.

Definition Handler : Type := State -> State -> State.

Definition click (h : Handler) (s : State) : State := h s s.

Definition selectedClip (render : State) : option Clip :=
  match selectedClipId render with
  | None => None
  | Some i => find (fun c => String.eqb (id c) i) (clips render)
  end.

Definition onloadedmetadata (file : App.File) (url : string)
    (videoElement_duration : float) (uuid : string) : Handler :=
  fun render prev =>
    let type := if String.prefix "audio" (App.file_type file) then audio else video in
    let newClip :=
      mkClip uuid url type (App.file_name file) videoElement_duration
             (currentTime render) 0%Z 0 videoElement_duration 1 false None in
    mkState (clips prev ++ [newClip])
            (currentTime render + videoElement_duration)
            (isPlaying prev) (selectedClipId prev).

(** [onSelectClip={setSelectedClipId}], called by a pointer down on a clip;
    a release without a move commits the snapshot as it was taken. *)
Definition onSelectClip (i : string) (s : State) : State :=
  mkState (clips s) (currentTime s) (isPlaying s) (Some i).

Definition adjustTrim (startDelta endDelta : float) : Handler :=
  fun render prev =>
    match selectedClip render with
    | None => prev
    | Some selectedClip =>
        let newTrimStart := Math_max 0 (trimStart selectedClip + startDelta) in
        let newTrimEnd :=
          Math_min (duration selectedClip) (trimEnd selectedClip + endDelta) in
        if newTrimStart <? newTrimEnd then
          mkState
            (map (fun c =>
                    if String.eqb (id c) (id selectedClip) then
                      mkClip (id c) (fileUrl c) (type c) (name c) (duration c)
                             (startOffset c) (trackIndex c)
                             newTrimStart newTrimEnd
                             (volume c) (isMuted c) (thumbnail c)
                    else c)
                 (clips prev))
            (currentTime prev) (isPlaying prev) (selectedClipId prev)
        else prev
    end.

Definition seekToStart : Handler :=
  fun _ prev => mkState (clips prev) 0 (isPlaying prev) (selectedClipId prev).

Definition togglePlay : Handler :=
  fun render prev =>
    mkState (clips prev) (currentTime prev) (negb (isPlaying render))
            (selectedClipId prev).

Definition tick (s : State) : State :=
  mkState (clips s) (clock_tick (isPlaying s) (currentTime s)) (isPlaying s)
          (selectedClipId s).

Definition handleSplit (uuid : string) : Handler :=
  fun render prev =>
    match selectedClip render with
    | None => prev
    | Some selectedClip =>
        let clipDuration := trimEnd selectedClip - trimStart selectedClip in
        let clipEndTime := startOffset selectedClip + clipDuration in
        if (startOffset selectedClip <? currentTime render)
           && (currentTime render <? clipEndTime)
        then
          let splitPointRelative := currentTime render - startOffset selectedClip in
          let splitPointSource := trimStart selectedClip + splitPointRelative in
          let firstHalf :=
            mkClip (id selectedClip) (fileUrl selectedClip) (type selectedClip)
                   (name selectedClip) (duration selectedClip)
                   (startOffset selectedClip) (trackIndex selectedClip)
                   (trimStart selectedClip) splitPointSource
                   (volume selectedClip) (isMuted selectedClip)
                   (thumbnail selectedClip) in
          let secondHalf :=
            mkClip uuid (fileUrl selectedClip) (type selectedClip)
                   (name selectedClip) (duration selectedClip)
                   (currentTime render) (trackIndex selectedClip)
                   splitPointSource (trimEnd selectedClip)
                   (volume selectedClip) (isMuted selectedClip)
                   (thumbnail selectedClip) in
          mkState (map (fun c => if String.eqb (id c) (id selectedClip)
                                 then firstHalf else c) (clips prev)
                   ++ [secondHalf])
                  (currentTime prev) (isPlaying prev) (Some (id secondHalf))
        else prev
    end.

(** [Timeline]: the numbers of the drag state that the resize-left branch
    of [handleMouseMove] reads and writes, [startResizeLeft], and that
    branch. *)
Definition PIXELS_PER_SECOND : float := 20.

Record DragState : Type := mkDrag {
  startX : float;
  initialStartOffset : float;
  initialTrimStart : float;
  initialTrimEnd : float;
  currentStartOffset : float;
  currentTrimStart : float
}.

Definition startResizeLeft (clip : Clip) (clientX : float) : DragState :=
  mkDrag clientX (startOffset clip) (trimStart clip) (trimEnd clip)
         (startOffset clip) (trimStart clip).

Definition resize_left (clientX : float) (prev : DragState) : DragState :=
  let deltaPixelsX := clientX - startX prev in
  let deltaSeconds := deltaPixelsX / PIXELS_PER_SECOND in
  let newTrimStart := initialTrimStart prev + deltaSeconds in
  let minDuration := 0.5 in
  let newTrimStart :=
    Math_max 0 (Math_min newTrimStart (initialTrimEnd prev - minDuration)) in
  let actualDelta := newTrimStart - initialTrimStart prev in
  mkDrag (startX prev) (initialStartOffset prev) (initialTrimStart prev)
         (initialTrimEnd prev)
         (initialStartOffset prev + actualDelta) newTrimStart.

(** What the statements below speak of: a trim of positive length, the end
    of a clip on the timeline, and the range a resize starts from. *)
Definition trim_positive (c : Clip) : bool := trimStart c <? trimEnd c.

Definition right_edge (start trimStart trimEnd : float) : float :=
  start + (trimEnd - trimStart).

Definition valid_snapshot (trimStart trimEnd duration : float) : bool :=
  (0 <=? trimStart) && (trimStart + 0.5 <=? trimEnd) && (trimEnd <=? duration).

(** *** Sample sessions *)

(** A 3 s file and then a 20 s file are imported, which leaves the second
    clip at 3 s; it is selected and its start is trimmed sixteen times by
    1 s; then the editor plays from 0 s for thirty ticks. *)
Definition twoImports : State :=
  click (onloadedmetadata (App.mkFile "holiday.mp4" "video/mp4") "blob:h" 20 "h")
    (click (onloadedmetadata (App.mkFile "intro.mp4" "video/mp4") "blob:a" 3 "a")
       initial).

Definition trimmedToLastFour : State :=
  Nat.iter 16 (click (adjustTrim 1 0)) (onSelectClip "h" twoImports).

Definition playedThirtyTicks : State :=
  Nat.iter 30 tick (click togglePlay (click seekToStart trimmedToLastFour)).

(** A 2 s file is imported at 0 s, selected, its start trimmed by 1 s, and
    the editor plays from 0 s for ten ticks. *)
Definition secondHalfOfTwo : State :=
  click (adjustTrim 1 0)
    (onSelectClip "b"
       (click (onloadedmetadata (App.mkFile "b.mp4" "video/mp4") "blob:b" 2 "b")
          initial)).

Definition playedTenTicks : State :=
  Nat.iter 10 tick (click togglePlay (click seekToStart secondHalfOfTwo)).

(** The editor plays one tick, a 10 s file is imported, and the left edge
    of its clip is dragged 4 px to the right. *)
Definition importedAfterOneTick : State :=
  click (onloadedmetadata (App.mkFile "holiday.mp4" "video/mp4") "blob:h" 10 "h")
    (tick (click togglePlay initial)).

Definition clipAtTick : Clip :=
  mkClip "h" "blob:h" video "holiday.mp4" 10 0.1 0%Z 0 10 1 false None.

Definition draggedFourPixels : DragState :=
  resize_left 4 (startResizeLeft clipAtTick 0).

End Double.

(** ** Predicates on stores, pools and drags *)

Definition unique_ids (clips : list Clip) : Prop := NoDup (map id clips).


(** The state of a drag in progress: the clips of the store are untouched,
    the dragged clip is selected, and the drag state is the snapshot itself
    or what a move event computes from the snapshot. *)
Definition drag_in_progress (m : Timeline.Mode) (clip : Clip)
    (down : Timeline.MouseEvent) (ed s : Timeline.Editor) : Prop :=
  let d0 := Timeline.start m clip down in
  Timeline.app s = App.setSelectedClipId (Some (id clip)) (Timeline.app ed) /\
  (Timeline.dragState s = Some d0 \/
   exists a e,
     find_by_id (Some (id clip)) (App.clips (Timeline.app ed)) = Some a /\
     Timeline.dragState s = Timeline.handleMouseMove a d0 e (Some d0)).

(** The range a resize must keep the trim in: inside the source, and at
    least [minDuration] long. *)
Definition trim_in_bounds (trimStart trimEnd duration : Q) : Prop :=
  0 <= trimStart /\ trimStart + (1 # 2) <= trimEnd /\ trimEnd <= duration.

(** The trim of a clip starts inside the source and has a positive length. *)
Definition trim_ok (c : Clip) : Prop :=
  0 <= trimStart c /\ trimStart c < trimEnd c.

(** ** Which sessions can happen *)

Definition fresh (uuid : string) (s : App.Session) : Prop :=
  ~ In uuid (map id (App.clips (App.store s))).

(** A drag starts on a clip of the store; [crypto.randomUUID()] returns an
    id no clip has; a callback was created in a state the session went
    through. *)
Definition valid (a : Action) (history : list App.Session) : Prop :=
  match a with
  | Edit (DragCommit _ clip _ _) => In clip (App.clips (App.store (now history)))
  | Edit (Split uuid) | Edit (SeparateAudio uuid) => fresh uuid (now history)
  | ImportDone _ _ rendered _ uuid =>
      In rendered (map App.store history) /\ fresh uuid (now history)
  | GenerationDone _ uuid _ rendered | GenerationTimeout _ uuid _ rendered =>
      In rendered history /\ fresh uuid (now history)
  | _ => True
  end.

Fixpoint valid_from (history : list App.Session) (actions : list Action) : Prop :=
  match actions with
  | [] => True
  | a :: rest =>
      valid a history /\ valid_from (step a (now history) :: history) rest
  end.

Definition valid_session (actions : list Action) : Prop :=
  valid_from [initial_session] actions.

(** The media the browser reports have a length: positive for a file,
    not negative for a generated one (0 is replaced by 5). *)
Definition media_have_length (a : Action) : Prop :=
  match a with
  | ImportDone _ _ _ d _ => 0 < d
  | GenerationDone _ _ d _ => 0 <= d
  | _ => True
  end.

(** What every store of a session satisfies. *)
Definition lanes_ok (c : Clip) : Prop := (0 <= trackIndex c <= 2)%Z.

Definition flags_ok (c : Clip) : Prop :=
  volume c = 1 /\ type c <> image /\ (type c = audio -> isMuted c = false).

Definition selection_ok (s : App.State) : Prop :=
  forall i, App.selectedClipId s = Some i -> In i (map id (App.clips s)).

Definition state_ok (s : App.State) : Prop :=
  unique_ids (App.clips s) /\
  (forall c, In c (App.clips s) -> lanes_ok c /\ flags_ok c) /\
  selection_ok s.

Definition store_ok (s : App.Session) : Prop := state_ok (App.store s).

Definition clip_timing_ok (c : Clip) : Prop := trim_ok c /\ 0 < duration c.

Definition timing_ok (s : App.Session) : Prop :=
  0 <= App.currentTime (App.store s) /\
  forall c, In c (App.clips (App.store s)) -> clip_timing_ok c.

(** ** What the sync effects make of an element *)

(** The element the pool holds for a clip when the effects start: the one
    it has for the id of the clip, or a new one. *)
Definition audio_element_before (pool : Player.AudioPool) (c : Clip)
    : Player.MediaElement :=
  match Player.pool_get pool (id c) with
  | Some el => el
  | None => Player.new_element
  end.

(** The time of an element after a sync for [clip] at [t]: the element
    shows the source of the clip; it was put on the source time when it
    showed another source or was more than 0.3 s away from it, and was left
    where it was otherwise. *)
Definition synced_to (clip : Clip) (t : Q) (before after : Player.MediaElement)
    : Prop :=
  let target := Player.targetSourceTime clip t in
  Player.data_src after = Some (fileUrl clip) /\
  (Player.data_src before <> Some (fileUrl clip) ->
   Player.el_currentTime after = target) /\
  (Player.data_src before = Some (fileUrl clip) ->
   (3 # 10 < Qabs (Player.el_currentTime before - target) ->
    Player.el_currentTime after = target) /\
   (Qabs (Player.el_currentTime before - target) <= 3 # 10 ->
    Player.el_currentTime after = Player.el_currentTime before)).

(** ** The layout of a WAV file *)

Definition le16 (x : Z) : list Z :=
  [x mod 256; (x / 256) mod 256]%Z.

Definition le32 (x : Z) : list Z :=
  [x mod 256; (x / 256) mod 256; (x / 65536) mod 256; (x / 16777216) mod 256]%Z.

(** The 44 bytes of a PCM header for a file of [total] bytes: [RIFF], the
    size of what follows, [WAVE], [fmt ] with a chunk of 16 bytes (PCM, the
    channels, the sample rate, the byte rate, the block size, 16 bits per
    sample), [data] and the size of the samples. *)
Definition wav_header (numOfChan : nat) (sampleRate : Z) (total : nat) : list Z :=
  ([82; 73; 70; 70] ++ le32 (Z.of_nat total - 8) ++
   [87; 65; 86; 69] ++
   [102; 109; 116; 32] ++ le32 16 ++ le16 1 ++ le16 (Z.of_nat numOfChan) ++
   le32 sampleRate ++ le32 (sampleRate * 2 * Z.of_nat numOfChan) ++
   le16 (Z.of_nat numOfChan * 2) ++ le16 16 ++
   [100; 97; 116; 97] ++ le32 (Z.of_nat total - 44))%Z.

(** The 16-bit sample the encoder makes of the frame [p] of channel [i]. *)
Definition sample16 (buffer : GeminiService.AudioBuffer) (i p : nat) : Z :=
  GeminiService.to16bit
    (GeminiService.clamp (nth p (GeminiService.getChannelData buffer i) 0)).

(** ** Sample clips and stores *)

Definition clipA : Clip :=
  mkClip "a" "blob:a" video "A" 10 0 0%Z 0 10 1 false None.

(** An audio clip that is muted. *)
Definition narration : Clip :=
  mkClip "n" "blob:n" audio "Narration" 10 0 0%Z 0 10 1 true None.

(** The editor with [clipA] alone in the store, and a pointer. *)
Definition editorA : Timeline.Editor :=
  Timeline.mkEditor (App.mkState [clipA] 0 false None) None.

Definition pointer (x y : Q) : Timeline.MouseEvent := Timeline.mkMouse x y.

(** [clipA] selected, with the cursor at 4 s. *)
Definition stateA4 : App.State := App.mkState [clipA] 4 false (Some "a"%string).

(** A file being imported while the editor plays from 0 s. *)
Definition statePlaying : App.State := App.mkState [] 0 true None.

Definition holiday : App.File := App.mkFile "holiday.mp4" "video/mp4".

(** Two overlapping video clips: [clipA] on track 0 from 0 s, [clipV] on
    track 1 from 5 s, both 10 s long. *)
Definition clipV : Clip :=
  mkClip "v" "blob:v" video "V" 10 5 1%Z 0 10 1 false None.

(** [clipA] and [clipV] in the store, [clipV] selected. *)
Definition stateAV : App.State :=
  App.mkState [clipA; clipV] 7 false (Some "v"%string).

(** The dialog in audio mode with a prompt, over an empty store. *)
Definition sessionVoice : App.Session :=
  App.mkSession App.initial (App.mkModal true "a calm voice" App.gen_audio true).

(** A scroll container at 200 px from the left of the window, scrolled by
    40 px. *)
Definition containerA : Timeline.Container := Timeline.mkContainer 200 40.

(** A short session: a file is imported, the clip is moved one lane down
    and 2 s to the right, play is pressed and the clock ticks, the clip is
    split under the cursor, the audio of the selected half is separated, the
    selected half is deleted and a narration is generated. *)
Definition importedClip : Clip :=
  mkClip "h" "blob:h" video "holiday.mp4" 10 0 0%Z 0 10 1 false None.

Definition sampleEdits : list Action :=
  [ImportDone holiday "blob:h" App.initial 10 "h";
   SeekToStart;
   Edit (DragCommit Timeline.move importedClip (pointer 0 0) [pointer 40 80]);
   TogglePlay;
   Tick;
   Scrub (Some containerA) 280;
   Edit (Split "h2");
   Edit (SeparateAudio "h3");
   Delete;
   SetDialogOpen true;
   SetMode App.gen_audio;
   SetPrompt "a calm voice";
   GenerateBegin].

Definition sampleSession : list Action :=
  sampleEdits ++ [GenerationDone "blob:g" "g" 0 (now (trace sampleEdits))].

(** A session that ends with the clip trimmed under a paused playhead: a
    10 s file is imported, the cursor is put back on 0 s and then scrubbed to
    0.2 s, and the left edge of the clip is dragged 4 px to the right. *)
Definition trimUnderPlayhead : list Action :=
  [ImportDone holiday "blob:h" App.initial 10 "h";
   SeekToStart;
   Scrub (Some containerA) 164;
   Edit (DragCommit Timeline.resize_left importedClip (pointer 0 0) [pointer 4 0])].

(** The clip of that session after the drag. *)
Definition trimmedClip : Clip :=
  mkClip "h" "blob:h" video "holiday.mp4" 10 (4 # 20) 0%Z (4 # 20) 10 1 false None.

(** The narration that [sampleSession] ends with. *)
Definition generatedNarration : Clip :=
  mkClip "g" "blob:g" audio "AI Generated Audio" 5 (120 # 20) 0%Z 0 5 1 false None.

(** A mono buffer of 46 frames at 24 kHz: silence, but for the frames 44
    and 45. *)
Definition beep : GeminiService.AudioBuffer :=
  GeminiService.mkAudioBuffer 1 46 24000
    (fun _ => repeat 0 44 ++ [1; -1]).

(** The file the encoder makes of it. *)
Definition beep_wav : list Z :=
  Eval vm_compute in
    match GeminiService.audioBufferToWav beep with
    | Some file => file
    | None => []
    end.

(** * Properties *)

(** ** Comparisons *)

Lemma Qltb_lt (x y : Q) : Qltb x y = true <-> x < y.
Proof.
  unfold Qltb. rewrite negb_true_iff.
  split; intro H.
  - apply Qnot_le_lt. intro L. apply Qle_bool_iff in L. congruence.
  - destruct (Qle_bool y x) eqn:E; [|reflexivity].
    apply Qle_bool_iff in E. lra.
Qed.

Lemma Qltb_ge (x y : Q) : Qltb x y = false <-> y <= x.
Proof.
  unfold Qltb. rewrite negb_false_iff. apply Qle_bool_iff.
Qed.

Lemma Qgeb_le (x y : Q) : Qgeb x y = true <-> y <= x.
Proof. apply Qle_bool_iff. Qed.

Lemma Qgtb_lt (x y : Q) : Qgtb x y = true <-> y < x.
Proof. apply Qltb_lt. Qed.

Lemma Qgtb_le (x y : Q) : Qgtb x y = false <-> x <= y.
Proof. apply Qltb_ge. Qed.

(** Name every [Qmax] and [Qmin] of the goal, keeping what [Math.max] and
    [Math.min] guarantee about it. *)
Ltac name_minmax :=
  repeat match goal with
  | |- context [Qmax ?a ?b] =>
      let m := fresh "m" in
      pose proof (Q.max_spec a b); set (m := Qmax a b) in *; clearbody m
  | |- context [Qmin ?a ?b] =>
      let m := fresh "m" in
      pose proof (Q.min_spec a b); set (m := Qmin a b) in *; clearbody m
  | H : context [Qmax ?a ?b] |- _ =>
      let m := fresh "m" in
      pose proof (Q.max_spec a b); set (m := Qmax a b) in *; clearbody m
  | H : context [Qmin ?a ?b] |- _ =>
      let m := fresh "m" in
      pose proof (Q.min_spec a b); set (m := Qmin a b) in *; clearbody m
  end.

Ltac minmax_lra := name_minmax; lra.

(** ** The store: lookup and replacement by id *)

Lemma find_by_id_In (w : option string) (clips : list Clip) (c : Clip) :
  find_by_id w clips = Some c -> In c clips /\ w = Some (id c).
Proof.
  destruct w as [i|]; simpl; [|discriminate].
  intro H. apply find_some in H. destruct H as [Hin Heq].
  apply String.eqb_eq in Heq. subst. auto.
Qed.

Lemma find_by_id_unique (clips : list Clip) (c : Clip) :
  unique_ids clips -> In c clips -> find_by_id (Some (id c)) clips = Some c.
Proof.
  unfold unique_ids. simpl.
  induction clips as [|x l IH]; simpl; intros Hnd Hin; [contradiction|].
  inversion Hnd as [|? ? Hx Hl]; subst.
  destruct Hin as [->|Hin].
  - now rewrite String.eqb_refl.
  - destruct (String.eqb (id x) (id c)) eqn:E.
    + apply String.eqb_eq in E. exfalso. apply Hx. rewrite E.
      now apply in_map.
    + auto.
Qed.

Lemma map_by_id_other (i : string) (f : Clip -> Clip) (l : list Clip) :
  ~ In i (map id l) -> map_by_id i f l = l.
Proof.
  unfold map_by_id. induction l as [|x l IH]; simpl; intro H; [reflexivity|].
  destruct (String.eqb (id x) i) eqn:E.
  - apply String.eqb_eq in E. exfalso. auto.
  - f_equal. apply IH. tauto.
Qed.

Lemma map_by_id_split (f : Clip -> Clip) (l1 l2 : list Clip) (c : Clip) :
  unique_ids (l1 ++ c :: l2) ->
  map_by_id (id c) f (l1 ++ c :: l2) = l1 ++ f c :: l2.
Proof.
  unfold unique_ids. rewrite map_app. simpl. intro Hnd.
  assert (H1 : ~ In (id c) (map id l1)).
  { intro H. apply NoDup_remove_2 in Hnd. apply Hnd.
    apply in_or_app. now left. }
  assert (H2 : ~ In (id c) (map id l2)).
  { intro H. apply NoDup_remove_2 in Hnd. apply Hnd.
    apply in_or_app. now right. }
  unfold map_by_id at 1. rewrite map_app. simpl.
  rewrite String.eqb_refl.
  fold (map_by_id (id c) f l1). fold (map_by_id (id c) f l2).
  now rewrite !map_by_id_other.
Qed.

Lemma map_by_id_In (i : string) (f : Clip -> Clip) (l : list Clip) (c' : Clip) :
  In c' (map_by_id i f l) ->
  In c' l \/ exists c, In c l /\ id c = i /\ c' = f c.
Proof.
  unfold map_by_id. rewrite in_map_iff. intros [c [Hc Hin]].
  destruct (String.eqb (id c) i) eqn:E.
  - apply String.eqb_eq in E. right. exists c. auto.
  - left. now subst.
Qed.

Lemma selectedClip_In (s : App.State) (c : Clip) :
  App.selectedClip s = Some c ->
  In c (App.clips s) /\ App.selectedClipId s = Some (id c).
Proof. apply find_by_id_In. Qed.

(** ** The player: which clips are active *)

Lemma active_iff (wanted : MediaType) (t : Q) (c : Clip) :
  Player.active wanted t c = true <->
  type c = wanted /\
  startOffset c <= t /\ t < startOffset c + (trimEnd c - trimStart c).
Proof.
  unfold Player.active. rewrite !andb_true_iff, Qgeb_le, Qltb_lt.
  assert (MediaType_eqb (type c) wanted = true <-> type c = wanted)
    by (destruct (type c), wanted; simpl; split; congruence).
  tauto.
Qed.

(** The source time computed for a clip that is active at [t] is
    [trimStart + (t - startOffset)]; it is not before [trimStart], and it
    does not decrease when [t] grows. *)
Lemma targetSourceTime_from_trimStart (wanted : MediaType) (t : Q) (clip : Clip) :
  Player.active wanted t clip = true ->
  Player.targetSourceTime clip t = trimStart clip + (t - startOffset clip) /\
  trimStart clip <= Player.targetSourceTime clip t /\
  (forall t' : Q, t <= t' ->
     Player.targetSourceTime clip t <= Player.targetSourceTime clip t').
Proof.
  rewrite active_iff. intros (_ & Hlo & Hhi).
  unfold Player.targetSourceTime.
  repeat split; try lra.
  intros t' Ht. lra.
Qed.

(** The clips the player activates at [t] are exactly the clips of the
    wanted kind whose interval [[startOffset, startOffset + (trimEnd -
    trimStart))] holds [t]; they come in store order. *)
Lemma activeVideoClips_iff (clips : list Clip) (t : Q) (c : Clip) :
  In c (Player.activeVideoClips clips t) <->
  In c clips /\ type c = video /\
  startOffset c <= t /\ t < startOffset c + (trimEnd c - trimStart c).
Proof.
  unfold Player.activeVideoClips. now rewrite filter_In, active_iff.
Qed.

Lemma activeAudioClips_iff (clips : list Clip) (t : Q) (c : Clip) :
  In c (Player.activeAudioClips clips t) <->
  In c clips /\ type c = audio /\
  startOffset c <= t /\ t < startOffset c + (trimEnd c - trimStart c).
Proof.
  unfold Player.activeAudioClips. now rewrite filter_In, active_iff.
Qed.

(** A clip whose interval ends at [t] is not active at [t]. *)
Lemma not_active_at_end (wanted : MediaType) (c : Clip) (t : Q) :
  t == startOffset c + (trimEnd c - trimStart c) ->
  Player.active wanted t c = false.
Proof.
  intro H. destruct (Player.active wanted t c) eqn:E; [|reflexivity].
  apply active_iff in E. lra.
Qed.

(** *** The sort and its first element *)

Section SortHead.
Context {A : Type} (compareFn : A -> A -> Z).

Lemma hd_insert_sorted (x : A) (s : list A) :
  hd_error (Player.insert_sorted compareFn x s) =
  match s with
  | [] => Some x
  | y :: _ => if (compareFn x y <=? 0)%Z then Some x else Some y
  end.
Proof.
  destruct s as [|y s]; simpl; [reflexivity|].
  now destruct (compareFn x y <=? 0)%Z.
Qed.

Lemma insert_sorted_In (x y : A) (s : list A) :
  In y (Player.insert_sorted compareFn x s) <-> y = x \/ In y s.
Proof.
  induction s as [|z s IH]; simpl.
  - intuition congruence.
  - destruct (compareFn x z <=? 0)%Z; simpl; [intuition congruence|].
    rewrite IH. intuition congruence.
Qed.

Lemma sort_In (y : A) (l : list A) : In y (Player.sort compareFn l) <-> In y l.
Proof.
  induction l as [|x l IH]; simpl; [tauto|].
  rewrite insert_sorted_In, IH. intuition congruence.
Qed.

Lemma insert_sorted_length (x : A) (s : list A) :
  List.length (Player.insert_sorted compareFn x s) = S (List.length s).
Proof.
  induction s as [|z s IH]; simpl; [reflexivity|].
  destruct (compareFn x z <=? 0)%Z; simpl; congruence.
Qed.

Lemma sort_length (l : list A) : List.length (Player.sort compareFn l) = List.length l.
Proof.
  induction l as [|x l IH]; simpl; [reflexivity|].
  now rewrite insert_sorted_length, IH.
Qed.
End SortHead.

(** The first clip after sorting by descending track: it sits in the list
    with only lower tracks before it and no higher track after it. *)
Lemma sort_byTrack_head (l : list Clip) :
  match hd_error (Player.sort Player.byTrackDescending l) with
  | None => l = []
  | Some top =>
      exists l1 l2, l = l1 ++ top :: l2 /\
        (forall c, In c l1 -> (trackIndex c < trackIndex top)%Z) /\
        (forall c, In c l2 -> (trackIndex c <= trackIndex top)%Z)
  end.
Proof.
  induction l as [|x l IH]; simpl; [reflexivity|].
  rewrite hd_insert_sorted.
  destruct (Player.sort Player.byTrackDescending l) as [|y s] eqn:E; simpl in *.
  - subst l. exists [], []. simpl. intuition.
  - destruct IH as (l1 & l2 & -> & H1 & H2).
    unfold Player.byTrackDescending at 1.
    destruct (trackIndex y - trackIndex x <=? 0)%Z eqn:C.
    + apply Z.leb_le in C. exists [], (l1 ++ y :: l2). simpl.
      split; [reflexivity|]. split; [intuition|].
      intros c Hc. apply in_app_or in Hc. simpl in Hc.
      destruct Hc as [Hc|[<-|Hc]].
      * apply H1 in Hc. lia.
      * lia.
      * apply H2 in Hc. lia.
    + apply Z.leb_gt in C. exists (x :: l1), l2. simpl.
      split; [reflexivity|]. split; [|exact H2].
      intros c [<-|Hc]; [lia|auto].
Qed.

(** At most one video clip is selected; it is active, and no active video
    clip has a higher track.  Among the active clips of the highest track it
    is the first of the store.  Nothing is selected exactly when no video
    clip is active. *)
Lemma topVideoClip_highest_track (clips : list Clip) (t : Q) :
  match Player.topVideoClip clips t with
  | None => Player.activeVideoClips clips t = []
  | Some top =>
      In top (Player.activeVideoClips clips t) /\
      (forall c, In c (Player.activeVideoClips clips t) ->
                 (trackIndex c <= trackIndex top)%Z) /\
      exists l1 l2, Player.activeVideoClips clips t = l1 ++ top :: l2 /\
        forall c, In c l1 -> (trackIndex c < trackIndex top)%Z
  end.
Proof.
  unfold Player.topVideoClip.
  pose proof (sort_byTrack_head (Player.activeVideoClips clips t)) as H.
  destruct (hd_error _) as [top|]; [|exact H].
  destruct H as (l1 & l2 & E & H1 & H2). rewrite E.
  split; [apply in_or_app; right; now left|].
  split; [|exists l1, l2; auto].
  intros c Hc. apply in_app_or in Hc. simpl in Hc.
  destruct Hc as [Hc|[<-|Hc]].
  - apply H1 in Hc. lia.
  - lia.
  - now apply H2.
Qed.

(** Where only the lower clip is active it is shown; where both are, the
    clip on the higher track is; where the lower clip ends, it is not. *)
Example resolver_picks_higher_track :
  Player.topVideoClip [clipA; clipV] 3 = Some clipA /\
  Player.topVideoClip [clipA; clipV] 7 = Some clipV /\
  Player.topVideoClip [clipV; clipA] 7 = Some clipV /\
  Player.topVideoClip [clipA] 10 = None.
Proof. repeat split. Qed.

(** *** The pool of audio elements *)

Lemma pool_get_set_same (pool : Player.AudioPool) (i : string) (el : Player.MediaElement) :
  Player.pool_get (Player.pool_set pool i el) i = Some el.
Proof.
  unfold Player.pool_get.
  induction pool as [|[j old] rest IH]; simpl.
  - now rewrite String.eqb_refl.
  - destruct (String.eqb j i) eqn:E; simpl; rewrite E; auto.
Qed.

Lemma pool_get_set_other (pool : Player.AudioPool) (i j : string) (el : Player.MediaElement) :
  i <> j ->
  Player.pool_get (Player.pool_set pool i el) j = Player.pool_get pool j.
Proof.
  unfold Player.pool_get. intro Hij.
  induction pool as [|[k old] rest IH]; simpl.
  - apply String.eqb_neq in Hij. now rewrite Hij.
  - destruct (String.eqb k i) eqn:E; simpl.
    + apply String.eqb_eq in E. subst k.
      apply String.eqb_neq in Hij. now rewrite Hij.
    + destruct (String.eqb k j); auto.
Qed.

Lemma pool_has_get (pool : Player.AudioPool) (i : string) :
  Player.pool_has pool i = true <-> exists el, Player.pool_get pool i = Some el.
Proof.
  unfold Player.pool_has, Player.pool_get.
  induction pool as [|[k old] rest IH]; simpl.
  - split; [discriminate|intros [? ?]; discriminate].
  - destruct (String.eqb k i); simpl; [|exact IH].
    split; eauto.
Qed.

Lemma pool_has_set (pool : Player.AudioPool) (i j : string) (el : Player.MediaElement) :
  Player.pool_has pool j = true ->
  Player.pool_has (Player.pool_set pool i el) j = true.
Proof.
  rewrite !pool_has_get. intros [old Hold].
  destruct (string_dec i j) as [->|Hij].
  - rewrite pool_get_set_same. eauto.
  - rewrite pool_get_set_other by assumption. eauto.
Qed.




Lemma sync_source_data_src (clip : Clip) (t : Q) (playing : bool) (el : Player.MediaElement) :
  Player.data_src (Player.sync_source clip t playing el) = Some (fileUrl clip).
Proof.
  unfold Player.sync_source.
  destruct (Player.data_src el) as [s|] eqn:D; simpl; [|reflexivity].
  destruct (String.eqb s (fileUrl clip)) eqn:E; simpl; [|reflexivity].
  apply String.eqb_eq in E. congruence.
Qed.

(** After a sync the element is within 0.3 s of the source time. *)
Lemma sync_source_drift (clip : Clip) (t : Q) (playing : bool) (el : Player.MediaElement) :
  Qabs (Player.el_currentTime (Player.sync_source clip t playing el)
        - Player.targetSourceTime clip t) <= 3 # 10.
Proof.
  assert (Z : forall x : Q, Qabs (x - x) <= 3 # 10)
    by (intro x; apply Qabs_case; intros; lra).
  unfold Player.sync_source.
  destruct (match Player.data_src el with Some s => _ | None => _ end);
    cbn [Player.el_currentTime]; [|apply Z].
  destruct (Qgtb _ _) eqn:G; [apply Z|].
  now apply Qgtb_le in G.
Qed.

Lemma manageAudioPool_has (activeAudio : list Clip) (pool : Player.AudioPool) (c : Clip) :
  In c activeAudio ->
  Player.pool_has (Player.manageAudioPool activeAudio pool) (id c) = true.
Proof.
  unfold Player.manageAudioPool.
  generalize (filter (fun e => existsb (String.eqb (fst e)) (map id activeAudio)) pool).
  induction activeAudio as [|x l IH]; simpl; intros kept Hin; [contradiction|].
  destruct Hin as [->|Hin]; [|now apply IH].
  set (step := fun (p : Player.AudioPool) (clip : Clip) =>
                 if Player.pool_has p (id clip) then p
                 else Player.pool_set p (id clip) Player.new_element).
  assert (Hkeep : forall l' p, Player.pool_has p (id c) = true ->
                              Player.pool_has (fold_left step l' p) (id c) = true).
  { induction l' as [|y l' IH']; simpl; intros p Hp; [exact Hp|].
    apply IH'. unfold step. destruct (Player.pool_has p (id y)); [exact Hp|].
    now apply pool_has_set. }
  apply Hkeep.
  destruct (Player.pool_has kept (id c)) eqn:E; [exact E|].
  apply pool_has_get. rewrite pool_get_set_same. eauto.
Qed.




Lemma syncAudioClip_has (t : Q) (playing : bool) (pool : Player.AudioPool)
    (clip : Clip) (i : string) :
  Player.pool_has pool i = true ->
  Player.pool_has (Player.syncAudioClip t playing pool clip) i = true.
Proof.
  unfold Player.syncAudioClip. intro H.
  destruct (Player.pool_get pool (id clip)); [|exact H].
  now apply pool_has_set.
Qed.

Lemma syncAudio_other (l : list Clip) (t : Q) (playing : bool)
    (pool : Player.AudioPool) (i : string) :
  ~ In i (map id l) ->
  Player.pool_get (Player.syncAudio l t playing pool) i = Player.pool_get pool i.
Proof.
  unfold Player.syncAudio. revert pool.
  induction l as [|x l IH]; simpl; intros pool Hi; [reflexivity|].
  rewrite IH by tauto.
  unfold Player.syncAudioClip.
  destruct (Player.pool_get pool (id x)); [|reflexivity].
  apply pool_get_set_other. tauto.
Qed.

(** What the sync leaves in the pool for a clip it visits: the element the
    pool held, brought to the source of the clip, with the volume of the
    clip and the [muted] flag it had before. *)
Lemma syncAudio_visited (l : list Clip) (t : Q) (playing : bool)
    (pool : Player.AudioPool) (c : Clip) :
  NoDup (map id l) -> In c l ->
  Player.pool_has pool (id c) = true ->
  exists before, Player.pool_get pool (id c) = Some before /\
    Player.pool_get (Player.syncAudio l t playing pool) (id c) =
    Some (let a := Player.sync_source c t playing before in
          Player.mkElement (Player.src a) (Player.data_src a)
            (Player.el_currentTime a) (Player.paused a) (Player.muted a)
            (volume c)).
Proof.
  revert pool.
  induction l as [|x l IH]; simpl; intros pool Hnd Hin Hhas; [contradiction|].
  inversion Hnd as [|? ? Hx Hl]; subst.
  destruct Hin as [->|Hin].
  - apply pool_has_get in Hhas. destruct Hhas as [before Hb].
    exists before. split; [exact Hb|].
    change (Player.syncAudio (c :: l) t playing pool)
      with (Player.syncAudio l t playing (Player.syncAudioClip t playing pool c)).
    rewrite syncAudio_other by exact Hx.
    unfold Player.syncAudioClip. rewrite Hb. apply pool_get_set_same.
  - assert (Hne : id x <> id c).
    { intro E. apply Hx. rewrite E. now apply in_map. }
    change (Player.syncAudio (x :: l) t playing pool)
      with (Player.syncAudio l t playing (Player.syncAudioClip t playing pool x)).
    destruct (IH (Player.syncAudioClip t playing pool x) Hl Hin
                 (syncAudioClip_has _ _ _ _ _ Hhas)) as (before & Hb & Hafter).
    exists before. split; [|exact Hafter].
    rewrite <- Hb. unfold Player.syncAudioClip.
    destruct (Player.pool_get pool (id x)); [|reflexivity].
    symmetry. now apply pool_get_set_other.
Qed.

Lemma unique_ids_filter (p : Clip -> bool) (clips : list Clip) :
  unique_ids clips -> unique_ids (filter p clips).
Proof.
  unfold unique_ids. induction clips as [|x l IH]; simpl; intro H; [constructor|].
  inversion H as [|? ? Hx Hl]; subst.
  destruct (p x); simpl; [|auto].
  constructor; [|auto].
  intro Hin. apply Hx. apply in_map_iff in Hin. destruct Hin as (y & Hy & Hf).
  apply filter_In in Hf. apply in_map_iff. exists y. tauto.
Qed.




(** ** Drag sessions *)

(** A move event recomputes the live values from the snapshot taken at
    pointer down: the moves before it leave no trace. *)
Lemma handleMouseMove_from_snapshot (a : Clip) (d0 d1 : Timeline.DragState)
    (e e' : Timeline.MouseEvent) :
  Timeline.handleMouseMove a d0 e (Some d0) = Some d1 ->
  Timeline.handleMouseMove a d1 e' (Some d1) =
  Timeline.handleMouseMove a d0 e' (Some d0).
Proof.
  unfold Timeline.handleMouseMove. intro H. injection H as <-.
  destruct (Timeline.mode d0) eqn:M; reflexivity.
Qed.

Lemma handleMouseMove_start (a clip : Clip) (m : Timeline.Mode)
    (down e : Timeline.MouseEvent) :
  exists d, Timeline.handleMouseMove a (Timeline.start m clip down) e
              (Some (Timeline.start m clip down)) = Some d /\
    Timeline.clipId d = id clip /\ Timeline.mode d = m /\
    Timeline.initialStartOffset d = startOffset clip /\
    Timeline.initialTrimStart d = trimStart clip /\
    Timeline.initialTrimEnd d = trimEnd clip /\
    Timeline.initialTrackIndex d = trackIndex clip.
Proof.
  eexists. split; [reflexivity|]. destruct m; cbn; repeat split.
Qed.

Lemma mousemove_in_progress (m : Timeline.Mode) (clip : Clip)
    (down e : Timeline.MouseEvent) (ed s : Timeline.Editor) :
  drag_in_progress m clip down ed s ->
  drag_in_progress m clip down ed (Timeline.mousemove e s).
Proof.
  unfold drag_in_progress. intros [Happ Hs].
  unfold Timeline.mousemove.
  destruct Hs as [Hs|(a & e0 & Ha & Hs)].
  - rewrite Hs. cbn [Timeline.clipId Timeline.start]. rewrite Happ.
    cbn [App.clips App.setSelectedClipId].
    destruct (find_by_id _ _) as [a|] eqn:F.
    + cbn [Timeline.app Timeline.dragState]. split; [first [exact Happ|reflexivity]|].
      right. exists a, e. auto.
    + auto.
  - destruct (handleMouseMove_start a clip m down e0) as (d1 & Hd1 & Hid & _).
    rewrite Hs, Hd1, Hid, Happ.
    cbn [App.clips App.setSelectedClipId]. rewrite Ha.
    cbn [Timeline.app Timeline.dragState]. split; [first [exact Happ|reflexivity]|].
    right. exists a, e. split; [reflexivity|].
    now apply handleMouseMove_from_snapshot with (e := e0).
Qed.

Lemma dragging_in_progress (m : Timeline.Mode) (clip : Clip)
    (down : Timeline.MouseEvent) (moves : list Timeline.MouseEvent)
    (ed : Timeline.Editor) :
  drag_in_progress m clip down ed (Timeline.dragging m clip down moves ed).
Proof.
  unfold Timeline.dragging.
  assert (H0 : drag_in_progress m clip down ed (Timeline.mousedown m clip down ed))
    by (split; [reflexivity|now left]).
  revert H0. generalize (Timeline.mousedown m clip down ed).
  induction moves as [|e ms IH]; simpl; intros s Hs; [exact Hs|].
  apply IH. now apply mousemove_in_progress.
Qed.

(** The live values of each mode, as a move event computes them from the
    snapshot of [clip]. *)
Lemma move_live (a clip : Clip) (down e : Timeline.MouseEvent) (d : Timeline.DragState) :
  Timeline.handleMouseMove a (Timeline.start Timeline.move clip down) e
    (Some (Timeline.start Timeline.move clip down)) = Some d ->
  Timeline.mode d = Timeline.move /\
  0 <= Timeline.currentStartOffset d /\
  (0 <= Timeline.currentTrackIndex d <= 2)%Z /\
  Timeline.currentTrimStart d = trimStart clip /\
  Timeline.currentTrimEnd d = trimEnd clip.
Proof.
  intro H. injection H as <-. cbn -[Qmax Z.max Z.min Timeline.Math_round Qdiv].
  repeat split; try lia. apply Q.le_max_l.
Qed.

Lemma resize_left_live (a clip : Clip) (down e : Timeline.MouseEvent) (d : Timeline.DragState) :
  Timeline.handleMouseMove a (Timeline.start Timeline.resize_left clip down) e
    (Some (Timeline.start Timeline.resize_left clip down)) = Some d ->
  Timeline.mode d = Timeline.resize_left /\
  Timeline.currentTrimStart d =
    Qmax 0 (Qmin (trimStart clip
                  + (Timeline.clientX e - Timeline.clientX down) / Timeline.PIXELS_PER_SECOND)
                 (trimEnd clip - (1 # 2))) /\
  Timeline.currentStartOffset d =
    startOffset clip + (Timeline.currentTrimStart d - trimStart clip) /\
  Timeline.currentTrimEnd d = trimEnd clip /\
  Timeline.currentTrackIndex d = trackIndex clip.
Proof.
  intro H. injection H as <-. repeat split.
Qed.

Lemma resize_right_live (a clip : Clip) (down e : Timeline.MouseEvent) (d : Timeline.DragState) :
  Timeline.handleMouseMove a (Timeline.start Timeline.resize_right clip down) e
    (Some (Timeline.start Timeline.resize_right clip down)) = Some d ->
  Timeline.mode d = Timeline.resize_right /\
  Timeline.currentTrimEnd d =
    Qmax (trimStart clip + (1 # 2))
         (Qmin (trimEnd clip
                + (Timeline.clientX e - Timeline.clientX down) / Timeline.PIXELS_PER_SECOND)
               (duration a)) /\
  Timeline.currentStartOffset d = startOffset clip /\
  Timeline.currentTrimStart d = trimStart clip /\
  Timeline.currentTrackIndex d = trackIndex clip.
Proof.
  intro H. injection H as <-. repeat split.
Qed.

(** C7, as the code has it: at every moment of a resize-left drag the drag
    state still holds the snapshot taken at pointer down, the end of the trim
    is the one of the snapshot, and the live start offset is the initial one
    plus the trim actually applied, [initialStartOffset + (currentTrimStart -
    initialTrimStart)], as the code computes it; the last also in binary64,
    for every snapshot and pointer position. *)
Theorem resize_left_start_follows_trim (clip : Clip) (down : Timeline.MouseEvent)
    (moves : list Timeline.MouseEvent) (ed : Timeline.Editor) :
  (exists d,
     Timeline.dragState (Timeline.dragging Timeline.resize_left clip down moves ed)
       = Some d /\
     Timeline.initialStartOffset d = startOffset clip /\
     Timeline.initialTrimStart d = trimStart clip /\
     Timeline.initialTrimEnd d = trimEnd clip /\
     Timeline.currentTrimEnd d = Timeline.initialTrimEnd d /\
     Timeline.currentStartOffset d ==
       Timeline.initialStartOffset d
       + (Timeline.currentTrimStart d - Timeline.initialTrimStart d)) /\
  (forall (clientX : PrimFloat.float) (prev : Double.DragState),
     let d := Double.resize_left clientX prev in
     Double.initialStartOffset d = Double.initialStartOffset prev /\
     Double.initialTrimStart d = Double.initialTrimStart prev /\
     Double.initialTrimEnd d = Double.initialTrimEnd prev /\
     Double.currentStartOffset d =
       PrimFloat.add (Double.initialStartOffset d)
         (PrimFloat.sub (Double.currentTrimStart d) (Double.initialTrimStart d))).
Proof.
  split; [|intros clientX prev; repeat split].
  destruct (dragging_in_progress Timeline.resize_left clip down moves ed)
    as [_ [E|(a & e & _ & E)]].
  - exists (Timeline.start Timeline.resize_left clip down).
    split; [exact E|]. cbn. repeat split; ring.
  - destruct (handleMouseMove_start a clip Timeline.resize_left down e)
      as (d & Hd & _ & _ & H1 & H2 & H3 & _).
    exists d. rewrite E. split; [exact Hd|].
    apply resize_left_live in Hd. destruct Hd as (_ & _ & Hso & Hte & _).
    rewrite H1, H2, H3, Hso, Hte. repeat split; ring.
Qed.

(** What a gesture commits: the dragged clip, and it alone, is replaced by
    itself overwritten with the entries the release hands to the store. *)
Lemma gesture_commit (m : Timeline.Mode) (clip : Clip) (down : Timeline.MouseEvent)
    (moves : list Timeline.MouseEvent) (ed : Timeline.Editor) (l1 l2 : list Clip) :
  App.clips (Timeline.app ed) = l1 ++ clip :: l2 ->
  unique_ids (l1 ++ clip :: l2) ->
  exists d,
    Timeline.dragState (Timeline.dragging m clip down moves ed) = Some d /\
    (d = Timeline.start m clip down \/
     exists e, Timeline.handleMouseMove clip (Timeline.start m clip down) e
                 (Some (Timeline.start m clip down)) = Some d) /\
    Timeline.clipId d = id clip /\
    App.clips (Timeline.app (Timeline.gesture m clip down moves ed)) =
      l1 ++ spread clip (snd (Timeline.handleMouseUp d)) :: l2 /\
    Timeline.dragState (Timeline.gesture m clip down moves ed) = None.
Proof.
  intros Hclips Hu.
  assert (Hfind : find_by_id (Some (id clip)) (App.clips (Timeline.app ed)) = Some clip).
  { rewrite Hclips. apply find_by_id_unique; [exact Hu|].
    apply in_or_app. right. now left. }
  destruct (dragging_in_progress m clip down moves ed) as [Happ Hd].
  assert (Hex : exists d,
    Timeline.dragState (Timeline.dragging m clip down moves ed) = Some d /\
    (d = Timeline.start m clip down \/
     exists e, Timeline.handleMouseMove clip (Timeline.start m clip down) e
                 (Some (Timeline.start m clip down)) = Some d) /\
    Timeline.clipId d = id clip).
  { destruct Hd as [E|(a & e & Ha & E)].
    - eexists. split; [exact E|]. split; [now left|reflexivity].
    - rewrite Hfind in Ha. injection Ha as <-.
      destruct (handleMouseMove_start clip clip m down e) as (d & Hd & Hid & _).
      exists d. rewrite E. split; [exact Hd|]. split; [|exact Hid].
      right. now exists e. }
  destruct Hex as (d & Hds & Hor & Hid).
  exists d. split; [exact Hds|]. split; [exact Hor|]. split; [exact Hid|].
  unfold Timeline.gesture, Timeline.mouseup. rewrite Hds, Hid, Happ.
  cbn [App.clips App.setSelectedClipId]. rewrite Hfind.
  unfold Timeline.handleMouseUp. rewrite Hid.
  cbn [Timeline.app Timeline.dragState App.click App.handleUpdateClip
       App.setClips App.setSelectedClipId App.clips snd].
  split; [|reflexivity].
  rewrite Hclips. now apply map_by_id_split.
Qed.

(** The entries of each mode, written over a clip. *)
Lemma spread_commit (d : Timeline.DragState) (c : Clip) :
  spread c (snd (Timeline.handleMouseUp d)) =
  match Timeline.mode d with
  | Timeline.move =>
      mkClip (id c) (fileUrl c) (type c) (name c) (duration c)
             (Timeline.currentStartOffset d) (Timeline.currentTrackIndex d)
             (trimStart c) (trimEnd c) (volume c) (isMuted c) (thumbnail c)
  | Timeline.resize_left =>
      mkClip (id c) (fileUrl c) (type c) (name c) (duration c)
             (Timeline.currentStartOffset d) (trackIndex c)
             (Timeline.currentTrimStart d) (trimEnd c)
             (volume c) (isMuted c) (thumbnail c)
  | Timeline.resize_right =>
      mkClip (id c) (fileUrl c) (type c) (name c) (duration c)
             (startOffset c) (trackIndex c)
             (trimStart c) (Timeline.currentTrimEnd d)
             (volume c) (isMuted c) (thumbnail c)
  end.
Proof.
  unfold Timeline.handleMouseUp. destruct (Timeline.mode d); reflexivity.
Qed.

(** C4, as the code has it: from a snapshot with [0 <= trimStart],
    [trimStart + 0.5 <= trimEnd <= duration], every moment of a drag and the
    values it commits keep [0 <= trimStart], [trimStart + 0.5 <= trimEnd]
    and [trimEnd <= duration].  The length 0.5 itself is reached. *)
Theorem resize_keeps_trim_in_bounds (m : Timeline.Mode) (clip : Clip)
    (down : Timeline.MouseEvent) (moves : list Timeline.MouseEvent)
    (ed : Timeline.Editor) (l1 l2 : list Clip) :
  App.clips (Timeline.app ed) = l1 ++ clip :: l2 ->
  unique_ids (l1 ++ clip :: l2) ->
  trim_in_bounds (trimStart clip) (trimEnd clip) (duration clip) ->
  (exists d,
     Timeline.dragState (Timeline.dragging m clip down moves ed) = Some d /\
     trim_in_bounds (Timeline.currentTrimStart d) (Timeline.currentTrimEnd d)
                    (duration clip)) /\
  (exists c',
     App.clips (Timeline.app (Timeline.gesture m clip down moves ed)) =
       l1 ++ c' :: l2 /\
     id c' = id clip /\ duration c' = duration clip /\
     trim_in_bounds (trimStart c') (trimEnd c') (duration c')).
Proof.
  intros Hclips Hu (H0 & Hmin & Hdur).
  destruct (gesture_commit m clip down moves ed l1 l2 Hclips Hu)
    as (d & Hds & Hor & _ & Hcommit & _).
  assert (Hlive : Timeline.mode d = m /\
                  trim_in_bounds (Timeline.currentTrimStart d)
                                 (Timeline.currentTrimEnd d) (duration clip) /\
                  (m <> Timeline.resize_right ->
                   Timeline.currentTrimEnd d = trimEnd clip) /\
                  (m <> Timeline.resize_left ->
                   Timeline.currentTrimStart d = trimStart clip)).
  { unfold trim_in_bounds. destruct Hor as [->|[e He]].
    - cbn. auto 10.
    - destruct m.
      + apply move_live in He. destruct He as (Hm & _ & _ & -> & ->). auto 10.
      + apply resize_left_live in He. destruct He as (Hm & -> & _ & -> & _).
        split; [exact Hm|]. repeat split; try congruence; minmax_lra.
      + apply resize_right_live in He. destruct He as (Hm & -> & _ & -> & _).
        split; [exact Hm|]. repeat split; try congruence; minmax_lra. }
  destruct Hlive as (Hm & Hlive & Hend & Hstart).
  split; [exists d; auto|].
  exists (spread clip (snd (Timeline.handleMouseUp d))).
  split; [exact Hcommit|].
  rewrite spread_commit, Hm. unfold trim_in_bounds in *.
  destruct m; cbn.
  - auto.
  - rewrite <- Hend by discriminate. auto.
  - rewrite <- Hstart by discriminate. auto.
Qed.

Lemma resize_keeps_trim_in_bounds_witness :
  exists d,
    Timeline.dragState
      (Timeline.dragging Timeline.resize_left clipA (pointer 0 0)
         [pointer (-100) 0; pointer 60 0] editorA) = Some d /\
    trim_in_bounds (Timeline.currentTrimStart d) (Timeline.currentTrimEnd d)
                   (duration clipA).
Proof.
  apply (resize_keeps_trim_in_bounds Timeline.resize_left clipA (pointer 0 0)
           [pointer (-100) 0; pointer 60 0] editorA [] []).
  - reflexivity.
  - constructor; [simpl; tauto|constructor].
  - vm_compute. intuition discriminate.
Defined.

(** C4, as the claim words it, fails: dragging the left edge of [clipA]
    (trim [0, 10]) 400 px to the right leaves [trimStart = 9.5], which is
    [trimEnd - 0.5]; dragging its right edge 400 px to the left leaves
    [trimEnd = 0.5], which is [trimStart + 0.5].  Both are committed. *)
Lemma resize_reaches_min_duration :
  trim_in_bounds (trimStart clipA) (trimEnd clipA) (duration clipA) /\
  (exists d,
     Timeline.dragState
       (Timeline.dragging Timeline.resize_left clipA (pointer 0 0)
          [pointer 400 0] editorA) = Some d /\
     Timeline.currentTrimEnd d - (1 # 2) <= Timeline.currentTrimStart d) /\
  (exists d,
     Timeline.dragState
       (Timeline.dragging Timeline.resize_right clipA (pointer 0 0)
          [pointer (-400) 0] editorA) = Some d /\
     Timeline.currentTrimEnd d <= Timeline.currentTrimStart d + (1 # 2)) /\
  (exists c,
     App.clips (Timeline.app (Timeline.gesture Timeline.resize_left clipA
                                (pointer 0 0) [pointer 400 0] editorA)) = [c] /\
     trimEnd c - (1 # 2) <= trimStart c) /\
  (exists c,
     App.clips (Timeline.app (Timeline.gesture Timeline.resize_right clipA
                                (pointer 0 0) [pointer (-400) 0] editorA)) = [c] /\
     trimEnd c <= trimStart c + (1 # 2)).
Proof.
  split; [vm_compute; intuition discriminate|].
  repeat split; eexists; (split; [vm_compute; reflexivity|vm_compute; discriminate]).
Qed.

(** C8: the release writes to the store only what the mode of the drag
    touches.  Every clip keeps its place; a clip with another id is
    unchanged; the dragged clip gets [startOffset] and [trackIndex] on a
    move, [trimStart] and [startOffset] on a resize-left, [trimEnd] on a
    resize-right, and keeps every other field.  The cursor, the play state
    and the selection are unchanged. *)
Theorem commit_writes_only_mode_fields (ed : Timeline.Editor) (d : Timeline.DragState) :
  Timeline.dragState ed = Some d ->
  let before := Timeline.app ed in
  let after := Timeline.app (Timeline.mouseup ed) in
  App.clips after =
    map (fun c =>
           if String.eqb (id c) (Timeline.clipId d) then
             match Timeline.mode d with
             | Timeline.move =>
                 mkClip (id c) (fileUrl c) (type c) (name c) (duration c)
                        (Timeline.currentStartOffset d)
                        (Timeline.currentTrackIndex d)
                        (trimStart c) (trimEnd c)
                        (volume c) (isMuted c) (thumbnail c)
             | Timeline.resize_left =>
                 mkClip (id c) (fileUrl c) (type c) (name c) (duration c)
                        (Timeline.currentStartOffset d) (trackIndex c)
                        (Timeline.currentTrimStart d) (trimEnd c)
                        (volume c) (isMuted c) (thumbnail c)
             | Timeline.resize_right =>
                 mkClip (id c) (fileUrl c) (type c) (name c) (duration c)
                        (startOffset c) (trackIndex c)
                        (trimStart c) (Timeline.currentTrimEnd d)
                        (volume c) (isMuted c) (thumbnail c)
             end
           else c)
        (App.clips before) /\
  App.currentTime after = App.currentTime before /\
  App.isPlaying after = App.isPlaying before /\
  App.selectedClipId after = App.selectedClipId before.
Proof.
  intros Hd before after. subst before after.
  unfold Timeline.mouseup. rewrite Hd.
  destruct (find_by_id _ _) as [a|] eqn:F.
  - unfold Timeline.handleMouseUp.
    cbn [Timeline.app App.click App.handleUpdateClip App.setClips App.clips
         App.currentTime App.isPlaying App.selectedClipId].
    split; [|auto]. unfold map_by_id. apply map_ext. intro c.
    destruct (String.eqb (id c) (Timeline.clipId d)); [|reflexivity].
    pose proof (spread_commit d c) as S. unfold Timeline.handleMouseUp in S.
    exact S.
  - split; [|auto]. simpl in F.
    rewrite <- (map_id (App.clips (Timeline.app ed))) at 1.
    apply map_ext_in. intros c Hc.
    now rewrite (find_none _ _ F c Hc).
Qed.

Lemma commit_writes_only_mode_fields_witness :
  exists d,
    Timeline.dragState
      (Timeline.dragging Timeline.move clipA (pointer 0 0) [pointer 40 80] editorA)
      = Some d /\
    Timeline.currentStartOffset d == 2 /\
    Timeline.currentTrackIndex d = 1%Z /\
    App.clips
      (Timeline.app
         (Timeline.mouseup
            (Timeline.dragging Timeline.move clipA (pointer 0 0)
               [pointer 40 80] editorA))) =
    [mkClip "a" "blob:a" video "A" 10 (Timeline.currentStartOffset d)
            (Timeline.currentTrackIndex d) 0 10 1 false None].
Proof.
  eexists. split; [vm_compute; reflexivity|].
  split; [reflexivity|]. split; [reflexivity|].
  match goal with
  | |- _ = [mkClip _ _ _ _ _ (Timeline.currentStartOffset ?d) _ _ _ _ _ _] =>
      exact (proj1 (commit_writes_only_mode_fields
                      (Timeline.dragging Timeline.move clipA (pointer 0 0)
                         [pointer 40 80] editorA) d eq_refl))
  end.
Defined.

(** ** The click actions *)

Lemma selectedClip_unique (s : App.State) (sel : Clip) (l1 l2 : list Clip) :
  App.clips s = l1 ++ sel :: l2 ->
  unique_ids (l1 ++ sel :: l2) ->
  App.selectedClipId s = Some (id sel) ->
  App.selectedClip s = Some sel.
Proof.
  intros Hc Hu Hs. unfold App.selectedClip. rewrite Hs, Hc.
  apply find_by_id_unique; [exact Hu|]. apply in_or_app. right. now left.
Qed.

(** C3: with the cursor [t] strictly inside the interval of the selected
    clip, the clip is replaced, in place, by itself with [trimEnd] set to
    [trimStart + (t - startOffset)], and a clip is appended that differs
    from the selected one in its id (the fresh one), its [startOffset], set
    to [t], and its [trimStart], set to the same split point; the appended
    clip becomes the selection.  Anywhere else, the two ends of the interval
    included, nothing changes. *)
Theorem split_at_cursor (s : App.State) (sel : Clip) (uuid : string)
    (l1 l2 : list Clip) :
  App.clips s = l1 ++ sel :: l2 ->
  unique_ids (l1 ++ sel :: l2) ->
  App.selectedClipId s = Some (id sel) ->
  let t := App.currentTime s in
  let s' := App.click (App.handleSplit uuid) s in
  let sourceSplitPoint := trimStart sel + (t - startOffset sel) in
  (startOffset sel < t /\ t < startOffset sel + (trimEnd sel - trimStart sel) ->
   App.clips s' =
     l1 ++ mkClip (id sel) (fileUrl sel) (type sel) (name sel) (duration sel)
                  (startOffset sel) (trackIndex sel)
                  (trimStart sel) sourceSplitPoint
                  (volume sel) (isMuted sel) (thumbnail sel)
        :: l2 ++
     [mkClip uuid (fileUrl sel) (type sel) (name sel) (duration sel)
             t (trackIndex sel)
             sourceSplitPoint (trimEnd sel)
             (volume sel) (isMuted sel) (thumbnail sel)] /\
   App.selectedClipId s' = Some uuid /\
   App.currentTime s' = t /\
   App.isPlaying s' = App.isPlaying s) /\
  (t <= startOffset sel \/ startOffset sel + (trimEnd sel - trimStart sel) <= t ->
   s' = s).
Proof.
  intros Hc Hu Hs t s' sp. subst s'.
  unfold App.click, App.handleSplit.
  rewrite (selectedClip_unique s sel l1 l2 Hc Hu Hs). fold t.
  split.
  - intros [Hlo Hhi].
    apply Qgtb_lt in Hlo. apply Qltb_lt in Hhi. rewrite Hlo, Hhi.
    cbn [andb App.setSelectedClipId App.setClips App.clips App.currentTime
         App.isPlaying App.selectedClipId spread fold_left assign id].
    split; [|auto]. rewrite Hc, (map_by_id_split _ l1 l2 sel Hu).
    now rewrite <- app_assoc.
  - intros [Hlo|Hhi].
    + apply Qgtb_le in Hlo. now rewrite Hlo.
    + apply Qltb_ge in Hhi. rewrite Hhi. now rewrite andb_false_r.
Qed.

Lemma split_at_cursor_witness :
  App.clips (App.click (App.handleSplit "a2") stateA4) =
    [mkClip "a" "blob:a" video "A" 10 0 0%Z 0 4 1 false None;
     mkClip "a2" "blob:a" video "A" 10 4 0%Z 4 10 1 false None] /\
  App.selectedClipId (App.click (App.handleSplit "a2") stateA4) = Some "a2"%string.
Proof.
  destruct (split_at_cursor stateA4 clipA "a2" [] []) as [H _].
  - reflexivity.
  - constructor; [simpl; tauto|constructor].
  - reflexivity.
  - destruct H as (H1 & H2 & _).
    + split; vm_compute; reflexivity.
    + split; [exact H1|exact H2].
Defined.

(** C6: on a selected video clip, separate-audio replaces the clip, in
    place, by itself with [isMuted] set, and appends one clip that has the
    fields of the selected clip as they were, but for the fresh id, the type
    [audio], the track 0, [isMuted] cleared, and the name, which gets the
    prefix [Audio from].  On a selected clip of another type nothing
    changes. *)
Theorem separate_audio (s : App.State) (sel : Clip) (uuid : string)
    (l1 l2 : list Clip) :
  App.clips s = l1 ++ sel :: l2 ->
  unique_ids (l1 ++ sel :: l2) ->
  App.selectedClipId s = Some (id sel) ->
  let s' := App.click (App.handleSeparateAudio uuid) s in
  (type sel = video ->
   App.clips s' =
     l1 ++ mkClip (id sel) (fileUrl sel) (type sel) (name sel) (duration sel)
                  (startOffset sel) (trackIndex sel)
                  (trimStart sel) (trimEnd sel)
                  (volume sel) true (thumbnail sel)
        :: l2 ++
     [mkClip uuid (fileUrl sel) audio ("Audio from " ++ name sel)%string
             (duration sel) (startOffset sel) 0%Z
             (trimStart sel) (trimEnd sel)
             (volume sel) false (thumbnail sel)] /\
   App.selectedClipId s' = App.selectedClipId s /\
   App.currentTime s' = App.currentTime s /\
   App.isPlaying s' = App.isPlaying s) /\
  (type sel <> video -> s' = s).
Proof.
  intros Hc Hu Hs s'. subst s'.
  unfold App.click, App.handleSeparateAudio.
  rewrite (selectedClip_unique s sel l1 l2 Hc Hu Hs).
  split.
  - intros Hv. rewrite Hv.
    cbn [MediaType_eqb negb App.setClips App.clips App.currentTime
         App.isPlaying App.selectedClipId spread fold_left assign
         id fileUrl type name duration startOffset trackIndex trimStart
         trimEnd volume isMuted thumbnail].
    split; [|auto]. rewrite Hc, (map_by_id_split _ l1 l2 sel Hu).
    rewrite <- app_assoc. simpl. now rewrite Hv.
  - intro Hn. destruct (type sel); [contradiction| |]; reflexivity.
Qed.

Lemma separate_audio_witness :
  App.clips (App.click (App.handleSeparateAudio "x") stateA4) =
    [mkClip "a" "blob:a" video "A" 10 0 0%Z 0 10 1 true None;
     mkClip "x" "blob:a" audio "Audio from A" 10 0 0%Z 0 10 1 false None].
Proof.
  destruct (separate_audio stateA4 clipA "x" [] []) as [H _].
  - reflexivity.
  - constructor; [simpl; tauto|constructor].
  - reflexivity.
  - destruct H as (H1 & _); [reflexivity|exact H1].
Defined.

(** C9: a trim nudge computes [newTrimStart = max(0, trimStart +
    startDelta)] and [newTrimEnd = min(duration, trimEnd + endDelta)] from
    the selected clip; when [newTrimStart < newTrimEnd] the selected clip
    gets exactly these two values and nothing else changes, otherwise the
    whole state is unchanged. *)
Theorem adjustTrim_all_or_nothing (s : App.State) (sel : Clip)
    (startDelta endDelta : Q) (l1 l2 : list Clip) :
  App.clips s = l1 ++ sel :: l2 ->
  unique_ids (l1 ++ sel :: l2) ->
  App.selectedClipId s = Some (id sel) ->
  let s' := App.click (App.adjustTrim startDelta endDelta) s in
  let newTrimStart := Qmax 0 (trimStart sel + startDelta) in
  let newTrimEnd := Qmin (duration sel) (trimEnd sel + endDelta) in
  (newTrimStart < newTrimEnd ->
   App.clips s' =
     l1 ++ mkClip (id sel) (fileUrl sel) (type sel) (name sel) (duration sel)
                  (startOffset sel) (trackIndex sel)
                  newTrimStart newTrimEnd
                  (volume sel) (isMuted sel) (thumbnail sel)
        :: l2 /\
   App.selectedClipId s' = App.selectedClipId s /\
   App.currentTime s' = App.currentTime s /\
   App.isPlaying s' = App.isPlaying s) /\
  (newTrimEnd <= newTrimStart -> s' = s).
Proof.
  intros Hc Hu Hs s' ns ne. subst s'.
  unfold App.click, App.adjustTrim.
  rewrite (selectedClip_unique s sel l1 l2 Hc Hu Hs). fold ns ne.
  split.
  - intro Hlt. apply Qltb_lt in Hlt. rewrite Hlt.
    cbn [App.setClips App.clips App.currentTime App.isPlaying
         App.selectedClipId].
    split; [|auto]. rewrite Hc, (map_by_id_split _ l1 l2 sel Hu). reflexivity.
  - intro Hge. apply Qltb_ge in Hge. now rewrite Hge.
Qed.

Lemma adjustTrim_all_or_nothing_witness :
  App.clips (App.click (App.adjustTrim 1 0) stateA4) =
    [mkClip "a" "blob:a" video "A" 10 0 0%Z
            (Qmax 0 (0 + 1)) (Qmin 10 (10 + 0)) 1 false None] /\
  App.click (App.adjustTrim 20 0) stateA4 = stateA4.
Proof.
  destruct (adjustTrim_all_or_nothing stateA4 clipA 1 0 [] []) as [H _];
    [reflexivity|constructor; [simpl; tauto|constructor]|reflexivity|].
  destruct (adjustTrim_all_or_nothing stateA4 clipA 20 0 [] []) as [_ H'];
    [reflexivity|constructor; [simpl; tauto|constructor]|reflexivity|].
  split.
  - apply H. reflexivity.
  - apply H'. vm_compute. discriminate.
Defined.

(** Without a selected clip none of the three actions does anything. *)
Lemma actions_need_selection (s : App.State) (uuid : string) (sd ed : Q) :
  App.selectedClip s = None ->
  App.click (App.handleSplit uuid) s = s /\
  App.click (App.handleSeparateAudio uuid) s = s /\
  App.click (App.adjustTrim sd ed) s = s.
Proof.
  intro H. unfold App.click, App.handleSplit, App.handleSeparateAudio, App.adjustTrim.
  now rewrite H.
Qed.

(** ** Import *)

(** C10, as the code has it: the callback that completes an import appends
    one clip to the store as it is then, leaving the clips in it alone, with
    [trackIndex = 0], [trimStart = 0], [trimEnd = duration = d], [volume =
    1], not muted, and with [startOffset = c], where [c] is the cursor of
    the render in which the file was chosen; it then sets the cursor to
    [c + d], the end of the new clip. *)
Theorem import_places_clip_at_cursor_of_file_choice
    (render prev : App.State) (file : App.File) (url uuid : string) (d : Q) :
  exists complete,
    App.handleFileUpload (Some file) url render = Some complete /\
    complete d uuid prev =
      App.mkState
        (App.clips prev ++
         [mkClip uuid url
                 (if String.prefix "audio" (App.file_type file) then audio else video)
                 (App.file_name file) d (App.currentTime render) 0%Z 0 d 1
                 false None])
        (App.currentTime render + d)
        (App.isPlaying prev) (App.selectedClipId prev).
Proof.
  eexists. split; reflexivity.
Qed.

(** When the cursor has not moved since the file was chosen, [c] is the
    cursor at completion. *)
Lemma import_with_cursor_at_rest
    (render prev : App.State) (file : App.File) (url uuid : string) (d : Q) :
  App.currentTime prev = App.currentTime render ->
  exists complete newClip,
    App.handleFileUpload (Some file) url render = Some complete /\
    App.clips (complete d uuid prev) = App.clips prev ++ [newClip] /\
    startOffset newClip = App.currentTime prev /\
    App.currentTime (complete d uuid prev) = App.currentTime prev + d.
Proof.
  intro H. do 2 eexists. split; [reflexivity|].
  cbn. rewrite H. repeat split.
Qed.

(** The cursor lands on the end of the imported clip. *)
Lemma import_moves_cursor_to_clip_end
    (render prev : App.State) (file : App.File) (url uuid : string) (d : Q) :
  exists complete newClip,
    App.handleFileUpload (Some file) url render = Some complete /\
    App.clips (complete d uuid prev) = App.clips prev ++ [newClip] /\
    App.currentTime (complete d uuid prev) ==
      startOffset newClip + (trimEnd newClip - trimStart newClip).
Proof.
  do 2 eexists. split; [reflexivity|]. split; [reflexivity|]. cbn. ring.
Qed.

(** C10, as the claim words it, fails: the file is chosen while the editor
    plays at 0 s and the clock ticks once before the metadata is there.  At
    completion the cursor is at 0.1 s; the clip is placed at 0 s and the
    cursor is set to 10 s, not to 10.1 s. *)
Lemma import_ignores_cursor_at_completion :
  exists complete,
    App.handleFileUpload (Some holiday) "blob:h" statePlaying = Some complete /\
    let atCompletion := App.tick statePlaying in
    let after := complete 10 "h"%string atCompletion in
    App.currentTime atCompletion == 1 # 10 /\
    (exists newClip,
       App.clips after = App.clips atCompletion ++ [newClip] /\
       ~ startOffset newClip == App.currentTime atCompletion) /\
    ~ App.currentTime after == App.currentTime atCompletion + 10.
Proof.
  eexists. split; [reflexivity|]. cbv zeta.
  split; [reflexivity|]. split.
  - eexists. split; [reflexivity|]. vm_compute. discriminate.
  - vm_compute. discriminate.
Qed.

(** ** The trim invariant *)

Lemma drag_commit_trim_ok (m : Timeline.Mode) (clip : Clip)
    (down : Timeline.MouseEvent) (d : Timeline.DragState) :
  trim_ok clip ->
  (d = Timeline.start m clip down \/
   exists e, Timeline.handleMouseMove clip (Timeline.start m clip down) e
               (Some (Timeline.start m clip down)) = Some d) ->
  trim_ok (spread clip (snd (Timeline.handleMouseUp d))).
Proof.
  unfold trim_ok. intros [H0 Hlt] Hor. rewrite spread_commit.
  destruct Hor as [->|[e He]].
  - destruct m; cbn; auto.
  - destruct m.
    + apply move_live in He. destruct He as (-> & _). cbn. auto.
    + apply resize_left_live in He. destruct He as (-> & -> & _). cbn.
      split; minmax_lra.
    + apply resize_right_live in He. destruct He as (-> & -> & _). cbn.
      split; minmax_lra.
Qed.

(** Over the rationals the trim is kept: when the clips of the store have
    distinct ids and each has [0 <= trimStart < trimEnd], each clip of the
    store still has [0 <= trimStart < trimEnd] after a drag commit of any
    mode, a split, a trim nudge or a separate-audio.  The guards of the
    handlers are written for this; [Module Double] has the split in the
    arithmetic of the code. *)
Lemma exact_mutation_keeps_trim_ok (op : Mutation) (ed : Timeline.Editor) :
  unique_ids (App.clips (Timeline.app ed)) ->
  possible op ed ->
  (forall c, In c (App.clips (Timeline.app ed)) -> trim_ok c) ->
  forall c, In c (App.clips (Timeline.app (mutate op ed))) -> trim_ok c.
Proof.
  intros Hu Hposs Hok c Hc.
  destruct op as [m clip down moves|uuid|sd ed'|uuid]; simpl in Hposs, Hc.
  - destruct (in_split _ _ Hposs) as (l1 & l2 & Hsplit).
    rewrite Hsplit in Hu.
    destruct (gesture_commit m clip down moves ed l1 l2 Hsplit Hu)
      as (d & _ & Hor & _ & Hcommit & _).
    rewrite Hcommit in Hc. apply in_app_or in Hc. simpl in Hc.
    destruct Hc as [Hc|[<-|Hc]].
    + apply Hok. rewrite Hsplit. apply in_or_app. now left.
    + apply drag_commit_trim_ok with (m := m) (down := down); [|exact Hor].
      now apply Hok.
    + apply Hok. rewrite Hsplit. apply in_or_app. right. now right.
  - unfold App.click, App.handleSplit in Hc.
    destruct (App.selectedClip (Timeline.app ed)) as [sel|] eqn:S; [|auto].
    apply selectedClip_In in S. destruct S as [Hsel _].
    destruct (Hok sel Hsel) as [H0 Hlt].
    destruct (Qgtb _ _ && Qltb _ _) eqn:G; [|auto].
    apply andb_true_iff in G. destruct G as [Hlo Hhi].
    apply Qgtb_lt in Hlo. apply Qltb_lt in Hhi.
    cbn [App.setSelectedClipId App.setClips App.clips] in Hc.
    apply in_app_or in Hc. destruct Hc as [Hc|[<-|[]]].
    + apply map_by_id_In in Hc. destruct Hc as [Hc|(c0 & _ & _ & ->)]; [auto|].
      unfold trim_ok. cbn. split; lra.
    + unfold trim_ok. cbn. split; lra.
  - unfold App.click, App.adjustTrim in Hc.
    destruct (App.selectedClip (Timeline.app ed)) as [sel|] eqn:S; [|auto].
    destruct (Qltb _ _) eqn:G; [|auto].
    apply Qltb_lt in G.
    cbn [App.setClips App.clips] in Hc.
    apply map_by_id_In in Hc. destruct Hc as [Hc|(c0 & _ & _ & ->)]; [auto|].
    unfold trim_ok. cbn. split; [apply Q.le_max_l|exact G].
  - unfold App.click, App.handleSeparateAudio in Hc.
    destruct (App.selectedClip (Timeline.app ed)) as [sel|] eqn:S; [|auto].
    apply selectedClip_In in S. destruct S as [Hsel _].
    destruct (negb _); [auto|].
    cbn [App.setClips App.clips] in Hc.
    apply in_app_or in Hc. destruct Hc as [Hc|[<-|[]]].
    + apply map_by_id_In in Hc. destruct Hc as [Hc|(c0 & _ & _ & ->)]; [auto|].
      exact (Hok sel Hsel).
    + exact (Hok sel Hsel).
Qed.

(** * Further properties of the player *)

Lemma pool_has_set_iff (pool : Player.AudioPool) (i j : string) (el : Player.MediaElement) :
  Player.pool_has (Player.pool_set pool i el) j = true <->
  j = i \/ Player.pool_has pool j = true.
Proof.
  rewrite !pool_has_get.
  destruct (string_dec i j) as [->|Hij].
  - rewrite pool_get_set_same. split; eauto.
  - rewrite pool_get_set_other by assumption.
    split; [eauto|]. intros [->|H]; [contradiction|exact H].
Qed.

Lemma pool_has_In (pool : Player.AudioPool) (i : string) :
  Player.pool_has pool i = true <-> In i (map fst pool).
Proof.
  unfold Player.pool_has. rewrite existsb_exists, in_map_iff.
  split.
  - intros ([k e] & Hin & Heq). apply String.eqb_eq in Heq. simpl in Heq.
    subst. exists (i, e). auto.
  - intros ([k e] & Heq & Hin). simpl in Heq. subst.
    exists (i, e). split; [exact Hin|apply String.eqb_refl].
Qed.

Lemma manageAudioPool_adds_wanted (ids : list string) (i : string)
    (l : list Clip) (kept : Player.AudioPool) :
  (forall c, In c l -> In (id c) ids) ->
  (Player.pool_has kept i = true -> In i ids) ->
  Player.pool_has
    (fold_left (fun p clip => if Player.pool_has p (id clip) then p
                              else Player.pool_set p (id clip) Player.new_element)
               l kept) i = true ->
  In i ids.
Proof.
  revert kept. induction l as [|x l IH]; simpl; intros kept Hl Hkept H; [auto|].
  apply IH in H; [exact H|auto|].
  destruct (Player.pool_has kept (id x)); [exact Hkept|].
  rewrite pool_has_set_iff. intros [->|Hk]; auto.
Qed.

Lemma manageAudioPool_has_iff (activeAudio : list Clip) (pool : Player.AudioPool)
    (i : string) :
  Player.pool_has (Player.manageAudioPool activeAudio pool) i = true <->
  In i (map id activeAudio).
Proof.
  split.
  - unfold Player.manageAudioPool.
    apply manageAudioPool_adds_wanted.
    + intros c Hc. now apply in_map.
    + rewrite pool_has_In, in_map_iff.
      intros ([k e] & Heq & Hin). simpl in Heq. subst k.
      apply filter_In in Hin. destruct Hin as [_ Hex].
      apply existsb_exists in Hex. destruct Hex as (j & Hj & Heq).
      apply String.eqb_eq in Heq. simpl in Heq. now subst.
  - rewrite in_map_iff. intros (c & <- & Hc). now apply manageAudioPool_has.
Qed.

Lemma syncAudioClip_has_iff (t : Q) (playing : bool) (pool : Player.AudioPool)
    (clip : Clip) (i : string) :
  Player.pool_has (Player.syncAudioClip t playing pool clip) i = true <->
  Player.pool_has pool i = true.
Proof.
  unfold Player.syncAudioClip.
  destruct (Player.pool_get pool (id clip)) as [aud|] eqn:G; [|tauto].
  rewrite pool_has_set_iff. split; [|auto].
  intros [->|H]; [|exact H]. apply pool_has_get. eauto.
Qed.

Lemma syncAudio_has_iff (l : list Clip) (t : Q) (playing : bool)
    (pool : Player.AudioPool) (i : string) :
  Player.pool_has (Player.syncAudio l t playing pool) i = true <->
  Player.pool_has pool i = true.
Proof.
  unfold Player.syncAudio. revert pool.
  induction l as [|x l IH]; simpl; intro pool; [tauto|].
  now rewrite IH, syncAudioClip_has_iff.
Qed.

Lemma audio_pool_ids (clips : list Clip) (t : Q) (playing : bool)
    (els : Player.Elements) (i : string) :
  Player.pool_has (Player.audioRefs (Player.run_effects clips t playing els)) i = true
  <-> In i (map id (Player.activeAudioClips clips t)).
Proof.
  unfold Player.run_effects. cbn [Player.audioRefs].
  now rewrite syncAudio_has_iff, manageAudioPool_has_iff.
Qed.

(** X1: after the effects of a render the pool holds an audio element for a
    clip id exactly when an audio clip with this id is active: the elements
    of clips that left the active set are gone, whatever the pool held
    before. *)
Theorem audio_pool_follows_active_set (clips : list Clip) (t : Q) (playing : bool)
    (els : Player.Elements) (i : string) :
  Player.pool_has (Player.audioRefs (Player.run_effects clips t playing els)) i = true
  <-> In i (map id (Player.activeAudioClips clips t)).
Proof.
  unfold Player.run_effects. cbn [Player.audioRefs].
  now rewrite syncAudio_has_iff, manageAudioPool_has_iff.
Qed.

(** *** Rendering again with the same props *)

Lemma sync_source_paused (clip : Clip) (t : Q) (playing : bool) (el : Player.MediaElement) :
  Player.paused (Player.sync_source clip t playing el) = negb playing.
Proof.
  unfold Player.sync_source.
  destruct (match Player.data_src el with Some s => _ | None => _ end); simpl;
    destruct playing, (Player.paused el); reflexivity.
Qed.

(** An element that plays the source of the clip, close enough to its
    source time and in the wanted play state, is left alone. *)
Lemma sync_source_settled (clip : Clip) (t : Q) (playing : bool) (el : Player.MediaElement) :
  Player.data_src el = Some (fileUrl clip) ->
  Qabs (Player.el_currentTime el - Player.targetSourceTime clip t) <= 3 # 10 ->
  Player.paused el = negb playing ->
  Player.sync_source clip t playing el = el.
Proof.
  intros Hsrc Hdrift Hp. unfold Player.sync_source.
  rewrite Hsrc, String.eqb_refl.
  apply Qgtb_le in Hdrift. rewrite Hdrift, Hp.
  destruct el, playing; simpl in *; subst; reflexivity.
Qed.

Lemma sync_source_twice (clip : Clip) (t : Q) (playing : bool) (el : Player.MediaElement) :
  Player.sync_source clip t playing (Player.sync_source clip t playing el) =
  Player.sync_source clip t playing el.
Proof.
  apply sync_source_settled.
  - apply sync_source_data_src.
  - apply sync_source_drift.
  - apply sync_source_paused.
Qed.

Lemma syncVideo_twice (top : option Clip) (t : Q) (playing : bool) (vid : Player.MediaElement) :
  Player.syncVideo top t playing (Player.syncVideo top t playing vid) =
  Player.syncVideo top t playing vid.
Proof.
  destruct top as [clip|]; simpl.
  - set (v := Player.sync_source clip t playing vid).
    assert (E : Player.sync_source clip t playing
                  (Player.mkElement (Player.src v) (Player.data_src v)
                     (Player.el_currentTime v) (Player.paused v)
                     (isMuted clip) (Player.el_volume v)) =
                Player.mkElement (Player.src v) (Player.data_src v)
                  (Player.el_currentTime v) (Player.paused v)
                  (isMuted clip) (Player.el_volume v)).
    { apply sync_source_settled; simpl; unfold v.
      - apply sync_source_data_src.
      - apply sync_source_drift.
      - apply sync_source_paused. }
    rewrite E. reflexivity.
  - destruct vid as [s d time p m v]. destruct d as [u|]; simpl; [|reflexivity].
    destruct (String.eqb u "") eqn:E; simpl; [rewrite E|]; reflexivity.
Qed.

Lemma pool_set_same (pool : Player.AudioPool) (i : string) (el : Player.MediaElement) :
  Player.pool_get pool i = Some el -> Player.pool_set pool i el = pool.
Proof.
  unfold Player.pool_get.
  induction pool as [|[k old] rest IH]; simpl; [discriminate|].
  destruct (String.eqb k i) eqn:E; simpl.
  - intro H. injection H as <-. reflexivity.
  - intro H. f_equal. auto.
Qed.

Lemma filter_all {A : Type} (p : A -> bool) (l : list A) :
  (forall x, In x l -> p x = true) -> filter p l = l.
Proof.
  induction l as [|x l IH]; simpl; intro H; [reflexivity|].
  rewrite (H x) by now left. f_equal. auto.
Qed.

Lemma manageAudioPool_settled (activeAudio : list Clip) (pool : Player.AudioPool) :
  (forall i, Player.pool_has pool i = true <-> In i (map id activeAudio)) ->
  Player.manageAudioPool activeAudio pool = pool.
Proof.
  intro H. unfold Player.manageAudioPool.
  rewrite filter_all.
  - assert (Hall : forall c, In c activeAudio -> Player.pool_has pool (id c) = true)
      by (intros c Hc; apply H; now apply in_map).
    clear H. induction activeAudio as [|x l IH]; simpl; [reflexivity|].
    rewrite (Hall x) by now left. apply IH. intros c Hc. apply Hall. now right.
  - intros [k e] Hin. simpl. apply existsb_exists. exists k.
    split; [|apply String.eqb_refl].
    apply H. apply pool_has_In. apply in_map_iff. exists (k, e). auto.
Qed.

Lemma syncAudio_settled (l : list Clip) (t : Q) (playing : bool) (pool : Player.AudioPool) :
  (forall c, In c l -> Player.syncAudioClip t playing pool c = pool) ->
  Player.syncAudio l t playing pool = pool.
Proof.
  unfold Player.syncAudio.
  induction l as [|x l IH]; simpl; intro H; [reflexivity|].
  rewrite (H x) by now left. apply IH. intros c Hc. apply H. now right.
Qed.

(** X2: the effects are idempotent.  Running them a second time for the
    same clips, time and play state leaves the video element and every
    audio element as the first run left them: no reload, no seek, no change
    of the play state. *)
Theorem run_effects_twice (clips : list Clip) (t : Q) (playing : bool)
    (els : Player.Elements) :
  unique_ids clips ->
  Player.run_effects clips t playing (Player.run_effects clips t playing els) =
  Player.run_effects clips t playing els.
Proof.
  intro Hu. unfold Player.run_effects at 1.
  set (after := Player.run_effects clips t playing els).
  assert (Hv : Player.videoRef after =
               Player.syncVideo (Player.topVideoClip clips t) t playing
                 (Player.videoRef els)) by reflexivity.
  rewrite Hv, syncVideo_twice.
  assert (Hmanage : Player.manageAudioPool (Player.activeAudioClips clips t)
                      (Player.audioRefs after) = Player.audioRefs after).
  { apply manageAudioPool_settled. intro i.
    apply audio_pool_ids. }
  rewrite Hmanage.
  assert (Hsync : Player.syncAudio (Player.activeAudioClips clips t) t playing
                    (Player.audioRefs after) = Player.audioRefs after).
  { apply syncAudio_settled. intros c Hc.
    destruct (syncAudio_visited (Player.activeAudioClips clips t) t playing
                (Player.manageAudioPool (Player.activeAudioClips clips t)
                   (Player.audioRefs els)) c)
      as (before & _ & Hafter).
    - now apply unique_ids_filter.
    - exact Hc.
    - now apply manageAudioPool_has.
    - unfold Player.syncAudioClip.
      change (Player.audioRefs after)
        with (Player.syncAudio (Player.activeAudioClips clips t) t playing
                (Player.manageAudioPool (Player.activeAudioClips clips t)
                   (Player.audioRefs els))).
      rewrite Hafter. cbv zeta.
      set (a := Player.sync_source c t playing before).
      rewrite sync_source_settled.
      + simpl. apply pool_set_same. exact Hafter.
      + simpl. apply sync_source_data_src.
      + simpl. apply sync_source_drift.
      + simpl. apply sync_source_paused. }
  rewrite Hsync. reflexivity.
Qed.

(** * Further properties of the store *)

(** ** The total duration and the end of the timeline *)

Lemma totalDuration_fold_ge_acc (l : list Clip) (acc : Q) :
  acc <= fold_left (fun acc clip =>
                      Qmax acc (startOffset clip + (trimEnd clip - trimStart clip)))
                   l acc.
Proof.
  revert acc. induction l as [|x l IH]; simpl; intro acc; [lra|].
  eapply Qle_trans; [|apply IH]. apply Q.le_max_l.
Qed.

Lemma totalDuration_fold_ge_end (l : list Clip) (acc : Q) (c : Clip) :
  In c l ->
  startOffset c + (trimEnd c - trimStart c) <=
  fold_left (fun acc clip =>
               Qmax acc (startOffset clip + (trimEnd clip - trimStart clip)))
            l acc.
Proof.
  revert acc. induction l as [|x l IH]; simpl; intros acc Hin; [contradiction|].
  destruct Hin as [->|Hin]; [|now apply IH].
  eapply Qle_trans; [|apply totalDuration_fold_ge_acc]. apply Q.le_max_r.
Qed.

Lemma totalDuration_nonneg (clips : list Clip) : 0 <= App.totalDuration clips.
Proof. apply totalDuration_fold_ge_acc. Qed.

Lemma totalDuration_ge_end (clips : list Clip) (c : Clip) :
  In c clips ->
  startOffset c + (trimEnd c - trimStart c) <= App.totalDuration clips.
Proof. apply totalDuration_fold_ge_end. Qed.

(** The total duration is 0 or the end of one of the clips. *)
Lemma totalDuration_attained (clips : list Clip) :
  App.totalDuration clips == 0 \/
  exists c, In c clips /\
    App.totalDuration clips == startOffset c + (trimEnd c - trimStart c).
Proof.
  unfold App.totalDuration.
  assert (H : forall l acc,
    let r := fold_left (fun acc clip =>
               Qmax acc (startOffset clip + (trimEnd clip - trimStart clip))) l acc in
    r == acc \/ exists c, In c l /\
                r == startOffset c + (trimEnd c - trimStart c)).
  { induction l as [|x l IH]; simpl; intro acc; [left; reflexivity|].
    destruct (IH (Qmax acc (startOffset x + (trimEnd x - trimStart x))))
      as [E|(c & Hc & E)].
    - destruct (Q.max_spec acc (startOffset x + (trimEnd x - trimStart x)))
        as [[_ M]|[_ M]].
      + right. exists x. split; [now left|]. now rewrite E, M.
      + left. now rewrite E, M.
    - right. exists c. auto. }
  apply H.
Qed.

Lemma filter_none {A : Type} (p : A -> bool) (l : list A) :
  (forall x, In x l -> p x = false) -> filter p l = [].
Proof.
  induction l as [|x l IH]; simpl; intro H; [reflexivity|].
  rewrite (H x) by now left. auto.
Qed.

Lemma nothing_active_from_the_end (clips : list Clip) (t : Q) (wanted : MediaType) :
  App.totalDuration clips <= t ->
  filter (Player.active wanted t) clips = [].
Proof.
  intro Ht. apply filter_none. intros c Hc.
  destruct (Player.active wanted t c) eqn:E; [|reflexivity].
  apply active_iff in E. pose proof (totalDuration_ge_end clips c Hc). lra.
Qed.

(** X3: the go-to-end button puts the cursor on the total duration and
    changes nothing else.  The total duration is 0 or the end of one of the
    clips; it is not negative and not before the end of any clip, so that at
    the cursor no clip is active: the player selects no video clip and no
    audio clip. *)
Theorem seekToEnd_leaves_nothing_active (s : App.State) :
  let s' := App.click App.seekToEnd s in
  App.currentTime s' = App.totalDuration (App.clips s) /\
  App.clips s' = App.clips s /\
  App.isPlaying s' = App.isPlaying s /\
  App.selectedClipId s' = App.selectedClipId s /\
  (App.currentTime s' == 0 \/
   exists c, In c (App.clips s) /\
     App.currentTime s' == startOffset c + (trimEnd c - trimStart c)) /\
  0 <= App.currentTime s' /\
  (forall c, In c (App.clips s) ->
     startOffset c + (trimEnd c - trimStart c) <= App.currentTime s') /\
  Player.topVideoClip (App.clips s') (App.currentTime s') = None /\
  Player.activeAudioClips (App.clips s') (App.currentTime s') = [].
Proof.
  cbn. do 4 (split; [reflexivity|]).
  split; [apply totalDuration_attained|].
  split; [apply totalDuration_nonneg|].
  split; [apply totalDuration_ge_end|].
  unfold Player.topVideoClip, Player.activeVideoClips, Player.activeAudioClips.
  rewrite !nothing_active_from_the_end by apply Qle_refl.
  split; reflexivity.
Qed.

(** ** The clock *)

Lemma ticks_while_paused (n : nat) (s : App.State) :
  App.isPlaying s = false -> Nat.iter n App.tick s = s.
Proof.
  intro H. induction n as [|n IH]; simpl; [reflexivity|].
  rewrite IH. unfold App.tick, Player.clock_tick. rewrite H.
  destruct s; reflexivity.
Qed.

(** X4: nothing stops the clock.  While the editor plays, any number of
    ticks leaves it playing, with the same clips and the same selection, and
    never moves the cursor back; once the cursor is at or past the total
    duration the editor goes on playing with no clip active. *)
Theorem ticks_while_playing (n : nat) (s : App.State) :
  App.isPlaying s = true ->
  let s' := Nat.iter n App.tick s in
  App.currentTime s <= App.currentTime s' /\
  App.isPlaying s' = true /\
  App.clips s' = App.clips s /\
  App.selectedClipId s' = App.selectedClipId s /\
  (App.totalDuration (App.clips s) <= App.currentTime s ->
   Player.topVideoClip (App.clips s') (App.currentTime s') = None /\
   Player.activeAudioClips (App.clips s') (App.currentTime s') = []).
Proof.
  intros H s'. subst s'.
  assert (Hn : App.currentTime s <= App.currentTime (Nat.iter n App.tick s) /\
               App.isPlaying (Nat.iter n App.tick s) = true /\
               App.clips (Nat.iter n App.tick s) = App.clips s /\
               App.selectedClipId (Nat.iter n App.tick s) = App.selectedClipId s).
  { induction n as [|n IH].
    - simpl. repeat split; try reflexivity; try assumption. apply Qle_refl.
    - rewrite Nat.iter_succ.
      set (sn := Nat.iter n App.tick s) in *.
      destruct IH as (Ht & Hp & Hc & Hs).
      unfold App.tick, Player.clock_tick. rewrite Hp.
      cbn [App.setCurrentTime App.currentTime App.isPlaying App.clips
           App.selectedClipId].
      repeat split; try assumption. lra. }
  destruct Hn as (Ht & Hp & Hc & Hs).
  repeat split; try assumption.
  - unfold Player.topVideoClip, Player.activeVideoClips.
    rewrite Hc, nothing_active_from_the_end by lra. reflexivity.
  - unfold Player.activeAudioClips.
    rewrite Hc, nothing_active_from_the_end by lra. reflexivity.
Qed.

Lemma ticks_while_playing_witness :
  App.isPlaying (Nat.iter 30 App.tick statePlaying) = true /\
  Player.topVideoClip (App.clips (Nat.iter 30 App.tick statePlaying))
    (App.currentTime (Nat.iter 30 App.tick statePlaying)) = None.
Proof.
  destruct (ticks_while_playing 30 statePlaying) as (_ & Hp & _ & _ & Hend);
    [reflexivity|].
  split; [exact Hp|]. apply Hend. vm_compute. discriminate.
Defined.

Lemma run_effects_twice_witness :
  Player.run_effects [clipA; narration] 3 true
    (Player.run_effects [clipA; narration] 3 true Player.mounted) =
  Player.run_effects [clipA; narration] 3 true Player.mounted.
Proof.
  apply run_effects_twice.
  repeat constructor; simpl; intuition discriminate.
Defined.

(** ** Delete and update *)

Lemma unique_ids_split (l1 l2 : list Clip) (c : Clip) :
  unique_ids (l1 ++ c :: l2) ->
  ~ In (id c) (map id l1) /\ ~ In (id c) (map id l2).
Proof.
  unfold unique_ids. rewrite map_app. simpl. intro Hnd.
  apply NoDup_remove_2 in Hnd.
  split; intro H; apply Hnd; apply in_or_app; auto.
Qed.

Lemma filter_other_ids (i : string) (l : list Clip) :
  ~ In i (map id l) ->
  filter (fun c => negb (String.eqb (id c) i)) l = l.
Proof.
  intro H. apply filter_all. intros c Hc.
  destruct (String.eqb (id c) i) eqn:E; [|reflexivity].
  apply String.eqb_eq in E. exfalso. apply H. subst. now apply in_map.
Qed.

(** X5: delete removes the selected clip from the store, leaves the other
    clips in their order and clears the selection; the cursor and the play
    state are unchanged. *)
Theorem delete_removes_selected_clip (s : App.State) (sel : Clip)
    (l1 l2 : list Clip) :
  App.clips s = l1 ++ sel :: l2 ->
  unique_ids (l1 ++ sel :: l2) ->
  App.selectedClipId s = Some (id sel) ->
  id sel <> ""%string ->
  App.click App.handleDeleteClip s =
  App.mkState (l1 ++ l2) (App.currentTime s) (App.isPlaying s) None.
Proof.
  intros Hc Hu Hs Hne. unfold App.click, App.handleDeleteClip.
  rewrite Hs. apply String.eqb_neq in Hne. rewrite Hne.
  unfold App.setSelectedClipId, App.setClips. cbn [App.clips App.currentTime App.isPlaying].
  f_equal. rewrite Hc, filter_app. simpl. rewrite String.eqb_refl. simpl.
  destruct (unique_ids_split l1 l2 sel Hu) as [H1 H2].
  now rewrite !filter_other_ids.
Qed.

Lemma delete_removes_selected_clip_witness :
  App.click App.handleDeleteClip stateAV = App.mkState [clipA] 7 false None.
Proof.
  apply (delete_removes_selected_clip stateAV clipV [clipA] []).
  - reflexivity.
  - repeat constructor; simpl; intuition discriminate.
  - reflexivity.
  - discriminate.
Defined.

(** Delete tests the selection for truthiness: without a selection, or with
    the empty id selected, nothing happens. *)
Lemma delete_without_selection (s : App.State) :
  App.selectedClipId s = None \/ App.selectedClipId s = Some ""%string ->
  App.click App.handleDeleteClip s = s.
Proof.
  unfold App.click, App.handleDeleteClip. intros [H|H]; rewrite H; reflexivity.
Qed.

(** X6: an update for an id that no clip of the store has changes
    nothing, whatever the entries. *)
Theorem update_of_absent_id_is_ignored (s : App.State) (i : string)
    (updates : Partial_Clip) :
  ~ In i (map id (App.clips s)) ->
  App.click (App.handleUpdateClip i updates) s = s.
Proof.
  intro H. unfold App.click, App.handleUpdateClip, App.setClips.
  rewrite map_by_id_other by exact H. destruct s; reflexivity.
Qed.

Lemma update_of_absent_id_is_ignored_witness :
  App.click (App.handleUpdateClip "zz" [trimStart_is 9; trimEnd_is 1]) stateAV
  = stateAV.
Proof.
  apply update_of_absent_id_is_ignored. simpl. intuition discriminate.
Defined.

(** ** Split and separate-audio, seen by the player *)

(** X8: the audio clip that separate-audio creates follows the video clip
    it comes from: it has the same source, it is an active audio clip
    exactly when the video clip is an active video clip, and it plays at
    the same source time. *)
Theorem separated_audio_follows_video (s : App.State) (sel : Clip) (uuid : string)
    (l1 l2 : list Clip) :
  App.clips s = l1 ++ sel :: l2 ->
  unique_ids (l1 ++ sel :: l2) ->
  App.selectedClipId s = Some (id sel) ->
  type sel = video ->
  exists mutedVideo audioClip,
    App.clips (App.click (App.handleSeparateAudio uuid) s) =
      l1 ++ mutedVideo :: l2 ++ [audioClip] /\
    fileUrl audioClip = fileUrl sel /\
    isMuted mutedVideo = true /\ isMuted audioClip = false /\
    forall u : Q,
      Player.active audio u audioClip = Player.active video u sel /\
      Player.active video u mutedVideo = Player.active video u sel /\
      Player.targetSourceTime audioClip u = Player.targetSourceTime sel u /\
      (In sel (Player.activeVideoClips (App.clips s) u) ->
       In audioClip
          (Player.activeAudioClips
             (App.clips (App.click (App.handleSeparateAudio uuid) s)) u)).
Proof.
  intros Hc Hu Hs Hv.
  unfold App.click, App.handleSeparateAudio.
  rewrite (selectedClip_unique s sel l1 l2 Hc Hu Hs), Hv.
  cbn [MediaType_eqb negb App.setClips App.clips spread fold_left assign
       id fileUrl type name duration startOffset trackIndex trimStart
       trimEnd volume isMuted thumbnail].
  rewrite Hc, (map_by_id_split _ l1 l2 sel Hu), <- app_assoc.
  do 2 eexists. split; [reflexivity|]. cbn [fileUrl isMuted].
  repeat split.
  - unfold Player.active. cbn [type startOffset trimStart trimEnd].
    now rewrite Hv.
  - intro Hin. apply activeVideoClips_iff in Hin.
    destruct Hin as (_ & _ & Hlo & Hhi).
    apply activeAudioClips_iff. cbn [type startOffset trimStart trimEnd].
    split; [|auto].
    apply in_or_app. right. right. apply in_or_app. right. now left.
Qed.

Lemma separated_audio_follows_video_witness :
  exists mutedVideo audioClip,
    App.clips (App.click (App.handleSeparateAudio "x") stateA4) =
      [mutedVideo; audioClip] /\
    Player.activeAudioClips
      (App.clips (App.click (App.handleSeparateAudio "x") stateA4)) 4
    = [audioClip].
Proof.
  destruct (separated_audio_follows_video stateA4 clipA "x" [] [])
    as (mutedVideo & audioClip & H & _).
  - reflexivity.
  - repeat constructor; simpl; intuition discriminate.
  - reflexivity.
  - reflexivity.
  - exists mutedVideo, audioClip. split; [exact H|].
    vm_compute in H. injection H as <- <-. reflexivity.
Defined.

(** ** Import and generation *)

(** X9: when an import completes, the cursor is put on the end of the new
    clip, where the clip is no longer active: the player does not select
    the clip that was just imported. *)
Theorem imported_clip_is_not_active_at_the_cursor
    (render prev : App.State) (file : App.File) (url uuid : string) (d : Q) :
  exists newClip,
    let after := App.onloadedmetadata file url d uuid render prev in
    App.clips after = App.clips prev ++ [newClip] /\
    App.currentTime after ==
      startOffset newClip + (trimEnd newClip - trimStart newClip) /\
    (forall wanted, Player.active wanted (App.currentTime after) newClip = false) /\
    Player.topVideoClip (App.clips after) (App.currentTime after) <> Some newClip /\
    ~ In newClip (Player.activeAudioClips (App.clips after) (App.currentTime after)).
Proof.
  eexists. cbv zeta. split; [reflexivity|].
  assert (E : forall wanted,
    Player.active wanted
      (App.currentTime (App.onloadedmetadata file url d uuid render prev))
      (mkClip uuid url
         (if String.prefix "audio" (App.file_type file) then audio else video)
         (App.file_name file) d (App.currentTime render) 0%Z 0 d 1 false None)
    = false).
  { intro wanted. apply not_active_at_end. cbn. ring. }
  split; [cbn; ring|]. split; [exact E|]. split.
  - intro H.
    pose proof (topVideoClip_highest_track
                  (App.clips (App.onloadedmetadata file url d uuid render prev))
                  (App.currentTime (App.onloadedmetadata file url d uuid render prev)))
      as T.
    rewrite H in T. destruct T as [T _].
    apply filter_In in T. destruct T as [_ T]. rewrite E in T. discriminate.
  - intro H. apply filter_In in H. destruct H as [_ H].
    rewrite E in H. discriminate.
Qed.

(** X10: the clip a generation adds when its metadata is loaded has a trim
    of positive length that spans the whole source, even if the element
    reports the duration 0, which is replaced by 5; it is placed at the
    cursor the handler saw, the cursor itself is not moved, and the dialog
    is closed with an empty prompt. *)
Theorem generated_clip_spans_its_source
    (url uuid : string) (tempEl_duration : Q) (render prev : App.Session) :
  0 <= tempEl_duration ->
  exists newClip,
    let after := App.generated_onloadedmetadata url uuid tempEl_duration render prev in
    App.clips (App.store after) = App.clips (App.store prev) ++ [newClip] /\
    trimStart newClip = 0 /\ trimEnd newClip = duration newClip /\
    0 < duration newClip /\
    (~ tempEl_duration == 0 -> duration newClip = tempEl_duration) /\
    (tempEl_duration == 0 -> duration newClip = 5) /\
    startOffset newClip = App.currentTime (App.store render) /\
    App.currentTime (App.store after) = App.currentTime (App.store prev) /\
    App.modal after = App.mkModal false "" (App.aiMode (App.modal prev)) false.
Proof.
  intro Hd. eexists. cbv zeta. unfold App.generated_onloadedmetadata.
  split; [reflexivity|]. cbn.
  destruct (Qeq_bool tempEl_duration 0) eqn:E.
  - apply Qeq_bool_iff in E. repeat split; try reflexivity; tauto.
  - apply Qeq_bool_neq in E. repeat split; try reflexivity; try tauto; lra.
Qed.

Lemma generated_clip_spans_its_source_witness :
  exists newClip,
    App.clips (App.store
      (App.generated_onloadedmetadata "blob:g" "g" 0 sessionVoice sessionVoice))
      = [newClip] /\
    trimEnd newClip = 5 /\ type newClip = audio.
Proof.
  destruct (generated_clip_spans_its_source "blob:g" "g" 0 sessionVoice sessionVoice)
    as (newClip & H & _ & He & _ & _ & H5 & _).
  - discriminate.
  - exists newClip. split; [exact H|].
    split; [rewrite He; apply H5; reflexivity|].
    vm_compute in H. injection H as <-. reflexivity.
Defined.

(** X11: the one-second fallback of the audio mode does not disarm the
    metadata callback.  When the element has loaded nothing after a second
    and its metadata arrives later, both run, and one generation leaves two
    clips in the store: one of 10 s and one of the duration reported. *)
Theorem generation_fallback_adds_a_second_clip
    (url uuid1 uuid2 : string) (d : Q) (render prev : App.Session) :
  exists fallback loaded,
    App.clips (App.store
      (App.generated_onloadedmetadata url uuid2 d render
         (App.generated_timeout url uuid1 0 render prev))) =
      App.clips (App.store prev) ++ [fallback; loaded] /\
    fileUrl fallback = url /\ fileUrl loaded = url /\
    id fallback = uuid1 /\ id loaded = uuid2 /\
    duration fallback = 10 /\
    startOffset fallback = startOffset loaded.
Proof.
  do 2 eexists.
  unfold App.generated_onloadedmetadata, App.generated_timeout. cbn.
  rewrite <- app_assoc. split; [reflexivity|]. repeat split.
Qed.

(** With anything loaded after the second, the fallback adds nothing. *)
Lemma generation_fallback_when_loading (url uuid : string) (readyState : Z)
    (render prev : App.Session) :
  readyState <> 0%Z ->
  App.generated_timeout url uuid readyState render prev = prev.
Proof.
  intro H. unfold App.generated_timeout.
  apply Z.eqb_neq in H. now rewrite H.
Qed.

(** * Further properties of the timeline *)

(** ** Scrubbing *)

Lemma seek_nonneg (ref : option Timeline.Container) (clientX : Q) (s : App.State) :
  0 <= App.currentTime s ->
  0 <= App.currentTime (Timeline.seek ref clientX s).
Proof.
  intro H. unfold Timeline.seek, Timeline.updateScrubPosition.
  destruct ref as [c|]; [|exact H]. cbn. apply Q.le_max_l.
Qed.

(** Left of the origin of the content a scrub seeks to 0. *)
Lemma scrub_left_of_content (c : Timeline.Container) (clientX : Q) (s : App.State) :
  clientX <= Timeline.rect_left c - Timeline.scrollLeft c ->
  App.currentTime (Timeline.seek (Some c) clientX s) == 0.
Proof.
  intro H. cbn. unfold Timeline.PIXELS_PER_SECOND.
  apply Q.max_l. apply Qle_shift_div_r; lra.
Qed.



(** A scrub gesture: pointer down, moves, release.  Moves after the release
    do nothing. *)
Lemma scrub_move_after_release (ref : option Timeline.Container)
    (e : Timeline.MouseEvent) (s : Timeline.Scrubber) :
  Timeline.handleScrubMove ref e (Timeline.handleScrubUp s) =
  Timeline.handleScrubUp s.
Proof.
  unfold Timeline.handleScrubMove, Timeline.handleScrubUp.
  destruct (Timeline.isScrubbing s) eqn:E; simpl; [reflexivity|].
  now rewrite E.
Qed.

(** ** What is drawn *)

(** The drag state of a drag in progress on a clip of a store with distinct
    ids: its mode, and the live values its mode leaves alone. *)
Lemma live_drag_state (m : Timeline.Mode) (clip : Clip) (down : Timeline.MouseEvent)
    (d : Timeline.DragState) :
  (d = Timeline.start m clip down \/
   exists e, Timeline.handleMouseMove clip (Timeline.start m clip down) e
               (Some (Timeline.start m clip down)) = Some d) ->
  Timeline.mode d = m /\
  (m <> Timeline.move -> Timeline.currentTrackIndex d = trackIndex clip) /\
  (m <> Timeline.resize_left -> Timeline.currentTrimStart d = trimStart clip) /\
  (m <> Timeline.resize_right -> Timeline.currentTrimEnd d = trimEnd clip) /\
  (m = Timeline.resize_right -> Timeline.currentStartOffset d = startOffset clip).
Proof.
  intros [->|[e He]].
  - cbn. auto.
  - destruct m.
    + apply move_live in He. destruct He as (Hm & _ & _ & H1 & H2).
      repeat split; try assumption; intros; try congruence; discriminate.
    + apply resize_left_live in He. destruct He as (Hm & _ & _ & H1 & H2).
      repeat split; try assumption; intros; try congruence; discriminate.
    + apply resize_right_live in He. destruct He as (Hm & _ & H0 & H1 & H2).
      repeat split; try assumption; intros; try congruence.
Qed.

(** X13: the release does not move anything on screen.  What [ClipItem]
    computes for the dragged clip from the store after the commit is what it
    computed from the drag state just before the release, and the other
    clips are drawn the same during and after the drag. *)
Theorem release_keeps_what_is_drawn (m : Timeline.Mode) (clip : Clip)
    (down : Timeline.MouseEvent) (moves : list Timeline.MouseEvent)
    (ed : Timeline.Editor) (l1 l2 : list Clip) (selected : option string) :
  App.clips (Timeline.app ed) = l1 ++ clip :: l2 ->
  unique_ids (l1 ++ clip :: l2) ->
  exists d committed,
    Timeline.dragState (Timeline.dragging m clip down moves ed) = Some d /\
    App.clips (Timeline.app (Timeline.gesture m clip down moves ed)) =
      l1 ++ committed :: l2 /\
    Timeline.ClipItem None selected committed =
      Timeline.ClipItem (Some d) selected clip /\
    forall other, In other (l1 ++ l2) ->
      Timeline.ClipItem None selected other =
      Timeline.ClipItem (Some d) selected other.
Proof.
  intros Hclips Hu.
  destruct (gesture_commit m clip down moves ed l1 l2 Hclips Hu)
    as (d & Hds & Hor & Hid & Hcommit & _).
  exists d, (spread clip (snd (Timeline.handleMouseUp d))).
  split; [exact Hds|]. split; [exact Hcommit|].
  destruct (live_drag_state m clip down d Hor) as (Hm & Ht & Hs & He & Ho).
  split.
  - rewrite spread_commit. unfold Timeline.ClipItem.
    rewrite Hid, String.eqb_refl, Hm.
    destruct m; cbn [id startOffset trackIndex trimStart trimEnd].
    + rewrite Hs, He by discriminate. reflexivity.
    + rewrite He by discriminate. reflexivity.
    + rewrite Hs, Ho by (reflexivity || discriminate). reflexivity.
  - intros other Hin. unfold Timeline.ClipItem. rewrite Hid.
    destruct (String.eqb (id clip) (id other)) eqn:E; [|reflexivity].
    apply String.eqb_eq in E. exfalso.
    destruct (unique_ids_split l1 l2 clip Hu) as [H1 H2].
    apply in_app_or in Hin. rewrite E in H1, H2.
    destruct Hin as [Hin|Hin]; [apply H1|apply H2]; now apply in_map.
Qed.

Lemma release_keeps_what_is_drawn_witness :
  exists d committed,
    Timeline.dragState
      (Timeline.dragging Timeline.resize_left clipA (pointer 0 0)
         [pointer 60 0] editorA) = Some d /\
    App.clips (Timeline.app
      (Timeline.gesture Timeline.resize_left clipA (pointer 0 0)
         [pointer 60 0] editorA)) = [committed] /\
    Timeline.ClipItem None None committed = Timeline.ClipItem (Some d) None clipA.
Proof.
  destruct (release_keeps_what_is_drawn Timeline.resize_left clipA (pointer 0 0)
              [pointer 60 0] editorA [] [] None)
    as (d & committed & H1 & H2 & H3 & _).
  - reflexivity.
  - repeat constructor; simpl; intuition discriminate.
  - exists d, committed. auto.
Defined.

Lemma MediaType_eqb_eq (a b : MediaType) : MediaType_eqb a b = true <-> a = b.
Proof. destruct a, b; simpl; split; congruence. Qed.

(** X14: a clip is listed in the lane [trackIdx] of a kind exactly when it
    is a clip of the store of this kind that [ClipItem] draws on the track
    [trackIdx]: a clip being moved sits in the lane it hovers over and in no
    other, and a lane never holds a clip of the other kind. *)
Theorem lane_holds_clips_drawn_on_it (dragState : option Timeline.DragState)
    (clips : list Clip) (wanted : MediaType) (trackIdx : Z)
    (selected : option string) (c : Clip) :
  In c (Timeline.filteredTrackClips dragState clips wanted trackIdx) <->
  In c clips /\ type c = wanted /\
  Timeline.view_trackIndex (Timeline.ClipItem dragState selected c) = trackIdx.
Proof.
  unfold Timeline.filteredTrackClips, Timeline.ClipItem, Timeline.isDragging.
  cbn [Timeline.view_trackIndex]. rewrite !filter_In, MediaType_eqb_eq.
  destruct dragState as [d|].
  - destruct (String.eqb (Timeline.clipId d) (id c)).
    + destruct (Timeline.mode d); rewrite Z.eqb_eq; tauto.
    + rewrite andb_true_iff, MediaType_eqb_eq, Z.eqb_eq. tauto.
  - rewrite andb_true_iff, MediaType_eqb_eq, Z.eqb_eq. tauto.
Qed.

(** The three lanes of a kind are the tracks 0, 1 and 2. *)
Lemma renderTracks_lanes (dragState : option Timeline.DragState)
    (clips : list Clip) (wanted : MediaType) :
  map fst (Timeline.renderTracks dragState clips wanted) = [0; 1; 2]%Z.
Proof. reflexivity. Qed.

(** * What holds in every state of a session *)

(** ** One edit *)

(** The state of [App] after a whole gesture on a clip of a store with
    distinct ids. *)
Lemma gesture_result (m : Timeline.Mode) (clip : Clip) (down : Timeline.MouseEvent)
    (moves : list Timeline.MouseEvent) (ed : Timeline.Editor) (l1 l2 : list Clip) :
  App.clips (Timeline.app ed) = l1 ++ clip :: l2 ->
  unique_ids (l1 ++ clip :: l2) ->
  exists d,
    (d = Timeline.start m clip down \/
     exists e, Timeline.handleMouseMove clip (Timeline.start m clip down) e
                 (Some (Timeline.start m clip down)) = Some d) /\
    Timeline.app (Timeline.gesture m clip down moves ed) =
      App.mkState (l1 ++ spread clip (snd (Timeline.handleMouseUp d)) :: l2)
                  (App.currentTime (Timeline.app ed))
                  (App.isPlaying (Timeline.app ed))
                  (Some (id clip)).
Proof.
  intros Hclips Hu.
  destruct (gesture_commit m clip down moves ed l1 l2 Hclips Hu)
    as (d & Hds & Hor & Hid & Hcommit & _).
  exists d. split; [exact Hor|].
  destruct (dragging_in_progress m clip down moves ed) as [Happ _].
  assert (Hfind : find_by_id (Some (id clip)) (App.clips (Timeline.app ed)) = Some clip).
  { rewrite Hclips. apply find_by_id_unique; [exact Hu|].
    apply in_or_app. right. now left. }
  rewrite <- Hcommit.
  unfold Timeline.gesture, Timeline.mouseup. rewrite Hds, Hid, Happ.
  cbn [App.clips App.setSelectedClipId]. rewrite Hfind.
  reflexivity.
Qed.

Lemma spread_commit_keeps (d : Timeline.DragState) (c : Clip) :
  let c' := spread c (snd (Timeline.handleMouseUp d)) in
  id c' = id c /\ type c' = type c /\ volume c' = volume c /\
  isMuted c' = isMuted c /\ duration c' = duration c /\
  (Timeline.mode d <> Timeline.move -> trackIndex c' = trackIndex c) /\
  (Timeline.mode d = Timeline.move -> trackIndex c' = Timeline.currentTrackIndex d).
Proof.
  cbv zeta. rewrite spread_commit.
  destruct (Timeline.mode d); cbn; repeat split; intros; congruence.
Qed.

Lemma selectedClip_split (s : App.State) (sel : Clip) :
  App.selectedClip s = Some sel ->
  exists l1 l2, App.clips s = l1 ++ sel :: l2 /\
                App.selectedClipId s = Some (id sel).
Proof.
  intro H. apply selectedClip_In in H. destruct H as [Hin Hs].
  destruct (in_split _ _ Hin) as (l1 & l2 & E). eauto.
Qed.

Lemma unique_ids_replace (l1 l2 : list Clip) (x y : Clip) :
  id y = id x -> unique_ids (l1 ++ x :: l2) -> unique_ids (l1 ++ y :: l2).
Proof.
  unfold unique_ids. rewrite !map_app. simpl. now intros ->.
Qed.

Lemma unique_ids_append (l : list Clip) (c : Clip) :
  unique_ids l -> ~ In (id c) (map id l) -> unique_ids (l ++ [c]).
Proof.
  unfold unique_ids. rewrite map_app. simpl. intros Hl Hc.
  apply NoDup_app; [exact Hl|repeat constructor; simpl; tauto|].
  intros i Hi [<-|[]]. contradiction.
Qed.

Lemma ids_replace (l1 l2 : list Clip) (x y : Clip) :
  id y = id x -> map id (l1 ++ y :: l2) = map id (l1 ++ x :: l2).
Proof. rewrite !map_app. simpl. now intros ->. Qed.

Lemma unique_ids_In_eq (l : list Clip) (a b : Clip) :
  unique_ids l -> In a l -> In b l -> id a = id b -> a = b.
Proof.
  intros Hu Ha Hb E.
  destruct (in_split _ _ Ha) as (l1 & l2 & ->).
  destruct (unique_ids_split l1 l2 a Hu) as [H1 H2].
  apply in_app_or in Hb. simpl in Hb.
  destruct Hb as [Hb|[Hb|Hb]]; [|auto|]; exfalso; [apply H1|apply H2];
    rewrite E; now apply in_map.
Qed.

(** A property of clips that each of the four ways an edit derives a clip
    from a clip of the store keeps is kept by every edit. *)
Section EditKeeps.
Variable P : Clip -> Prop.

Hypothesis commit_keeps :
  forall (m : Timeline.Mode) (clip : Clip) (down : Timeline.MouseEvent)
         (d : Timeline.DragState),
    P clip ->
    (d = Timeline.start m clip down \/
     exists e, Timeline.handleMouseMove clip (Timeline.start m clip down) e
                 (Some (Timeline.start m clip down)) = Some d) ->
    P (spread clip (snd (Timeline.handleMouseUp d))).

Hypothesis split_keeps :
  forall (sel : Clip) (t : Q) (uuid : string),
    P sel ->
    startOffset sel < t ->
    t < startOffset sel + (trimEnd sel - trimStart sel) ->
    P (spread sel [trimEnd_is (trimStart sel + (t - startOffset sel))]) /\
    P (spread sel [id_is uuid; startOffset_is t;
                   trimStart_is (trimStart sel + (t - startOffset sel));
                   trackIndex_is (trackIndex sel)]).

Hypothesis trim_keeps :
  forall (sel : Clip) (startDelta endDelta : Q),
    P sel ->
    Qmax 0 (trimStart sel + startDelta) <
      Qmin (duration sel) (trimEnd sel + endDelta) ->
    P (spread sel [trimStart_is (Qmax 0 (trimStart sel + startDelta));
                   trimEnd_is (Qmin (duration sel) (trimEnd sel + endDelta))]).

Hypothesis separate_keeps :
  forall (sel : Clip) (uuid : string),
    P sel -> type sel = video ->
    P (spread sel [isMuted_is true]) /\
    P (spread sel [id_is uuid; type_is audio;
                   name_is ("Audio from " ++ name sel)%string;
                   trackIndex_is 0%Z; isMuted_is false]).

Lemma edit_keeps (op : Mutation) (st : App.State) :
  unique_ids (App.clips st) ->
  possible op (Timeline.mkEditor st None) ->
  (forall c, In c (App.clips st) -> P c) ->
  forall c, In c (App.clips (Timeline.app (mutate op (Timeline.mkEditor st None)))) ->
            P c.
Proof.
  intros Hu Hposs Hok c Hc.
  destruct op as [m clip down moves|uuid|sd ed'|uuid]; simpl in Hposs, Hc.
  - destruct (in_split _ _ Hposs) as (l1 & l2 & Hsplit).
    rewrite Hsplit in Hu.
    destruct (gesture_commit m clip down moves (Timeline.mkEditor st None)
                l1 l2 Hsplit Hu) as (d & _ & Hor & _ & Hcommit & _).
    rewrite Hcommit in Hc. apply in_app_or in Hc. simpl in Hc.
    destruct Hc as [Hc|[<-|Hc]].
    + apply Hok. rewrite Hsplit. apply in_or_app. now left.
    + apply commit_keeps with (m := m) (down := down); [|exact Hor].
      now apply Hok.
    + apply Hok. rewrite Hsplit. apply in_or_app. right. now right.
  - unfold App.click, App.handleSplit in Hc.
    destruct (App.selectedClip st) as [sel|] eqn:S; [|auto].
    apply selectedClip_In in S. destruct S as [Hsel _].
    destruct (Qgtb _ _ && Qltb _ _) eqn:G; [|auto].
    apply andb_true_iff in G. destruct G as [Hlo Hhi].
    apply Qgtb_lt in Hlo. apply Qltb_lt in Hhi.
    destruct (split_keeps sel (App.currentTime st) uuid (Hok sel Hsel) Hlo Hhi)
      as [H1 H2].
    cbn [App.setSelectedClipId App.setClips App.clips] in Hc.
    apply in_app_or in Hc. destruct Hc as [Hc|[<-|[]]]; [|exact H2].
    apply map_by_id_In in Hc. destruct Hc as [Hc|(c0 & _ & _ & ->)]; auto.
  - unfold App.click, App.adjustTrim in Hc.
    destruct (App.selectedClip st) as [sel|] eqn:S; [|auto].
    apply selectedClip_In in S. destruct S as [Hsel _].
    destruct (Qltb _ _) eqn:G; [|auto].
    apply Qltb_lt in G.
    cbn [App.setClips App.clips] in Hc.
    apply map_by_id_In in Hc. destruct Hc as [Hc|(c0 & Hc0 & Hid & ->)]; [auto|].
    rewrite (unique_ids_In_eq _ c0 sel Hu Hc0 Hsel Hid).
    apply trim_keeps; auto.
  - unfold App.click, App.handleSeparateAudio in Hc.
    destruct (App.selectedClip st) as [sel|] eqn:S; [|auto].
    apply selectedClip_In in S. destruct S as [Hsel _].
    destruct (MediaType_eqb (type sel) video) eqn:T; simpl in Hc; [|auto].
    apply MediaType_eqb_eq in T.
    destruct (separate_keeps sel uuid (Hok sel Hsel) T) as [H1 H2].
    apply in_app_or in Hc. destruct Hc as [Hc|[<-|[]]]; [|exact H2].
    apply map_by_id_In in Hc. destruct Hc as [Hc|(c0 & _ & _ & ->)]; auto.
Qed.
End EditKeeps.

Lemma edit_keeps_lanes_and_flags (op : Mutation) (st : App.State) :
  unique_ids (App.clips st) ->
  possible op (Timeline.mkEditor st None) ->
  (forall c, In c (App.clips st) -> lanes_ok c /\ flags_ok c) ->
  forall c, In c (App.clips (Timeline.app (mutate op (Timeline.mkEditor st None)))) ->
            lanes_ok c /\ flags_ok c.
Proof.
  apply (edit_keeps (fun c => lanes_ok c /\ flags_ok c));
    unfold lanes_ok, flags_ok.
  - intros m clip down d [Hl Hf] Hor.
    destruct (spread_commit_keeps d clip) as (_ & -> & -> & -> & _ & Hk & Hmv).
    split; [|exact Hf].
    destruct (live_drag_state m clip down d Hor) as (Hm & Ht & _).
    destruct m.
    + rewrite (Hmv Hm). destruct Hor as [->|[e He]]; [exact Hl|].
      apply move_live in He. tauto.
    + rewrite Hk by congruence. exact Hl.
    + rewrite Hk by congruence. exact Hl.
  - intros sel t uuid H _ _. cbn. tauto.
  - intros sel sd ed H _. cbn. tauto.
  - intros sel uuid [Hl (Hv & Hi & Hm)] Ht. cbn. rewrite Ht.
    repeat split; try tauto; try lia; discriminate.
Qed.

Lemma edit_keeps_timing (op : Mutation) (st : App.State) :
  unique_ids (App.clips st) ->
  possible op (Timeline.mkEditor st None) ->
  (forall c, In c (App.clips st) -> clip_timing_ok c) ->
  forall c, In c (App.clips (Timeline.app (mutate op (Timeline.mkEditor st None)))) ->
            clip_timing_ok c.
Proof.
  apply (edit_keeps clip_timing_ok); unfold clip_timing_ok, trim_ok.
  - intros m clip down d [Ht Hd] Hor.
    destruct (spread_commit_keeps d clip) as (_ & _ & _ & _ & -> & _).
    split; [|exact Hd].
    now apply (drag_commit_trim_ok m clip down d).
  - intros sel t uuid H Hlo Hhi. cbn. repeat split; lra.
  - intros sel sd ed [_ Hd] Hlt. cbn.
    repeat split; [apply Q.le_max_l|exact Hlt|exact Hd].
  - intros sel uuid H _. cbn. tauto.
Qed.

(** The ids, the selection and the cursor after an edit. *)
Lemma edit_frame (op : Mutation) (st : App.State) :
  unique_ids (App.clips st) ->
  possible op (Timeline.mkEditor st None) ->
  match op with
  | Split uuid | SeparateAudio uuid => ~ In uuid (map id (App.clips st))
  | _ => True
  end ->
  selection_ok st ->
  let st' := Timeline.app (mutate op (Timeline.mkEditor st None)) in
  unique_ids (App.clips st') /\ selection_ok st' /\
  App.currentTime st' = App.currentTime st.
Proof.
  intros Hu Hposs Hfresh Hsel.
  destruct op as [m clip down moves|uuid|sd ed'|uuid]; cbn [mutate in_app Timeline.app];
    cbv zeta.
  - simpl in Hposs. destruct (in_split _ _ Hposs) as (l1 & l2 & Hsplit).
    rewrite Hsplit in Hu.
    destruct (gesture_result m clip down moves (Timeline.mkEditor st None)
                l1 l2 Hsplit Hu) as (d & _ & ->).
    destruct (spread_commit_keeps d clip) as (Hid & _).
    unfold selection_ok.
    cbn [App.clips App.currentTime App.selectedClipId Timeline.app].
    split; [now apply unique_ids_replace with (x := clip)|].
    split; [|reflexivity].
    intros i Hi. injection Hi as <-.
    rewrite (ids_replace l1 l2 clip _ Hid).
    apply in_map. apply in_or_app. right. now left.
  - unfold App.click, App.handleSplit.
    destruct (App.selectedClip st) as [sel|] eqn:S; [|auto].
    destruct (selectedClip_split st sel S) as (l1 & l2 & Hc & _).
    destruct (Qgtb _ _ && Qltb _ _); [|auto].
    unfold selection_ok.
    cbn [App.setSelectedClipId App.setClips App.clips App.currentTime
         App.selectedClipId spread fold_left assign id].
    rewrite Hc in Hu, Hfresh |- *. rewrite (map_by_id_split _ l1 l2 sel Hu).
    unfold unique_ids in *. rewrite !map_app in *. cbn [map id] in *.
    split; [|split; [|reflexivity]].
    + apply NoDup_app; [exact Hu|repeat constructor; simpl; tauto|].
      intros i Hi [<-|[]]. contradiction.
    + intros i Hi. injection Hi as <-.
      apply in_or_app. right. now left.
  - unfold App.click, App.adjustTrim.
    destruct (App.selectedClip st) as [sel|] eqn:S; [|auto].
    destruct (selectedClip_split st sel S) as (l1 & l2 & Hc & _).
    destruct (Qltb _ _); [|auto].
    unfold selection_ok in *.
    cbn [App.setClips App.clips App.currentTime App.selectedClipId
         spread fold_left assign id].
    rewrite Hc in Hu, Hsel |- *. rewrite (map_by_id_split _ l1 l2 sel Hu).
    unfold unique_ids in *. rewrite !map_app in *. cbn [map id] in *.
    auto.
  - unfold App.click, App.handleSeparateAudio.
    destruct (App.selectedClip st) as [sel|] eqn:S; [|auto].
    destruct (selectedClip_split st sel S) as (l1 & l2 & Hc & _).
    destruct (negb _); [auto|].
    unfold selection_ok in *.
    cbn [App.setClips App.clips App.currentTime App.selectedClipId
         spread fold_left assign id].
    rewrite Hc in Hu, Hfresh, Hsel |- *. rewrite (map_by_id_split _ l1 l2 sel Hu).
    unfold unique_ids in *. rewrite !map_app in *. cbn [map id] in *.
    split; [|split; [|reflexivity]].
    + apply NoDup_app; [exact Hu|repeat constructor; simpl; tauto|].
      intros i Hi [<-|[]]. contradiction.
    + intros i Hi. apply in_or_app. left. auto.
Qed.

(** ** One action *)

Lemma state_ok_append (st st' : App.State) (c : Clip) :
  state_ok st ->
  ~ In (id c) (map id (App.clips st)) ->
  lanes_ok c /\ flags_ok c ->
  App.clips st' = App.clips st ++ [c] ->
  App.selectedClipId st' = App.selectedClipId st ->
  state_ok st'.
Proof.
  intros (Hu & Hc & Hs) Hfresh Hok Eclips Esel. unfold state_ok, selection_ok.
  rewrite Eclips, Esel. split; [now apply unique_ids_append|]. split.
  - intros x Hx. apply in_app_or in Hx. destruct Hx as [Hx|[<-|[]]]; auto.
  - intros i Hi. rewrite map_app. apply in_or_app. left. now apply Hs.
Qed.

Lemma state_ok_frame (st st' : App.State) :
  state_ok st ->
  App.clips st' = App.clips st ->
  App.selectedClipId st' = App.selectedClipId st ->
  state_ok st'.
Proof.
  unfold state_ok, selection_ok. intros H -> ->. exact H.
Qed.

Lemma delete_keeps_state_ok (st : App.State) :
  state_ok st -> state_ok (App.click App.handleDeleteClip st).
Proof.
  intros Hok. unfold App.click, App.handleDeleteClip.
  destruct (App.selectedClipId st) as [i|] eqn:E; [|exact Hok].
  destruct (String.eqb i ""); [exact Hok|].
  destruct Hok as (Hu & Hc & Hs).
  unfold state_ok, selection_ok.
  cbn [App.setSelectedClipId App.setClips App.clips App.selectedClipId].
  split; [now apply unique_ids_filter|]. split; [|discriminate].
  intros c Hin. apply filter_In in Hin. now apply Hc.
Qed.

Lemma generatedClip_ok (render : App.Session) (url uuid : string) (d : Q) :
  lanes_ok (App.generatedClip render url uuid d) /\
  flags_ok (App.generatedClip render url uuid d).
Proof.
  unfold lanes_ok, flags_ok, App.generatedClip. cbn.
  destruct (App.aiMode (App.modal render)); cbn;
    repeat split; try lia; try discriminate; reflexivity.
Qed.

Lemma step_store_ok (a : Action) (history : list App.Session) :
  store_ok (now history) -> valid a history -> store_ok (step a (now history)).
Proof.
  set (s := now history). unfold store_ok. intros Hok Hvalid.
  destruct a; cbn [step App.store]; try exact Hok;
    try (eapply state_ok_frame; [exact Hok|reflexivity|reflexivity]).
  - (* an edit *)
    assert (Hposs : possible op (Timeline.mkEditor (App.store s) None))
      by (destruct op; simpl in *; auto).
    assert (Hfresh : match op with
                     | Split uuid | SeparateAudio uuid =>
                         ~ In uuid (map id (App.clips (App.store s)))
                     | _ => True
                     end)
      by (destruct op; simpl in *; auto).
    destruct Hok as (Hu & Hc & Hs).
    destruct (edit_frame op (App.store s) Hu Hposs Hfresh Hs) as (Hu' & Hs' & _).
    unfold state_ok. split; [exact Hu'|]. split; [|exact Hs'].
    now apply edit_keeps_lanes_and_flags.
  - now apply delete_keeps_state_ok.
  - (* an import completes *)
    destruct Hvalid as [_ Hfresh].
    eapply state_ok_append; cycle 3;
      [reflexivity|reflexivity|exact Hok|exact Hfresh|].
    unfold lanes_ok, flags_ok. cbn.
    destruct (String.prefix "audio" (App.file_type file));
      repeat split; try lia; try discriminate; reflexivity.
  - (* generation begins *)
    unfold App.handleAIGenerate_begin.
    destruct (String.eqb _ _); exact Hok.
  - (* generation settles *)
    unfold App.handleAIGenerate_settle.
    destruct outcome as [|[url|]]; [exact Hok| |exact Hok].
    destruct (String.eqb url ""); exact Hok.
  - (* the metadata of a generated clip *)
    destruct Hvalid as [_ Hfresh]. unfold App.generated_onloadedmetadata.
    eapply state_ok_append; cycle 3;
      [reflexivity|reflexivity|exact Hok|exact Hfresh|apply generatedClip_ok].
  - (* the fallback *)
    destruct Hvalid as [_ Hfresh]. unfold App.generated_timeout.
    destruct (readyState =? 0)%Z; [|exact Hok].
    eapply state_ok_append; cycle 3;
      [reflexivity|reflexivity|exact Hok|exact Hfresh|apply generatedClip_ok].
  - (* a scrub *)
    eapply state_ok_frame; [exact Hok| |];
      unfold Timeline.seek; destruct (Timeline.updateScrubPosition _ _); reflexivity.
Qed.

Lemma step_timing_ok (a : Action) (history : list App.Session) :
  store_ok (now history) ->
  Forall timing_ok history -> timing_ok (now history) ->
  valid a history -> media_have_length a ->
  timing_ok (step a (now history)).
Proof.
  set (s := now history). unfold store_ok, timing_ok.
  intros Hok Hpast [Ht Hclips] Hvalid Hmedia.
  destruct a; cbn [step App.store]; try (split; assumption).
  - (* an edit *)
    assert (Hposs : possible op (Timeline.mkEditor (App.store s) None))
      by (destruct op; simpl in *; auto).
    assert (Hfresh : match op with
                     | Split uuid | SeparateAudio uuid =>
                         ~ In uuid (map id (App.clips (App.store s)))
                     | _ => True
                     end)
      by (destruct op; simpl in *; auto).
    destruct Hok as (Hu & _ & Hs).
    destruct (edit_frame op (App.store s) Hu Hposs Hfresh Hs) as (_ & _ & E).
    rewrite E. split; [exact Ht|].
    now apply edit_keeps_timing.
  - (* delete *)
    unfold App.click, App.handleDeleteClip.
    destruct (App.selectedClipId (App.store s)) as [i|]; [|split; assumption].
    destruct (String.eqb i ""); [split; assumption|].
    cbn [App.setSelectedClipId App.setClips App.clips App.currentTime].
    split; [exact Ht|].
    intros c Hin. apply filter_In in Hin. now apply Hclips.
  - (* an import completes *)
    destruct Hvalid as [Hin _]. simpl in Hmedia.
    apply in_map_iff in Hin. destruct Hin as (s0 & <- & Hs0).
    rewrite Forall_forall in Hpast. destruct (Hpast s0 Hs0) as [Ht0 _].
    cbn [App.onloadedmetadata App.setCurrentTime App.setClips App.clips
         App.currentTime].
    split; [lra|].
    intros c Hc. apply in_app_or in Hc. destruct Hc as [Hc|[<-|[]]]; [auto|].
    unfold clip_timing_ok, trim_ok. cbn. repeat split; lra.
  - (* generation begins *)
    unfold App.handleAIGenerate_begin.
    destruct (String.eqb _ _); split; assumption.
  - (* generation settles *)
    unfold App.handleAIGenerate_settle.
    destruct outcome as [|[url|]]; [split; assumption| |split; assumption].
    destruct (String.eqb url ""); split; assumption.
  - (* the metadata of a generated clip *)
    simpl in Hmedia. unfold App.generated_onloadedmetadata.
    cbn [App.addGenerated App.store App.setClips App.clips App.currentTime].
    split; [exact Ht|].
    intros c Hc. apply in_app_or in Hc. destruct Hc as [Hc|[<-|[]]]; [auto|].
    unfold clip_timing_ok, trim_ok. cbn.
    destruct (Qeq_bool tempEl_duration 0) eqn:E.
    + repeat split; lra.
    + apply Qeq_bool_neq in E. repeat split; lra.
  - (* the fallback *)
    unfold App.generated_timeout.
    destruct (readyState =? 0)%Z; [|split; assumption].
    cbn [App.addGenerated App.store App.setClips App.clips App.currentTime].
    split; [exact Ht|].
    intros c Hc. apply in_app_or in Hc. destruct Hc as [Hc|[<-|[]]]; [auto|].
    unfold clip_timing_ok, trim_ok. cbn. repeat split; lra.
  - (* a tick *)
    unfold App.tick, Player.clock_tick.
    cbn [App.setCurrentTime App.clips App.currentTime].
    split; [|exact Hclips].
    destruct (App.isPlaying (App.store s)); lra.
  - (* go to start *)
    cbn. split; [lra|exact Hclips].
  - (* go to end *)
    cbn [App.click App.seekToEnd App.setCurrentTime App.clips App.currentTime].
    split; [apply totalDuration_nonneg|exact Hclips].
  - (* a scrub *)
    split; [now apply seek_nonneg|].
    unfold Timeline.seek. destruct (Timeline.updateScrubPosition _ _); exact Hclips.
Qed.

(** ** Whole sessions *)

Lemma trace_from_keeps (P : App.Session -> Prop) (Q : Action -> Prop) :
  (forall a history,
     Forall P history -> P (now history) -> valid a history -> Q a ->
     P (step a (now history))) ->
  forall actions history,
    Forall P history -> P (now history) ->
    valid_from history actions -> Forall Q actions ->
    Forall P (trace_from history actions).
Proof.
  intros Hstep. induction actions as [|a rest IH]; simpl;
    intros history Hall Hnow Hvalid HQ; [exact Hall|].
  destruct Hvalid as [Ha Hrest]. inversion HQ as [|? ? Hqa Hqrest]; subst.
  assert (Hnext : P (step a (now history))) by now apply Hstep.
  apply IH; auto.
Qed.

Lemma initial_store_ok : store_ok initial_session.
Proof.
  split; [constructor|]. split; [intros c []|discriminate].
Qed.

Lemma initial_timing_ok : timing_ok initial_session.
Proof.
  split; [cbn; lra|intros c []].
Qed.

Lemma session_store_ok (actions : list Action) :
  valid_session actions -> Forall store_ok (trace actions).
Proof.
  intro Hvalid. unfold trace.
  apply (trace_from_keeps store_ok (fun _ => True)).
  - intros a history _ Hnow Ha _. now apply step_store_ok.
  - constructor; [apply initial_store_ok|constructor].
  - apply initial_store_ok.
  - exact Hvalid.
  - apply Forall_forall. auto.
Qed.

Lemma session_timing_ok (actions : list Action) :
  valid_session actions -> Forall media_have_length actions ->
  Forall (fun s => store_ok s /\ timing_ok s) (trace actions).
Proof.
  intros Hvalid Hmedia. unfold trace.
  apply (trace_from_keeps (fun s => store_ok s /\ timing_ok s) media_have_length).
  - intros a history Hall [Hs Ht] Ha Hq.
    split; [now apply step_store_ok|].
    apply step_timing_ok; auto.
    apply Forall_forall. intros x Hx.
    rewrite Forall_forall in Hall. now apply Hall.
  - constructor; [split; [apply initial_store_ok|apply initial_timing_ok]|constructor].
  - split; [apply initial_store_ok|apply initial_timing_ok].
  - exact Hvalid.
  - exact Hmedia.
Qed.

Lemma sampleSession_valid : valid_session sampleSession.
Proof.
  vm_compute. intuition (try discriminate).
Defined.

Lemma sampleSession_media : Forall media_have_length sampleSession.
Proof.
  repeat constructor; vm_compute; discriminate.
Defined.

(** X16: in every state of a session the clips of the store have distinct
    ids, and the selection, when there is one, is the id of a clip of the
    store: no action leaves a selection behind that points at nothing. *)
Theorem session_ids_and_selection (actions : list Action) (s : App.Session) :
  valid_session actions ->
  In s (trace actions) ->
  unique_ids (App.clips (App.store s)) /\
  forall i, App.selectedClipId (App.store s) = Some i ->
            exists c, App.selectedClip (App.store s) = Some c /\ id c = i.
Proof.
  intros Hvalid Hin.
  pose proof (session_store_ok actions Hvalid) as H.
  rewrite Forall_forall in H. destruct (H s Hin) as (Hu & _ & Hs).
  split; [exact Hu|].
  intros i Hi. apply Hs in Hi as Hi'.
  apply in_map_iff in Hi'. destruct Hi' as (c & <- & Hc).
  exists c. split; [|reflexivity].
  unfold App.selectedClip. rewrite Hi. now apply find_by_id_unique.
Qed.

Lemma session_ids_and_selection_witness :
  unique_ids (App.clips (App.store (now (trace sampleSession)))).
Proof.
  apply (session_ids_and_selection sampleSession (now (trace sampleSession))).
  - exact sampleSession_valid.
  - left. reflexivity.
Defined.

(** X17: in every state of a session every clip is a video or an audio
    clip on one of the tracks 0, 1, 2, so that the timeline, when nothing is
    dragged, lists it in the lane of its kind and track and in no other
    lane. *)
Theorem session_clips_stay_on_the_lanes (actions : list Action) (s : App.Session)
    (c : Clip) :
  valid_session actions ->
  In s (trace actions) ->
  In c (App.clips (App.store s)) ->
  (0 <= trackIndex c <= 2)%Z /\ type c <> image /\
  forall wanted trackIdx,
    In c (Timeline.filteredTrackClips None (App.clips (App.store s)) wanted trackIdx)
    <-> wanted = type c /\ trackIdx = trackIndex c.
Proof.
  intros Hvalid Hin Hc.
  pose proof (session_store_ok actions Hvalid) as H.
  rewrite Forall_forall in H. destruct (H s Hin) as (_ & Hclips & _).
  destruct (Hclips c Hc) as [Hl (_ & Hi & _)].
  split; [exact Hl|]. split; [exact Hi|].
  intros wanted trackIdx. unfold Timeline.filteredTrackClips. cbn.
  rewrite !filter_In, andb_true_iff, MediaType_eqb_eq, Z.eqb_eq.
  intuition congruence.
Qed.

Lemma session_clips_stay_on_the_lanes_witness :
  Forall (fun c => (0 <= trackIndex c <= 2)%Z /\ type c <> image)
         (App.clips (App.store (now (trace sampleSession)))).
Proof.
  apply Forall_forall. intros c Hc.
  destruct (session_clips_stay_on_the_lanes sampleSession
              (now (trace sampleSession)) c) as (H1 & H2 & _).
  - exact sampleSession_valid.
  - left. reflexivity.
  - exact Hc.
  - split; [exact H1|exact H2].
Defined.

(** X18: in every state of a session every clip has the volume 1 and no
    audio clip is muted: no action of the editor changes a volume, and
    [isMuted] is only ever set on a video clip. *)
Theorem session_audio_is_never_muted (actions : list Action) (s : App.Session)
    (c : Clip) :
  valid_session actions ->
  In s (trace actions) ->
  In c (App.clips (App.store s)) ->
  volume c = 1 /\ (type c = audio -> isMuted c = false).
Proof.
  intros Hvalid Hin Hc.
  pose proof (session_store_ok actions Hvalid) as H.
  rewrite Forall_forall in H. destruct (H s Hin) as (_ & Hclips & _).
  destruct (Hclips c Hc) as [_ (Hv & _ & Hm)]. auto.
Qed.

Lemma session_audio_is_never_muted_witness :
  Forall (fun c => volume c = 1)
         (App.clips (App.store (now (trace sampleSession)))).
Proof.
  apply Forall_forall. intros c Hc.
  apply (session_audio_is_never_muted sampleSession (now (trace sampleSession)) c).
  - exact sampleSession_valid.
  - left. reflexivity.
  - exact Hc.
Defined.

(** X19: when every imported file has a positive duration and no generated
    medium a negative one, in every state of a session the cursor is not
    negative, every clip has a source of positive duration, and no trim
    starts before the start of the source. *)
Theorem session_timing (actions : list Action) (s : App.Session) :
  valid_session actions ->
  Forall media_have_length actions ->
  In s (trace actions) ->
  0 <= App.currentTime (App.store s) /\
  forall c, In c (App.clips (App.store s)) ->
    0 < duration c /\ 0 <= trimStart c.
Proof.
  intros Hvalid Hmedia Hin.
  pose proof (session_timing_ok actions Hvalid Hmedia) as H.
  rewrite Forall_forall in H. destruct (H s Hin) as [_ [Ht Hclips]].
  split; [exact Ht|].
  intros c Hc. destruct (Hclips c Hc) as [[H0 Hlt] Hd]. auto.
Qed.

Lemma session_timing_witness :
  0 <= App.currentTime (App.store (now (trace sampleSession))).
Proof.
  apply (session_timing sampleSession (now (trace sampleSession))).
  - exact sampleSession_valid.
  - exact sampleSession_media.
  - left. reflexivity.
Defined.

(** * The resolver on the stores of a session *)



(** * The source time and the elements *)

Lemma sync_source_synced_to (clip : Clip) (t : Q) (playing : bool)
    (el : Player.MediaElement) :
  synced_to clip t el (Player.sync_source clip t playing el).
Proof.
  unfold synced_to. cbv zeta. split; [apply sync_source_data_src|].
  unfold Player.sync_source.
  destruct (Player.data_src el) as [u|] eqn:Esrc.
  - destruct (String.eqb u (fileUrl clip)) eqn:Eu.
    + apply String.eqb_eq in Eu. subst u. split; [intro Hne; congruence|].
      intros _. cbn [Player.el_currentTime].
      destruct (Qgtb _ _) eqn:G.
      * split; [reflexivity|]. intro Hle. apply Qgtb_lt in G. lra.
      * split; [|reflexivity]. intro Hlt. apply Qgtb_le in G. lra.
    + apply String.eqb_neq in Eu. split; [reflexivity|].
      intro Heq. congruence.
  - split; [reflexivity|]. intro Heq. discriminate.
Qed.

Lemma pool_get_filter (keep : string -> bool) (pool : Player.AudioPool) (i : string) :
  keep i = true ->
  Player.pool_get (filter (fun e => keep (fst e)) pool) i = Player.pool_get pool i.
Proof.
  intro Hk. unfold Player.pool_get.
  induction pool as [|[j el] pool IH]; [reflexivity|].
  cbn [filter fst find].
  destruct (String.eqb j i) eqn:E.
  - apply String.eqb_eq in E. subst j. rewrite Hk. cbn [find fst].
    rewrite String.eqb_refl. reflexivity.
  - destruct (keep j); [cbn [find fst]; rewrite E|]; exact IH.
Qed.

Lemma pool_get_created (l : list Clip) (pool : Player.AudioPool) (i : string) :
  Player.pool_get
    (fold_left (fun p clip => if Player.pool_has p (id clip) then p
                              else Player.pool_set p (id clip) Player.new_element)
               l pool) i =
  match Player.pool_get pool i with
  | Some el => Some el
  | None => if existsb (fun c => String.eqb (id c) i) l
            then Some Player.new_element else None
  end.
Proof.
  revert pool. induction l as [|c l IH]; intro pool; cbn [fold_left existsb].
  - destruct (Player.pool_get pool i); reflexivity.
  - rewrite IH. destruct (Player.pool_has pool (id c)) eqn:Ehas.
    + destruct (Player.pool_get pool i) as [el|] eqn:Eget; [reflexivity|].
      destruct (String.eqb (id c) i) eqn:E; [|reflexivity].
      apply String.eqb_eq in E. subst i.
      apply pool_has_get in Ehas. destruct Ehas as [el Hel]. congruence.
    + destruct (String.eqb (id c) i) eqn:E.
      * apply String.eqb_eq in E. subst i. rewrite pool_get_set_same.
        destruct (Player.pool_get pool (id c)) as [el|] eqn:Eget; [|reflexivity].
        assert (Player.pool_has pool (id c) = true)
          by (apply pool_has_get; eauto).
        congruence.
      * apply String.eqb_neq in E. rewrite (pool_get_set_other _ _ _ _ E).
        reflexivity.
Qed.

(** The pool, once managed, holds for every active clip the element it had
    for it, or a new one. *)
Lemma manageAudioPool_get (activeAudio : list Clip) (pool : Player.AudioPool)
    (c : Clip) :
  In c activeAudio ->
  Player.pool_get (Player.manageAudioPool activeAudio pool) (id c) =
  Some (audio_element_before pool c).
Proof.
  intro Hc. unfold Player.manageAudioPool, audio_element_before.
  rewrite pool_get_created.
  rewrite (pool_get_filter
             (fun j => existsb (String.eqb j) (map id activeAudio)) pool (id c)).
  - destruct (Player.pool_get pool (id c)); [reflexivity|].
    assert (E : existsb (fun c0 => String.eqb (id c0) (id c)) activeAudio = true).
    { apply existsb_exists. exists c. split; [exact Hc|apply String.eqb_refl]. }
    rewrite E. reflexivity.
  - apply existsb_exists. exists (id c).
    split; [apply in_map; exact Hc|apply String.eqb_refl].
Qed.

(** C5, as the code has it: the source time the player computes for a clip
    that is active at [t] is [trimStart + (t - startOffset)]; it is not
    before [trimStart] and does not decrease when [t] grows.  The element of
    the selected video clip, and the element of every active audio clip, is
    put on that time only when it showed another source or was more than
    0.3 s away from it; otherwise it is left where it was. *)
Theorem elements_follow_source_time (clips : list Clip) (t : Q) (playing : bool)
    (els : Player.Elements) :
  unique_ids clips ->
  let els' := Player.run_effects clips t playing els in
  (forall wanted c, Player.active wanted t c = true ->
     Player.targetSourceTime c t = trimStart c + (t - startOffset c) /\
     trimStart c <= Player.targetSourceTime c t /\
     (forall t' : Q, t <= t' ->
        Player.targetSourceTime c t <= Player.targetSourceTime c t')) /\
  (forall top, Player.topVideoClip clips t = Some top ->
     synced_to top t (Player.videoRef els) (Player.videoRef els')) /\
  (forall c, In c (Player.activeAudioClips clips t) ->
     exists aud,
       Player.pool_get (Player.audioRefs els') (id c) = Some aud /\
       synced_to c t (audio_element_before (Player.audioRefs els) c) aud).
Proof.
  intros Hu els'. split; [|split].
  - intros wanted c. apply targetSourceTime_from_trimStart.
  - intros top Htop. unfold els', Player.run_effects.
    cbn [Player.videoRef]. rewrite Htop. cbn [Player.syncVideo].
    exact (sync_source_synced_to top t playing (Player.videoRef els)).
  - intros c Hc.
    destruct (syncAudio_visited (Player.activeAudioClips clips t) t playing
                (Player.manageAudioPool (Player.activeAudioClips clips t)
                   (Player.audioRefs els)) c)
      as (before & Hbefore & Hafter).
    + apply unique_ids_filter. exact Hu.
    + exact Hc.
    + apply manageAudioPool_has. exact Hc.
    + rewrite (manageAudioPool_get _ _ _ Hc) in Hbefore.
      injection Hbefore as <-.
      eexists. split; [exact Hafter|].
      exact (sync_source_synced_to c t playing _).
Qed.

Lemma elements_follow_source_time_witness :
  Player.el_currentTime
    (Player.videoRef (Player.run_effects [clipA] 3 false Player.mounted))
  = Player.targetSourceTime clipA 3.
Proof.
  destruct (elements_follow_source_time [clipA] 3 false Player.mounted)
    as (_ & Hvideo & _).
  - repeat constructor; simpl; intuition discriminate.
  - destruct (Hvideo clipA) as (_ & Hload & _); [reflexivity|].
    apply Hload. discriminate.
Defined.

(** * Where rounding decides *)

Module DoubleFacts.
Import PrimFloat.
#[local] Set Warnings "-inexact-float".

(** Thirty ticks of 0.1 s from 0 s do not end on 3 s, and ten do not end
    on 1 s. *)
Lemma ticks_drift :
  Double.currentTime Double.playedThirtyTicks = 3.0000000000000013%float /\
  Double.currentTime Double.playedTenTicks = 0.9999999999999999%float.
Proof. split; vm_compute; reflexivity. Qed.

(** C2: a split can leave a clip of no length.  In the session
    [playedThirtyTicks] every clip has [trimStart < trimEnd], the clip ["h"]
    is selected, it starts at 3 s and plays the source from 16 s to 20 s,
    and the cursor, at 3.0000000000000013 s, is strictly inside it.  The
    split point in the source is [16 + (3.0000000000000013 - 3)], which
    rounds to 16: the first half is committed with [trimStart = trimEnd =
    16]. *)
Theorem split_leaves_a_clip_of_no_length :
  Double.playedThirtyTicks =
    Double.mkState
      [Double.mkClip "a" "blob:a" video "intro.mp4" 3 0 0 0 3 1 false None;
       Double.mkClip "h" "blob:h" video "holiday.mp4" 20 3 0 16 20 1 false None]
      3.0000000000000013 true (Some "h"%string) /\
  forallb Double.trim_positive (Double.clips Double.playedThirtyTicks) = true /\
  (3 <? Double.currentTime Double.playedThirtyTicks)%float = true /\
  (Double.currentTime Double.playedThirtyTicks <? Double.right_edge 3 16 20)%float
    = true /\
  Double.click (Double.handleSplit "h2") Double.playedThirtyTicks =
    Double.mkState
      [Double.mkClip "a" "blob:a" video "intro.mp4" 3 0 0 0 3 1 false None;
       Double.mkClip "h" "blob:h" video "holiday.mp4" 20 3 0 16 16 1 false None;
       Double.mkClip "h2" "blob:h" video "holiday.mp4" 20 3.0000000000000013 0
                     16 20 1 false None]
      3.0000000000000013 true (Some "h2"%string) /\
  forallb Double.trim_positive
    (Double.clips (Double.click (Double.handleSplit "h2") Double.playedThirtyTicks))
    = false.
Proof. repeat split; vm_compute; reflexivity. Qed.

(** C5, as the claim words it, fails twice.  The element is not always on
    the source time: in the session [trimUnderPlayhead] the element was
    loaded at 0 s, the playhead is 0.2 s from there and the clip is then
    trimmed to start at 0.2 s of the source; the source time is 0.2 s, but
    the element is within 0.3 s of it and is left at 0 s, before
    [trimStart].  And the source time is not always before [trimEnd]: in the
    session [playedTenTicks] the cursor is at 0.9999999999999999 s, inside
    the clip that plays the source from 1 s to 2 s, and the source time
    [1 + (0.9999999999999999 - 0)] rounds to 2 s, the end of the trim. *)
Lemma source_time_is_not_what_the_element_plays :
  (valid_session trimUnderPlayhead /\
   App.store (now (trace trimUnderPlayhead)) =
     App.mkState [trimmedClip] (4 # 20) false (Some "h"%string) /\
   Player.topVideoClip [trimmedClip] (4 # 20) = Some trimmedClip /\
   Player.targetSourceTime trimmedClip (4 # 20) == 1 # 5 /\
   trimStart trimmedClip == 1 # 5 /\
   Player.data_src (Player.videoRef (session_elements trimUnderPlayhead))
     = Some (fileUrl trimmedClip) /\
   Player.el_currentTime (Player.videoRef (session_elements trimUnderPlayhead))
     == 0 /\
   Player.el_currentTime (Player.videoRef (session_elements trimUnderPlayhead))
     < trimStart trimmedClip /\
   ~ Player.el_currentTime (Player.videoRef (session_elements trimUnderPlayhead))
     == Player.targetSourceTime trimmedClip (4 # 20)) /\
  (Double.playedTenTicks =
     Double.mkState
       [Double.mkClip "b" "blob:b" video "b.mp4" 2 0 0 1 2 1 false None]
       0.9999999999999999 true (Some "b"%string) /\
   Double.active video 0.9999999999999999
     (Double.mkClip "b" "blob:b" video "b.mp4" 2 0 0 1 2 1 false None) = true /\
   Double.targetSourceTime
     (Double.mkClip "b" "blob:b" video "b.mp4" 2 0 0 1 2 1 false None)
     0.9999999999999999 = 2%float /\
   (Double.targetSourceTime
      (Double.mkClip "b" "blob:b" video "b.mp4" 2 0 0 1 2 1 false None)
      0.9999999999999999 <? 2)%float = false).
Proof.
  split.
  - split; [vm_compute; intuition (try discriminate)|].
    repeat split; vm_compute; first [reflexivity|discriminate].
  - repeat split; vm_compute; reflexivity.
Qed.

(** C7, as the claim words it, fails: the right edge of a clip can move
    during a resize-left.  The clip of [importedAfterOneTick] starts at
    0.1 s and plays the source from 0 s to 10 s, so its right edge is at
    10.1 s.  With its left edge dragged 4 px to the right the trim starts at
    0.2 s and the clip at [0.1 + (0.2 - 0)], which is 0.30000000000000004 s,
    and the right edge [0.30000000000000004 + (10 - 0.2)] is at
    10.100000000000001 s. *)
Lemma resize_left_moves_the_right_edge :
  Double.clips Double.importedAfterOneTick = [Double.clipAtTick] /\
  Double.valid_snapshot (Double.trimStart Double.clipAtTick)
    (Double.trimEnd Double.clipAtTick) (Double.duration Double.clipAtTick) = true /\
  Double.currentTrimStart Double.draggedFourPixels = 0.2%float /\
  Double.currentStartOffset Double.draggedFourPixels = 0.30000000000000004%float /\
  Double.right_edge (Double.initialStartOffset Double.draggedFourPixels)
    (Double.initialTrimStart Double.draggedFourPixels)
    (Double.initialTrimEnd Double.draggedFourPixels) = 10.1%float /\
  Double.right_edge (Double.currentStartOffset Double.draggedFourPixels)
    (Double.currentTrimStart Double.draggedFourPixels)
    (Double.initialTrimEnd Double.draggedFourPixels) = 10.100000000000001%float /\
  (Double.right_edge (Double.currentStartOffset Double.draggedFourPixels)
     (Double.currentTrimStart Double.draggedFourPixels)
     (Double.initialTrimEnd Double.draggedFourPixels)
   =? Double.right_edge (Double.initialStartOffset Double.draggedFourPixels)
        (Double.initialTrimStart Double.draggedFourPixels)
        (Double.initialTrimEnd Double.draggedFourPixels))%float = false.
Proof. repeat split; vm_compute; reflexivity. Qed.

End DoubleFacts.

(** * The WAV encoder *)

Module WavFacts.
Import GeminiService.

(** ** Bytes *)

Lemma nth_bytes (v : DataView) (j : nat) :
  (j < byteLength v)%nat -> nth j (bytes v) 0%Z = getUint8 v j.
Proof.
  intro H. unfold bytes.
  rewrite (nth_indep _ 0%Z (getUint8 v 0%nat))
    by (rewrite length_map, length_seq; exact H).
  rewrite map_nth, seq_nth by exact H. reflexivity.
Qed.

Lemma bytes_length (v : DataView) : List.length (bytes v) = byteLength v.
Proof. unfold bytes. now rewrite length_map, length_seq. Qed.

(** Two bytes, the low one first, give back the 16-bit number they were
    made of. *)
Lemma int16_bytes (s : Z) :
  (-32768 <= s <= 32767)%Z ->
  let u := (s mod 256 + 256 * ((s / 256) mod 256))%Z in
  (if (u <? 32768)%Z then u else (u - 65536)%Z) = s.
Proof.
  intros Hs u.
  assert (Hu : u = (s mod 65536)%Z).
  { unfold u. change 65536%Z with (256 * 256)%Z.
    rewrite Z.rem_mul_r by lia. reflexivity. }
  rewrite Hu.
  destruct (Z_lt_le_dec s 0) as [Hneg|Hpos].
  - replace (s mod 65536)%Z with (s + 65536)%Z.
    + destruct (s + 65536 <? 32768)%Z eqn:E;
        [apply Z.ltb_lt in E; lia|lia].
    + apply Z.mod_unique with (q := (-1)%Z); lia.
  - rewrite Z.mod_small by lia.
    destruct (s <? 32768)%Z eqn:E; [reflexivity|apply Z.ltb_ge in E; lia].
Qed.

(** ** Samples *)

Lemma clamp_range (x : Q) : (-1 <= clamp x /\ clamp x <= 1)%Q.
Proof. unfold clamp. split; minmax_lra. Qed.

Lemma clamp_inside (x : Q) : (-1 <= x <= 1)%Q -> (clamp x == x)%Q.
Proof. unfold clamp. intro H. minmax_lra. Qed.

Lemma integer_part_between (a b : Z) (v : Q) :
  (inject_Z a <= v)%Q -> (v <= inject_Z b)%Q ->
  (a <= Z.quot (Qnum v) (Z.pos (Qden v)) <= b)%Z.
Proof.
  unfold Qle, inject_Z. simpl. rewrite !Z.mul_1_r. intros Ha Hb.
  split.
  - rewrite <- (Z.quot_mul a (Z.pos (Qden v))) by lia.
    apply Z.quot_le_mono; lia.
  - rewrite <- (Z.quot_mul b (Z.pos (Qden v))) by lia.
    apply Z.quot_le_mono; lia.
Qed.

Lemma ToInt32_small (v : Q) :
  (inject_Z (-32768) <= v)%Q -> (v <= inject_Z 32767)%Q ->
  ToInt32 v = Z.quot (Qnum v) (Z.pos (Qden v)) /\
  (-32768 <= ToInt32 v <= 32767)%Z.
Proof.
  intros Ha Hb. pose proof (integer_part_between _ _ v Ha Hb) as H.
  unfold ToInt32. rewrite Z.mod_small by lia. lia.
Qed.

Lemma scaled_sample_bounds (y : Q) :
  (-1 <= y)%Q -> (y <= 1)%Q ->
  (inject_Z (-32768) <=
     (if Qltb ((1 # 2) + y) 0 then y * 32768 else y * 32767))%Q /\
  ((if Qltb ((1 # 2) + y) 0 then y * 32768 else y * 32767) <= inject_Z 32767)%Q.
Proof.
  intros H1 H2. unfold inject_Z.
  destruct (Qltb ((1 # 2) + y) 0) eqn:E.
  - apply Qltb_lt in E. split; lra.
  - apply Qltb_ge in E. split; lra.
Qed.

Lemma to16bit_range (x : Q) : (-32768 <= to16bit (clamp x) <= 32767)%Z.
Proof.
  pose proof (clamp_range x) as [Hlo Hhi].
  unfold to16bit. destruct (scaled_sample_bounds (clamp x) Hlo Hhi) as [Ha Hb].
  apply ToInt32_small; assumption.
Qed.

(** X20: whatever the sample, the number written for it is a signed 16-bit
    number: samples of 1 and above become 32767, samples of -1 and below
    become -32768, and silence stays 0. *)
Theorem to16bit_is_a_16_bit_sample (x : Q) :
  (-32768 <= to16bit (clamp x) <= 32767)%Z /\
  ((1 <= x)%Q -> to16bit (clamp x) = 32767%Z) /\
  ((x <= -1)%Q -> to16bit (clamp x) = (-32768)%Z) /\
  ((x == 0)%Q -> to16bit (clamp x) = 0%Z).
Proof.
  pose proof (clamp_range x) as [Hlo Hhi].
  split; [apply to16bit_range|].
  assert (Hval : forall (y : Q) (z : Z),
    (-1 <= y)%Q -> (y <= 1)%Q ->
    ((if Qltb ((1 # 2) + y) 0 then y * 32768 else y * 32767) == inject_Z z)%Q ->
    to16bit y = z).
  { intros y z H1 H2 Hz. unfold to16bit.
    destruct (scaled_sample_bounds y H1 H2) as [Ha Hb].
    destruct (ToInt32_small _ Ha Hb) as [-> _].
    destruct (integer_part_between z z
                (if Qltb ((1 # 2) + y) 0 then y * 32768 else y * 32767));
      [rewrite Hz; apply Qle_refl|rewrite Hz; apply Qle_refl|lia]. }
  repeat split; intro Hx; apply Hval; try assumption; unfold inject_Z.
  - assert (E : (clamp x == 1)%Q) by (unfold clamp; minmax_lra).
    destruct (Qltb ((1 # 2) + clamp x) 0) eqn:C;
      [apply Qltb_lt in C|]; lra.
  - assert (E : (clamp x == -1)%Q) by (unfold clamp; minmax_lra).
    destruct (Qltb ((1 # 2) + clamp x) 0) eqn:C;
      [|apply Qltb_ge in C]; lra.
  - assert (E : (clamp x == 0)%Q) by (unfold clamp; minmax_lra).
    destruct (Qltb ((1 # 2) + clamp x) 0) eqn:C;
      [apply Qltb_lt in C|]; lra.
Qed.

(** ** The header *)

Lemma write_header_result (numOfChan : nat) (rate : Z) (k : nat) :
  exists w,
    write_header numOfChan rate (44 + k) (mkWriter (new_ArrayBuffer (44 + k)) 0 0)
      = Some w /\
    pos w = 44%nat /\ offset w = 0%nat /\ byteLength (view w) = (44 + k)%nat /\
    (forall j, (44 <= j)%nat -> getUint8 (view w) j = 0%Z) /\
    (forall j, (j < 44)%nat ->
               getUint8 (view w) j = nth j (wav_header numOfChan rate (44 + k)) 0%Z).
Proof.
  unfold write_header, setUint32, setUint16, view_setUint32, view_setUint16.
  cbn -[Z.div Z.modulo Z.of_nat Z.sub Z.mul Nat.eqb].
  eexists. split; [reflexivity|].
  cbn -[Z.div Z.modulo Z.of_nat Z.sub Z.mul Nat.eqb wav_header].
  split; [reflexivity|]. split; [reflexivity|]. split; [reflexivity|].
  split.
  - intros j Hj.
    repeat match goal with
           | |- context [Nat.eqb j ?p] =>
               let E := fresh in
               destruct (Nat.eqb j p) eqn:E; [apply Nat.eqb_eq in E; lia|clear E]
           end.
    reflexivity.
  - intros j Hj.
    match goal with
    | |- context [(?a - Z.of_nat 40 - 4)%Z] =>
        replace (a - Z.of_nat 40 - 4)%Z with (a - 44)%Z by lia
    end.
    do 44 (destruct j as [|j]; [reflexivity|]). lia.
Qed.

(** ** The two loops *)

Lemma getUint8_store_byte (v : DataView) (p : nat) (x : Z) (j : nat) :
  getUint8 (store_byte v p x) j =
  if Nat.eqb j p then (x mod 256)%Z else getUint8 v j.
Proof. reflexivity. Qed.

Lemma write_sample_fits (channels : list (list Q)) (i : nat) (w : Writer) :
  (44 + offset w + 2 <= byteLength (view w))%nat ->
  let s := to16bit (clamp (nth (pos w) (nth i channels []) 0)) in
  write_sample channels i w =
  Some (mkWriter (store_byte (store_byte (view w) (44 + offset w) s)
                             (44 + offset w + 1) (s / 256))
                 (pos w) (offset w + 2)).
Proof.
  intros H s. unfold write_sample, view_setInt16, view_setUint16.
  apply Nat.leb_le in H. rewrite H. reflexivity.
Qed.

(** One round of the inner loop: a sample for each channel, side by side
    from [44 + offset] on, and nothing else touched. *)
Lemma for_channels_result (channels : list (list Q)) (m : nat) :
  forall (i0 : nat) (w : Writer),
    (44 + offset w + 2 * m <= byteLength (view w))%nat ->
    exists w',
      for_channels channels (seq i0 m) w = Some w' /\
      pos w' = pos w /\ offset w' = (offset w + 2 * m)%nat /\
      byteLength (view w') = byteLength (view w) /\
      (forall j, (j < 44 + offset w \/ 44 + offset w + 2 * m <= j)%nat ->
                 getUint8 (view w') j = getUint8 (view w) j) /\
      (forall t, (t < m)%nat ->
         let s := to16bit (clamp (nth (pos w) (nth (i0 + t) channels []) 0)) in
         getUint8 (view w') (44 + offset w + 2 * t) = (s mod 256)%Z /\
         getUint8 (view w') (44 + offset w + 2 * t + 1) = ((s / 256) mod 256)%Z).
Proof.
  induction m as [|m IH]; intros i0 w Hfit.
  - exists w. cbn [seq for_channels].
    split; [reflexivity|]. split; [reflexivity|]. split; [lia|].
    split; [reflexivity|]. split; [reflexivity|]. intros t Ht. lia.
  - cbn [seq for_channels].
    rewrite write_sample_fits by lia.
    set (s0 := to16bit (clamp (nth (pos w) (nth i0 channels []) 0))).
    set (w1 := mkWriter _ (pos w) (offset w + 2)).
    destruct (IH (S i0) w1) as (w' & Hrun & Hpos & Hoff & Hlen & Hout & Hin).
    { unfold w1. cbn. lia. }
    exists w'. split; [exact Hrun|].
    unfold w1 in Hpos, Hoff, Hlen, Hout, Hin.
    cbn [pos offset view byteLength store_byte] in Hpos, Hoff, Hlen, Hout, Hin.
    split; [exact Hpos|]. split; [lia|]. split; [exact Hlen|]. split.
    + intros j Hj. rewrite Hout by lia. rewrite !getUint8_store_byte.
      destruct (Nat.eqb j (44 + offset w + 1)) eqn:E1;
        [apply Nat.eqb_eq in E1; lia|].
      destruct (Nat.eqb j (44 + offset w)) eqn:E2;
        [apply Nat.eqb_eq in E2; lia|reflexivity].
    + intros t Ht. destruct t as [|t].
      * cbv zeta.
        replace (i0 + 0)%nat with i0 by lia.
        replace (44 + offset w + 2 * 0)%nat with (44 + offset w)%nat by lia.
        rewrite !Hout by lia. rewrite !getUint8_store_byte.
        rewrite !Nat.eqb_refl.
        destruct (Nat.eqb (44 + offset w) (44 + offset w + 1)) eqn:E1;
          [apply Nat.eqb_eq in E1; lia|].
        fold s0. split; reflexivity.
      * destruct (Hin t) as [H1 H2]; [lia|]. cbv zeta.
        replace (i0 + S t)%nat with (S i0 + t)%nat by lia.
        replace (44 + offset w + 2 * S t)%nat
          with (44 + (offset w + 2) + 2 * t)%nat by lia.
        split; [exact H1|exact H2].
Qed.

(** The outer loop from a writer at frame [pos w]: the frames from there to
    the end of the buffer are written one after the other from
    [44 + offset], and nothing else is touched. *)
Lemma while_frames_result (buffer : AudioBuffer) (channels : list (list Q)) :
  forall (rounds : nat) (w : Writer),
    let n := buf_length buffer in
    let ch := numberOfChannels buffer in
    (n - pos w <= rounds)%nat ->
    (44 + offset w + 2 * (ch * (n - pos w)) <= byteLength (view w))%nat ->
    exists w',
      while_frames rounds buffer channels w = Some w' /\
      byteLength (view w') = byteLength (view w) /\
      (forall j, (j < 44 + offset w \/
                  44 + offset w + 2 * (ch * (n - pos w)) <= j)%nat ->
                 getUint8 (view w') j = getUint8 (view w) j) /\
      (forall q i, (q < n - pos w)%nat -> (i < ch)%nat ->
         let s := to16bit (clamp (nth (pos w + q) (nth i channels []) 0)) in
         getUint8 (view w') (44 + offset w + 2 * (ch * q + i)) = (s mod 256)%Z /\
         getUint8 (view w') (44 + offset w + 2 * (ch * q + i) + 1)
           = ((s / 256) mod 256)%Z).
Proof.
  intros rounds w n ch. revert w.
  induction rounds as [|r IH]; intros w Hrounds Hfit.
  - cbn [while_frames].
    destruct (pos w <? buf_length buffer)%nat eqn:E;
      [apply Nat.ltb_lt in E; fold n in E; lia|].
    exists w. split; [reflexivity|]. split; [reflexivity|].
    split; [reflexivity|]. intros q i Hq. lia.
  - cbn [while_frames].
    destruct (pos w <? buf_length buffer)%nat eqn:E.
    + apply Nat.ltb_lt in E. fold n in E. fold ch.
      assert (Hone : (ch * (n - pos w) = ch + ch * (n - (pos w + 1)))%nat).
      { replace (n - pos w)%nat with (S (n - (pos w + 1))) by lia.
        now rewrite Nat.mul_succ_r, Nat.add_comm. }
      destruct (for_channels_result channels ch 0 w)
        as (w1 & Hrun & Hpos & Hoff & Hlen & Hout & Hin); [lia|].
      rewrite Hrun.
      set (w2 := mkWriter (view w1) (pos w1 + 1) (offset w1)).
      destruct (IH w2) as (w' & Hrun' & Hlen' & Hout' & Hin').
      { unfold w2. cbn. lia. }
      { unfold w2. cbn. rewrite Hpos, Hoff, Hlen. lia. }
      unfold w2 in Hlen', Hout', Hin'. cbn [pos offset view] in Hlen', Hout', Hin'.
      rewrite Hpos, Hoff in Hout', Hin'.
      exists w'. split; [exact Hrun'|]. split; [congruence|]. split.
      * intros j Hj. rewrite Hout' by lia. apply Hout. lia.
      * intros q i Hq Hi. destruct q as [|q].
        -- cbv zeta.
           replace (pos w + 0)%nat with (pos w) by lia.
           replace (44 + offset w + 2 * (ch * 0 + i))%nat
             with (44 + offset w + 2 * i)%nat by lia.
           rewrite !Hout' by lia.
           destruct (Hin i Hi) as [H1 H2]. cbn [Nat.add] in H1, H2.
           split; [exact H1|exact H2].
        -- destruct (Hin' q i) as [H1 H2]; [lia|exact Hi|]. cbv zeta.
           replace (pos w + S q)%nat with (pos w + 1 + q)%nat by lia.
           replace (44 + offset w + 2 * (ch * S q + i))%nat
             with (44 + (offset w + 2 * ch) + 2 * (ch * q + i))%nat
             by (rewrite Nat.mul_succ_r; lia).
           split; [exact H1|exact H2].
    + apply Nat.ltb_ge in E. fold n in E.
      exists w. split; [reflexivity|]. split; [reflexivity|].
      split; [reflexivity|]. intros q i Hq. lia.
Qed.

(** ** The whole encoder *)

Lemma nth_channels (buffer : AudioBuffer) (i : nat) :
  (i < numberOfChannels buffer)%nat ->
  nth i (map (getChannelData buffer) (seq 0 (numberOfChannels buffer))) []
  = getChannelData buffer i.
Proof.
  intro Hi.
  rewrite (nth_indep _ [] (getChannelData buffer 0%nat))
    by (rewrite length_map, length_seq; exact Hi).
  rewrite map_nth, seq_nth by exact Hi. reflexivity.
Qed.

Lemma slot_in_frame (ch n k i : nat) :
  (k < n)%nat -> (i < ch)%nat -> (ch * k + i < ch * n)%nat.
Proof.
  intros Hk Hi. apply Nat.lt_le_trans with (ch * S k)%nat.
  - rewrite Nat.mul_succ_r. lia.
  - apply Nat.mul_le_mono_l. lia.
Qed.

(** The buffer the encoder ends with: the header in the first 44 bytes, the
    frames from 44 on behind it, and zeros where the loop did not come. *)
Lemma audioBufferToWav_result (buffer : AudioBuffer) :
  let n := buf_length buffer in
  let ch := numberOfChannels buffer in
  exists v,
    audioBufferToWav buffer = Some (bytes v) /\
    byteLength v = (n * ch * 2 + 44)%nat /\
    (forall j, (j < 44)%nat ->
       getUint8 v j = nth j (wav_header ch (sampleRate buffer) (n * ch * 2 + 44)) 0%Z) /\
    (forall k i, (k < n)%nat -> (i < ch)%nat ->
       let s := if (k + 44 <? n)%nat then sample16 buffer i (k + 44) else 0%Z in
       getUint8 v (44 + 2 * (ch * k + i)) = (s mod 256)%Z /\
       getUint8 v (44 + 2 * (ch * k + i) + 1) = ((s / 256) mod 256)%Z).
Proof.
  intros n ch. unfold audioBufferToWav. fold n ch.
  rewrite (Nat.add_comm (n * ch * 2) 44).
  destruct (write_header_result ch (sampleRate buffer) (n * ch * 2))
    as (w0 & Hrun & Hpos & Hoff & Hlen & Hzero & Hhead).
  rewrite Hrun.
  set (channels := map (getChannelData buffer) (seq 0 ch)).
  assert (Hle : (ch * (n - 44) <= ch * n)%nat)
    by (apply Nat.mul_le_mono_l; lia).
  destruct (while_frames_result buffer channels n w0)
    as (w' & Hrun' & Hlen' & Hout' & Hin').
  { lia. }
  { fold ch n. rewrite Hpos, Hoff, Hlen. lia. }
  fold n ch in Hout', Hin'. rewrite Hpos, Hoff in Hout', Hin'.
  rewrite Hrun'. exists (view w').
  split; [reflexivity|]. split; [rewrite Hlen', Hlen; lia|]. split.
  - intros j Hj. rewrite Hout' by lia. apply Hhead. exact Hj.
  - intros k i Hk Hi.
    destruct (k + 44 <? n)%nat eqn:E.
    + apply Nat.ltb_lt in E.
      destruct (Hin' k i) as [H1 H2]; [lia|exact Hi|].
      cbv zeta in H1, H2. unfold channels in H1, H2.
      rewrite nth_channels in H1, H2 by exact Hi.
      cbn [Nat.add] in H1, H2. cbv zeta. unfold sample16.
      replace (k + 44)%nat with (44 + k)%nat by lia.
      split; [exact H1|exact H2].
    + apply Nat.ltb_ge in E. cbv zeta.
      assert (Hpast : (ch * (n - 44) <= ch * k + i)%nat).
      { apply Nat.le_trans with (ch * k)%nat;
          [apply Nat.mul_le_mono_l; lia|lia]. }
      rewrite !Hout' by lia. rewrite !Hzero by lia.
      split; reflexivity.
Qed.

(** X21: the encoder never fails: for every buffer, also an empty one or
    one with no channel, it ends with a file of 44 bytes and two more for
    each sample, which begins with the PCM header of such a file; the loop
    that writes the samples leaves the header as it is. *)
Theorem audioBufferToWav_writes_header_and_all_bytes (buffer : AudioBuffer) :
  exists file,
    audioBufferToWav buffer = Some file /\
    List.length file = (buf_length buffer * numberOfChannels buffer * 2 + 44)%nat /\
    firstn 44 file =
      wav_header (numberOfChannels buffer) (sampleRate buffer)
                 (buf_length buffer * numberOfChannels buffer * 2 + 44).
Proof.
  destruct (audioBufferToWav_result buffer) as (v & Hrun & Hlen & Hhead & _).
  exists (bytes v). split; [exact Hrun|].
  split; [rewrite bytes_length; exact Hlen|].
  apply (nth_ext _ _ 0%Z 0%Z).
  - rewrite length_firstn, bytes_length, Hlen.
    rewrite Nat.min_l by lia. reflexivity.
  - intros j Hj.
    rewrite length_firstn, bytes_length, Hlen in Hj.
    rewrite Nat.min_l in Hj by lia.
    assert (Hj44 : (j < 44)%nat) by exact Hj.
    rewrite nth_firstn.
    destruct (j <? 44)%nat eqn:E; [|apply Nat.ltb_ge in E; lia].
    rewrite nth_bytes by lia. apply Hhead. exact Hj44.
Qed.

(** X22: the samples of the file are those of the buffer from frame 44 on:
    the sample at place [k] of channel [i] is frame [k + 44] of that
    channel, the frames 0 to 43 of the buffer are in no place of the file,
    and the last 44 places of each channel are silence. *)
Theorem wav_samples_start_at_frame_44 (buffer : AudioBuffer) (file : list Z) :
  audioBufferToWav buffer = Some file ->
  forall k i : nat,
    (k < buf_length buffer)%nat -> (i < numberOfChannels buffer)%nat ->
    int16_at file (44 + 2 * (numberOfChannels buffer * k + i)) =
    if (k + 44 <? buf_length buffer)%nat then sample16 buffer i (k + 44) else 0%Z.
Proof.
  intros Hfile k i Hk Hi.
  destruct (audioBufferToWav_result buffer) as (v & Hrun & Hlen & _ & Hdata).
  rewrite Hrun in Hfile. injection Hfile as <-.
  destruct (Hdata k i Hk Hi) as [H1 H2]. cbv zeta in H1, H2.
  pose proof (slot_in_frame _ _ _ _ Hk Hi) as Hslot.
  unfold int16_at.
  rewrite !nth_bytes by (rewrite Hlen; lia).
  rewrite H1, H2. apply int16_bytes.
  destruct (k + 44 <? buf_length buffer)%nat; [apply to16bit_range|lia].
Qed.

Lemma wav_samples_start_at_frame_44_witness :
  audioBufferToWav beep = Some beep_wav /\
  int16_at beep_wav 44 = 32767%Z /\
  int16_at beep_wav 48 = 0%Z.
Proof.
  assert (H : audioBufferToWav beep = Some beep_wav) by (vm_compute; reflexivity).
  split; [exact H|]. split.
  - exact (wav_samples_start_at_frame_44 beep beep_wav H 0 0
             ltac:(cbn; lia) ltac:(cbn; lia)).
  - exact (wav_samples_start_at_frame_44 beep beep_wav H 2 0
             ltac:(cbn; lia) ltac:(cbn; lia)).
Defined.

Lemma le32_value (x : Z) :
  (0 <= x < 4294967296)%Z ->
  (x mod 256 + 256 * ((x / 256) mod 256) + 65536 * ((x / 65536) mod 256)
   + 16777216 * ((x / 16777216) mod 256) = x)%Z.
Proof. intro H. Z.div_mod_to_equations. lia. Qed.

Lemma le16_value (x : Z) :
  (0 <= x < 65536)%Z -> (x mod 256 + 256 * ((x / 256) mod 256) = x)%Z.
Proof. intro H. Z.div_mod_to_equations. lia. Qed.

(** X23: the header can be read back: in a file below 4 GiB, of a buffer
    with fewer than 65536 channels and a sample rate that fits 32 bits, the
    RIFF size is the length of the file less 8, the data size is the length
    less the 44 bytes of the header, that is two bytes for each sample, and
    the channel count and the sample rate are those of the buffer. *)
Theorem wav_header_reads_back (buffer : AudioBuffer) (file : list Z) :
  audioBufferToWav buffer = Some file ->
  (Z.of_nat (List.length file) < 4294967296)%Z ->
  (Z.of_nat (numberOfChannels buffer) < 65536)%Z ->
  (0 <= sampleRate buffer < 4294967296)%Z ->
  uint32_at file 4 = (Z.of_nat (List.length file) - 8)%Z /\
  uint32_at file 40 = (Z.of_nat (List.length file) - 44)%Z /\
  uint32_at file 40
    = (2 * Z.of_nat (numberOfChannels buffer) * Z.of_nat (buf_length buffer))%Z /\
  uint16_at file 22 = Z.of_nat (numberOfChannels buffer) /\
  uint32_at file 24 = sampleRate buffer.
Proof.
  intros Hfile Hsize Hch Hrate.
  destruct (audioBufferToWav_result buffer) as (v & Hrun & Hlen & Hhead & _).
  rewrite Hrun in Hfile. injection Hfile as <-.
  rewrite bytes_length in *. rewrite Hlen in *.
  unfold uint32_at, uint16_at. cbn [Nat.add].
  rewrite !nth_bytes by (rewrite Hlen; lia).
  rewrite !Hhead by lia.
  unfold wav_header, le32, le16. cbn [nth app].
  rewrite !le32_value by lia. rewrite le16_value by lia.
  repeat split; lia.
Qed.

Lemma wav_header_reads_back_witness :
  audioBufferToWav beep = Some beep_wav /\
  uint32_at beep_wav 4 = 128%Z /\
  uint32_at beep_wav 40 = 92%Z /\
  uint32_at beep_wav 40 = 92%Z /\
  uint16_at beep_wav 22 = 1%Z /\
  uint32_at beep_wav 24 = 24000%Z.
Proof.
  assert (H : audioBufferToWav beep = Some beep_wav) by (vm_compute; reflexivity).
  split; [exact H|].
  exact (wav_header_reads_back beep beep_wav H
           ltac:(vm_compute; reflexivity) ltac:(vm_compute; reflexivity)
           ltac:(split; vm_compute; [discriminate|reflexivity])).
Defined.

End WavFacts.
